(** * DDPG agent of duckietown_rl/ddpg.py: a shallow embedding

    The Python module defines three networks (ActorPID, ActorCNN, CriticCNN;
    CriticDense is never instantiated by DDPG) and the DDPG agent with its
    methods __init__, predict, train, save and load.

    The entries of a tensor are real numbers: the model has the finite
    values of float32 and neither its infinities nor NaN.  The arithmetic
    that ActorCNN.forward and ActorPID.forward write on the two columns of
    the action (lines 92, 93 and 100 of ddpg.py) is float32 arithmetic:
    every operation there rounds its result to float32, to nearest and ties
    to even ([round32]), and torch's sigmoid and tanh are taken as the
    correctly rounded functions.  A tensor is a shape with a function from the
    flat row-major index to its entry, and it carries the list of parameters
    it depends on through gradient tracking (its autograd tape).  The numeric
    kernels of torch (convolution, affine maps, batch statistics, dropout
    masks, reductions, Adam's arithmetic, the gradient values) are fields of
    a record [Kernels]; controller.py is not part of the sources, so
    Controller.angle_control_commands is a field of that record too.  What
    ddpg.py itself writes is modelled concretely: the order of the calls, the
    parameters and buffers each call reads and writes, the post-processing of
    the action columns, detach, zero_grad/backward/step, the soft update and
    the checkpoint files. *)

From Stdlib Require Import Reals Lra ZArith Lia List String Bool.
Import ListNotations.

Local Open Scope Z_scope.
Local Open Scope R_scope.
Local Open Scope string_scope.
Local Open Scope list_scope.

(** ** Exceptions and results *)

Inductive Exc : Type :=
| AssertionError
| TypeError
| IndexError
| RuntimeError
| FileNotFoundError
| OSError
| AttributeError.

Inductive result (A : Type) : Type :=
| Ok (a : A)
| Raise (e : Exc).
Arguments Ok {A} a.
Arguments Raise {A} e.

Definition rbind {A B} (r : result A) (f : A -> result B) : result B :=
  match r with
  | Ok a => f a
  | Raise e => Raise e
  end.

(** ** Scalar activations *)

Definition sigm (x : R) : R := 1 / (1 + exp (- x)).

Definition leaky (x : R) : R :=
  if Rle_dec 0 x then x else (1 / 100) * x.

(** ** float32 *)

(** The nearest integer, a tie going to the even one. *)
Definition rint (x : R) : Z :=
  let n := Zfloor x in
  if Rlt_dec (x - IZR n) (1 / 2) then n
  else if Rlt_dec (1 / 2) (x - IZR n) then (n + 1)%Z
  else if Z.even n then n else (n + 1)%Z.

(** The exponent of the last place of [x] in float32: the least [e] from
    -149 on with |x| < 2^(e+24), and 104 when there is none below. *)
Fixpoint ulp_exponent (n : nat) (e : Z) (x : R) : Z :=
  match n with
  | O => e
  | S n' =>
      if Rlt_dec (Rabs x) (powerRZ 2 (e + 24)) then e
      else ulp_exponent n' (e + 1)%Z x
  end.

Definition exponent32 (x : R) : Z := ulp_exponent 253 (-149)%Z x.

(** [x] rounded to float32, to nearest and ties to even. *)
Definition round32 (x : R) : R :=
  IZR (rint (x * powerRZ 2 (- exponent32 x))) * powerRZ 2 (exponent32 x).

(** The finite numbers of float32: m * 2^e with |m| < 2^24 and
    -149 <= e <= 104. *)
Definition float32 (y : R) : Prop :=
  exists m e : Z,
    (Z.abs m < 16777216)%Z /\ (-149 <= e <= 104)%Z
    /\ y = IZR m * powerRZ 2 e.

(** Where float32 overflows: from (2^24 - 1/2) * 2^104 on, rounding gives
    an infinity, which the reals do not have. *)
Definition overflow32 : R := (16777216 - 1 / 2) * powerRZ 2 104.

(** ** Tensors *)

(** The four networks an agent owns. *)
Inductive NetId : Type := Actor | ActorTarget | Critic | CriticTarget.

(** A leaf of the autograd graph: a parameter of one of the networks. *)
Definition Leaf : Type := (NetId * string)%type.

Record Tensor : Type := mkTensor {
  shape : list Z;
  data : Z -> R;
  tape : list Leaf    (* empty: the tensor does not require grad *)
}.

Definition numel (s : list Z) : Z := fold_right Z.mul 1%Z s.

Fixpoint shape_eqb (s t : list Z) : bool :=
  match s, t with
  | [], [] => true
  | a :: s', b :: t' => Z.eqb a b && shape_eqb s' t'
  | _, _ => false
  end.

(** [t.detach()] and [t.data]: same storage, no tape. *)
Definition detach (t : Tensor) : Tensor :=
  mkTensor (shape t) (data t) [].

(** Point-wise map, and multiplication and addition by a Python float. *)
Definition tmap (f : R -> R) (t : Tensor) : Tensor :=
  mkTensor (shape t) (fun i => f (data t i)) (tape t).

Definition smul (c : R) (t : Tensor) : Tensor := tmap (fun v => c * v) t.
Definition sadd (c : R) (t : Tensor) : Tensor := tmap (fun v => c + v) t.
Definition rsub (c : R) (t : Tensor) : Tensor := tmap (fun v => c - v) t.
Definition tneg (t : Tensor) : Tensor := tmap Ropp t.

(** The same on float32 tensors: the Python float is taken to float32 and
    the result of the operation is rounded; torch.sigmoid and torch.tanh. *)
Definition smul32 (c : R) (t : Tensor) : Tensor :=
  tmap (fun v => round32 (round32 c * v)) t.
Definition sadd32 (c : R) (t : Tensor) : Tensor :=
  tmap (fun v => round32 (round32 c + v)) t.
Definition sigmoid32 (t : Tensor) : Tensor :=
  tmap (fun v => round32 (sigm v)) t.
Definition tanh32 (t : Tensor) : Tensor :=
  tmap (fun v => round32 (tanh v)) t.

Definition zeros (s : list Z) : Tensor := mkTensor s (fun _ => 0) [].
Definition ones (s : list Z) : Tensor := mkTensor s (fun _ => 1) [].
Definition ones_like (t : Tensor) : Tensor := ones (shape t).

(** [t.squeeze()]: the dimensions of size 1 are dropped. *)
Definition squeeze (t : Tensor) : Tensor :=
  mkTensor (filter (fun n => negb (Z.eqb n 1)) (shape t)) (data t) (tape t).

(** [np.expand_dims(a, axis=0)] and [a.reshape(1, -1)]. *)
Definition expand_dims0 (t : Tensor) : Tensor :=
  mkTensor (1%Z :: shape t) (data t) (tape t).

Definition reshape_1_m1 (t : Tensor) : Tensor :=
  mkTensor [1%Z; numel (shape t)] (data t) (tape t).

(** [a.flatten()]. *)
Definition flatten (t : Tensor) : Tensor :=
  mkTensor [numel (shape t)] (data t) (tape t).

(** [x.view(x.size(0), -1)]. *)
Definition view_rows (t : Tensor) : result Tensor :=
  match shape t with
  | [] => Raise IndexError
  | b :: rest =>
      if Z.eqb b 0 then Raise RuntimeError
      else Ok (mkTensor [b; numel rest] (data t) (tape t))
  end.

(** The autograd tape of a result: the leaves of both operands, once each. *)
Definition Leaf_eq_dec (a b : Leaf) : {a = b} + {a <> b}.
Proof.
  decide equality; [apply string_dec | decide equality].
Defined.

Definition tape_union (a b : list Leaf) : list Leaf :=
  nodup Leaf_eq_dec (a ++ b).

Definition retape (l : list Leaf) (t : Tensor) : Tensor :=
  mkTensor (shape t) (data t) l.

(** ** Ordered dictionaries (name to value, in registration order) *)

Section Alist.
Context {V : Type}.

Fixpoint alist_get (k : string) (l : list (string * V)) : option V :=
  match l with
  | [] => None
  | (k', v) :: l' => if String.eqb k k' then Some v else alist_get k l'
  end.

Fixpoint alist_set (k : string) (v : V) (l : list (string * V))
  : list (string * V) :=
  match l with
  | [] => []
  | (k', v') :: l' =>
      if String.eqb k k' then (k', v) :: l' else (k', v') :: alist_set k v l'
  end.

Definition keys (l : list (string * V)) : list string := map fst l.

Definition has_key (k : string) (l : list (string * V)) : bool :=
  match alist_get k l with Some _ => true | None => false end.

End Alist.

(** ** Modules, optimizers, the agent *)

Record Param : Type := mkParam {
  pdata : Tensor;            (* [param.data] *)
  grad : option Tensor       (* [param.grad] *)
}.

Inductive ModuleClass : Type := ActorPID | ActorCNN | CriticCNN.

(** An nn.Module instance: its registered parameters and buffers (those of
    its sub-modules under their dotted names), the training flag and, for the
    two actor classes, the attribute [max_action]. *)
Record Module : Type := mkModule {
  cls : ModuleClass;
  named_parameters : list (string * Param);
  named_buffers : list (string * Tensor);
  training : bool;
  max_action : R
}.

(** [m.parameters()], in registration order. *)
Definition parameters (m : Module) : list Tensor :=
  map (fun e => pdata (snd e)) (named_parameters m).

Definition StateDict : Type := list (string * Tensor).

(** [m.state_dict()]: every parameter and every buffer under its name,
    detached.  (torch interleaves the entries sub-module by sub-module; the
    order of a state dict is not observed by load_state_dict.) *)
Definition state_dict (m : Module) : StateDict :=
  map (fun e => (fst e, detach (pdata (snd e)))) (named_parameters m)
  ++ map (fun e => (fst e, detach (snd e))) (named_buffers m).

Record AdamSlot : Type := mkAdamSlot {
  step_count : Z;
  exp_avg : Tensor;
  exp_avg_sq : Tensor
}.

(** torch.optim.Adam over the parameters of one network: it holds
    references to the parameter objects of that network, not copies. *)
Record Adam : Type := mkAdam {
  param_group : NetId;
  lr : R;
  adam_state : list (string * AdamSlot)
}.

Record DDPG : Type := mkDDPG {
  state_dim : list Z;
  flat : bool;
  actor : Module;
  actor_target : Module;
  actor_optimizer : Adam;
  critic : Module;
  critic_target : Module;
  critic_optimizer : Adam
}.

Definition get_net (who : NetId) (a : DDPG) : Module :=
  match who with
  | Actor => actor a
  | ActorTarget => actor_target a
  | Critic => critic a
  | CriticTarget => critic_target a
  end.

Definition set_net (who : NetId) (m : Module) (a : DDPG) : DDPG :=
  match who with
  | Actor =>
      mkDDPG (state_dim a) (flat a) m (actor_target a) (actor_optimizer a)
             (critic a) (critic_target a) (critic_optimizer a)
  | ActorTarget =>
      mkDDPG (state_dim a) (flat a) (actor a) m (actor_optimizer a)
             (critic a) (critic_target a) (critic_optimizer a)
  | Critic =>
      mkDDPG (state_dim a) (flat a) (actor a) (actor_target a)
             (actor_optimizer a) m (critic_target a) (critic_optimizer a)
  | CriticTarget =>
      mkDDPG (state_dim a) (flat a) (actor a) (actor_target a)
             (actor_optimizer a) (critic a) m (critic_optimizer a)
  end.

(** The two optimizers of an agent. *)
Inductive OptId : Type := ActorOptimizer | CriticOptimizer.

Definition get_optimizer (o : OptId) (a : DDPG) : Adam :=
  match o with
  | ActorOptimizer => actor_optimizer a
  | CriticOptimizer => critic_optimizer a
  end.

Definition set_optimizer (o : OptId) (v : Adam) (a : DDPG) : DDPG :=
  match o with
  | ActorOptimizer =>
      mkDDPG (state_dim a) (flat a) (actor a) (actor_target a) v
             (critic a) (critic_target a) (critic_optimizer a)
  | CriticOptimizer =>
      mkDDPG (state_dim a) (flat a) (actor a) (actor_target a)
             (actor_optimizer a) (critic a) (critic_target a) v
  end.

(** ** The environment of the process *)

(** torch's random generator: a stream of uniform draws and a position. *)
Record Rng : Type := mkRng {
  stream : Z -> R;
  pos : Z
}.

(** The file system as torch.save and torch.load see it. *)
Record Disk : Type := mkDisk {
  files : string -> option StateDict;
  writable : string -> bool
}.

(** One sampled batch: the fields train reads from the dictionary. *)
Record Batch : Type := mkBatch {
  b_state : Tensor;
  b_action : Tensor;
  b_next_state : Tensor;
  b_done : Tensor;
  b_reward : Tensor;
  b_dist : Tensor;
  b_angle : Tensor;
  b_next_dist : Tensor;
  b_next_angle : Tensor
}.

(** The replay buffer is an outside object: what a call of its [sample]
    returns is a function of all the calls made on it so far (the call being
    answered is the head of the list), each call recorded as
    [(batch_size, flat)]. *)
Definition ReplayBuffer : Type := list (Z * bool) -> result Batch.

Record Env : Type := mkEnv {
  rng : Rng;
  disk : Disk;
  sample_calls : list (Z * bool)   (* most recent first *)
}.

Record World : Type := mkWorld {
  self : DDPG;
  env : Env
}.

(** ** The monad of a method body: state, and exceptions that keep the
    mutations made before they were raised. *)

Definition M (S A : Type) : Type := S -> result A * S.

Definition ret {S A} (a : A) : M S A := fun s => (Ok a, s).

Definition raise {S A} (e : Exc) : M S A := fun s => (Raise e, s).

Definition bind {S A B} (m : M S A) (f : A -> M S B) : M S B :=
  fun s =>
    match m s with
    | (Ok a, s') => f a s'
    | (Raise e, s') => (Raise e, s')
    end.

Definition lift {S A} (r : result A) : M S A := fun s => (r, s).

Definition get {S} : M S S := fun s => (Ok s, s).

Definition modify {S} (f : S -> S) : M S unit := fun s => (Ok tt, f s).

Notation "x <- m ;; k" := (bind m (fun x => k))
  (at level 61, m at next level, right associativity).
Notation "m ;;; k" := (bind m (fun _ => k))
  (at level 61, right associativity).

(** An action on the environment, run inside a method. *)
Definition liftE {A} (m : M Env A) : M World A :=
  fun w =>
    match m (env w) with
    | (r, e') => (r, mkWorld (self w) e')
    end.

Definition read_net (who : NetId) : M World Module :=
  fun w => (Ok (get_net who (self w)), w).

Definition write_net (who : NetId) (m : Module) : M World unit :=
  fun w => (Ok tt, mkWorld (set_net who m (self w)) (env w)).

Notation "'let?' x := r 'in' k" := (rbind r (fun x => k))
  (at level 10, x name, r at level 100, k at level 200).

(** ** The numeric kernels *)

(** What torch computes on the entries, and the controller of controller.py
    (which is not among the sources).  Every kernel is applied to detached
    operands, and the tape of its result is set by the caller. *)
Record Kernels : Type := mkKernels {
  (* F.conv2d with the given stride: weight, bias, input *)
  conv2d : Z -> Tensor -> Tensor -> Tensor -> result Tensor;
  (* F.linear: weight, bias, input *)
  linear : Tensor -> Tensor -> Tensor -> result Tensor;
  (* F.batch_norm in training mode: weight, bias, running mean, running
     variance, input; the output and the two updated running statistics *)
  batch_norm_train :
    Tensor -> Tensor -> Tensor -> Tensor -> Tensor ->
    result (Tensor * Tensor * Tensor);
  (* F.batch_norm in evaluation mode *)
  batch_norm_eval :
    Tensor -> Tensor -> Tensor -> Tensor -> Tensor -> result Tensor;
  (* torch.cat([a, b], 1) *)
  cat1 : Tensor -> Tensor -> result Tensor;
  (* t.mean() *)
  mean : Tensor -> Tensor;
  (* F.mse_loss *)
  mse_loss : Tensor -> Tensor -> result Tensor;
  (* broadcasting: the common shape of two shapes, and a tensor expanded to
     a shape *)
  broadcast_shapes : list Z -> list Z -> result (list Z);
  broadcast_to : list Z -> Tensor -> result Tensor;
  (* Controller.angle_control_commands(dist, angle, v) *)
  angle_control_commands : Tensor -> Tensor -> Tensor -> result Tensor;
  (* the value autograd computes for one leaf: the agent at the time of
     backward(), the batch, the loss, the leaf *)
  autograd_grad : DDPG -> Batch -> Tensor -> Leaf -> Tensor;
  (* one Adam update of one parameter: learning rate, the state kept for the
     parameter (none before its first update), the value, the gradient *)
  adam_update : R -> option AdamSlot -> Tensor -> Tensor -> AdamSlot * Tensor;
  (* whether zero_grad() sets a gradient to None (the later versions of
     torch) or zeroes it in place (the earlier ones) *)
  grad_to_none : bool
}.

Definition set_parameters (ps : list (string * Param)) (m : Module) : Module :=
  mkModule (cls m) ps (named_buffers m) (training m) (max_action m).

Definition set_buffers (bs : list (string * Tensor)) (m : Module) : Module :=
  mkModule (cls m) (named_parameters m) bs (training m) (max_action m).

Definition shape0 (t : Tensor) : result Z :=
  match shape t with
  | [] => Raise IndexError
  | b :: _ => Ok b
  end.

Section Torch.
Variable K : Kernels.

(** The result of a kernel, with the tape [l]. *)
Definition via (l : list Leaf) (r : result Tensor) : result Tensor :=
  let? y := r in Ok (retape l y).

(** A value made to fit a destination of shape [s] (an in-place operation
    or an indexed assignment): taken as it is when the shapes agree,
    expanded by torch otherwise. *)
Definition fit (s : list Z) (v : Tensor) : result Tensor :=
  if shape_eqb (shape v) s then Ok v
  else via (tape v) (broadcast_to K s (detach v)).

(** A point-wise binary operation [a op b]. *)
Definition binop (f : R -> R -> R) (a b : Tensor) : result Tensor :=
  if shape_eqb (shape a) (shape b) then
    Ok (mkTensor (shape a) (fun i => f (data a i) (data b i))
                 (tape_union (tape a) (tape b)))
  else
    let? s := broadcast_shapes K (shape a) (shape b) in
    let? a' := broadcast_to K s (detach a) in
    let? b' := broadcast_to K s (detach b) in
    Ok (mkTensor s (fun i => f (data a' i) (data b' i))
                 (tape_union (tape a) (tape b))).

Definition tadd := binop Rplus.
Definition tmul := binop Rmult.

(** [x[:, j]] of a matrix [x]. *)
Definition col (j : Z) (x : Tensor) : result Tensor :=
  match shape x with
  | [b; a] =>
      if ((0 <=? j) && (j <? a))%Z
      then Ok (mkTensor [b] (fun r => data x (r * a + j)%Z) (tape x))
      else Raise IndexError
  | _ => Raise IndexError
  end.

(** [x[:, j] = v]: the matrix after the assignment. *)
Definition set_col (j : Z) (x v : Tensor) : result Tensor :=
  match shape x with
  | [b; a] =>
      if ((0 <=? j) && (j <? a))%Z
      then
        let? v' := fit [b] v in
        Ok (mkTensor [b; a]
              (fun i => if Z.eqb (i mod a) j then data v' (i / a)%Z
                        else data x i)
              (tape_union (tape x) (tape v)))
      else Raise IndexError
  | _ => Raise IndexError
  end.

(** [u += v] on a view [u] of a float32 tensor: the new entries of the
    view. *)
Definition iadd (u v : Tensor) : result Tensor :=
  let? v' := fit (shape u) v in
  Ok (mkTensor (shape u) (fun i => round32 (data u i + data v' i))
               (tape_union (tape u) (tape v))).

(** *** Access to the attributes of a network; a buffer is written in
    place (its entries are replaced, its shape stays) *)

Definition param (who : NetId) (name : string) : M World Tensor :=
  m <- read_net who ;;
  match alist_get name (named_parameters m) with
  | Some p => ret (retape [(who, name)] (pdata p))
  | None => raise AttributeError
  end.

Definition buffer (who : NetId) (name : string) : M World Tensor :=
  m <- read_net who ;;
  match alist_get name (named_buffers m) with
  | Some t => ret (detach t)
  | None => raise AttributeError
  end.

Definition set_buffer (who : NetId) (name : string) (t : Tensor)
  : M World unit :=
  m <- read_net who ;;
  match alist_get name (named_buffers m) with
  | Some old =>
      write_net who
        (set_buffers
           (alist_set name (mkTensor (shape old) (data t) []) (named_buffers m))
           m)
  | None => raise AttributeError
  end.

Definition tapes3 (a b c : Tensor) : list Leaf :=
  tape_union (tape a) (tape_union (tape b) (tape c)).

(** *** The layers *)

Definition Conv2d_forward (who : NetId) (name : string) (stride : Z)
    (x : Tensor) : M World Tensor :=
  w <- param who (name ++ ".weight")%string ;;
  b <- param who (name ++ ".bias")%string ;;
  lift (via (tapes3 w b x) (conv2d K stride (detach w) (detach b) (detach x))).

Definition Linear_forward (who : NetId) (name : string) (x : Tensor)
  : M World Tensor :=
  w <- param who (name ++ ".weight")%string ;;
  b <- param who (name ++ ".bias")%string ;;
  lift (via (tapes3 w b x) (linear K (detach w) (detach b) (detach x))).

(** nn.BatchNorm2d: in training mode the counter of batches is incremented
    first, then the batch is normalised with its own statistics and the
    running statistics are updated; in evaluation mode the running
    statistics are used and nothing is written. *)
Definition BatchNorm2d_forward (who : NetId) (name : string) (x : Tensor)
  : M World Tensor :=
  m <- read_net who ;;
  w <- param who (name ++ ".weight")%string ;;
  b <- param who (name ++ ".bias")%string ;;
  rm <- buffer who (name ++ ".running_mean")%string ;;
  rv <- buffer who (name ++ ".running_var")%string ;;
  if training m then
    n <- buffer who (name ++ ".num_batches_tracked")%string ;;
    set_buffer who (name ++ ".num_batches_tracked")%string (sadd 1 n) ;;;
    r <- lift (batch_norm_train K (detach w) (detach b) rm rv (detach x)) ;;
    set_buffer who (name ++ ".running_mean")%string (snd (fst r)) ;;;
    set_buffer who (name ++ ".running_var")%string (snd r) ;;;
    ret (retape (tapes3 w b x) (fst (fst r)))
  else
    lift (via (tapes3 w b x)
            (batch_norm_eval K (detach w) (detach b) rm rv (detach x))).

(** nn.Dropout(.5): in training mode each entry is zeroed with probability
    one half, by one draw of the generator, and the others are doubled. *)
Definition draw_mask (x : Tensor) : M Env Tensor :=
  fun e =>
    let g := rng e in
    (Ok (mkTensor (shape x)
           (fun i => if Rlt_dec (stream g (pos g + i)%Z) (1 / 2) then 0
                     else 2 * data x i)
           (tape x)),
     mkEnv (mkRng (stream g) (pos g + numel (shape x))%Z)
           (disk e) (sample_calls e)).

Definition Dropout_forward (who : NetId) (x : Tensor) : M World Tensor :=
  m <- read_net who ;;
  if training m then liftE (draw_mask x) else ret x.

Definition lr_forward (x : Tensor) : Tensor := tmap leaky x.

(** *** ActorPID.forward and ActorCNN.forward *)

(** [x[:,1] += self.controller.angle_control_commands(dist.squeeze(),
    angle.squeeze(), x[:, 0])], the last statement of both actors. *)
Definition add_angle_control (x dist angle : Tensor) : result Tensor :=
  let? u := col 1 x in
  let? v := col 0 x in
  let? omega :=
    via (tapes3 dist angle v)
        (angle_control_commands K (detach (squeeze dist))
           (detach (squeeze angle)) (detach v)) in
  let? s := iadd u omega in
  set_col 1 x s.

(** The control-only action before the steering is added:
    [x = torch.zeros(x.shape[0], 2); x[:,0] = 0.5 * torch.ones_like(dist.squeeze())]. *)
Definition pid_action (x dist : Tensor) : result Tensor :=
  let? b := shape0 x in
  set_col 0 (zeros [b; 2%Z]) (smul (1 / 2) (ones_like (squeeze dist))).

Definition ActorPID_forward (who : NetId) (x dist angle : Tensor)
  : M World Tensor :=
  x <- lift (pid_action x dist) ;;
  lift (add_angle_control x dist angle).

(** Lines 78 to 91 of ActorCNN.forward: the output of [lin2]. *)
Definition ActorCNN_trunk (who : NetId) (x : Tensor) : M World Tensor :=
  x <- Conv2d_forward who "conv1" 2 x ;;
  x <- BatchNorm2d_forward who "bn1" (lr_forward x) ;;
  x <- Conv2d_forward who "conv2" 2 x ;;
  x <- BatchNorm2d_forward who "bn2" (lr_forward x) ;;
  x <- Conv2d_forward who "conv3" 2 x ;;
  x <- BatchNorm2d_forward who "bn3" (lr_forward x) ;;
  x <- Conv2d_forward who "conv4" 1 x ;;
  x <- BatchNorm2d_forward who "bn4" (lr_forward x) ;;
  x <- lift (view_rows x) ;;
  x <- Dropout_forward who x ;;
  x <- Linear_forward who "lin1" x ;;
  Linear_forward who "lin2" (lr_forward x).

(** Lines 92 and 93: the two columns squashed in place,
    [x[:, 0] = 0.5 + self.max_action * self.sigm(x[:, 0])] and
    [x[:, 1] = self.tanh(x[:, 1])], on the float32 output of [lin2]. *)
Definition ActorCNN_squash (max_action : R) (x : Tensor) : result Tensor :=
  let? c0 := col 0 x in
  let? x := set_col 0 x (sadd32 (1 / 2) (smul32 max_action (sigmoid32 c0))) in
  let? c1 := col 1 x in
  set_col 1 x (tanh32 c1).

Definition ActorCNN_forward (who : NetId) (x dist angle : Tensor)
    (only_PID : bool) : M World Tensor :=
  x <- (if negb only_PID then
          x <- ActorCNN_trunk who x ;;
          m <- read_net who ;;
          lift (ActorCNN_squash (max_action m) x)
        else
          lift (pid_action x dist)) ;;
  lift (add_angle_control x dist angle).

(** *** CriticCNN.forward *)

Definition CriticCNN_forward (who : NetId) (states actions : Tensor)
  : M World Tensor :=
  x <- Conv2d_forward who "conv1" 2 states ;;
  x <- BatchNorm2d_forward who "bn1" (lr_forward x) ;;
  x <- Conv2d_forward who "conv2" 2 x ;;
  x <- BatchNorm2d_forward who "bn2" (lr_forward x) ;;
  x <- Conv2d_forward who "conv3" 2 x ;;
  x <- BatchNorm2d_forward who "bn3" (lr_forward x) ;;
  x <- Conv2d_forward who "conv4" 1 x ;;
  x <- BatchNorm2d_forward who "bn4" (lr_forward x) ;;
  x <- lift (view_rows x) ;;
  x <- Linear_forward who "lin1" x ;;
  x <- lift (via (tape_union (tape x) (tape actions))
               (cat1 K (detach (lr_forward x)) (detach actions))) ;;
  x <- Linear_forward who "lin2" x ;;
  Linear_forward who "lin3" (lr_forward x).

(** *** Calling a network: a network applied to its arguments *)

(** The positional arguments of a call. *)
Inductive PyVal : Type :=
| PTensor (t : Tensor)
| PBool (b : bool).

(** nn.Module.__call__ passes the arguments on to [forward]; a number of
    arguments that the signature of [forward] does not take is a
    TypeError.  ActorPID.forward takes (x, dist, angle); ActorCNN.forward
    takes (x, dist, angle, only_PID=False); CriticCNN.forward takes
    (states, actions). *)
Definition call (who : NetId) (args : list PyVal) : M World Tensor :=
  m <- read_net who ;;
  match cls m, args with
  | ActorPID, [PTensor x; PTensor dist; PTensor angle] =>
      ActorPID_forward who x dist angle
  | ActorCNN, [PTensor x; PTensor dist; PTensor angle] =>
      ActorCNN_forward who x dist angle false
  | ActorCNN, [PTensor x; PTensor dist; PTensor angle; PBool only_PID] =>
      ActorCNN_forward who x dist angle only_PID
  | CriticCNN, [PTensor states; PTensor actions] =>
      CriticCNN_forward who states actions
  | _, _ => raise TypeError
  end.

(** *** Constructors *)

(** A freshly initialised tensor: its entries are the next draws of the
    generator.  A negative dimension is refused. *)
Definition rand_tensor (s : list Z) : M Env Tensor :=
  fun e =>
    if forallb (fun n => (0 <=? n)%Z) s then
      let g := rng e in
      (Ok (mkTensor s (fun i => stream g (pos g + i)%Z) []),
       mkEnv (mkRng (stream g) (pos g + numel s)%Z) (disk e) (sample_calls e))
    else (Raise RuntimeError, e).

Definition fresh (t : Tensor) : Param := mkParam t None.

(** nn.Conv2d(cin, cout, k) and nn.Linear(fin, fout): weight and bias. *)
Definition Conv2d_init (name : string) (cin cout k : Z)
  : M Env (list (string * Param)) :=
  w <- rand_tensor [cout; cin; k; k] ;;
  b <- rand_tensor [cout] ;;
  ret [((name ++ ".weight")%string, fresh w);
       ((name ++ ".bias")%string, fresh b)].

Definition Linear_init (name : string) (fin fout : Z)
  : M Env (list (string * Param)) :=
  w <- rand_tensor [fout; fin] ;;
  b <- rand_tensor [fout] ;;
  ret [((name ++ ".weight")%string, fresh w);
       ((name ++ ".bias")%string, fresh b)].

(** nn.BatchNorm2d(n): weight one, bias zero; the running mean zero, the
    running variance one, and no batch seen yet. *)
Definition BatchNorm2d_params (name : string) (n : Z)
  : list (string * Param) :=
  [((name ++ ".weight")%string, fresh (ones [n]));
   ((name ++ ".bias")%string, fresh (zeros [n]))].

Definition BatchNorm2d_buffers (name : string) (n : Z)
  : list (string * Tensor) :=
  [((name ++ ".running_mean")%string, zeros [n]);
   ((name ++ ".running_var")%string, ones [n]);
   ((name ++ ".num_batches_tracked")%string, zeros [])].

Definition flat_size : Z := 32 * 9 * 14.

Definition ActorPID_init (state_dim : list Z) (action_dim : Z)
    (max_action : R) : M Env Module :=
  let state_dim := fold_left Z.mul state_dim 1%Z in
  l1 <- Linear_init "l1" state_dim 400 ;;
  l2 <- Linear_init "l2" 400 300 ;;
  l3 <- Linear_init "l3" 300 action_dim ;;
  ret (mkModule ActorPID (l1 ++ l2 ++ l3) [] true max_action).

Definition conv_stack : M Env (list (string * Param)) :=
  c1 <- Conv2d_init "conv1" 3 32 8 ;;
  c2 <- Conv2d_init "conv2" 32 32 4 ;;
  c3 <- Conv2d_init "conv3" 32 32 4 ;;
  c4 <- Conv2d_init "conv4" 32 32 4 ;;
  ret (c1 ++ c2 ++ c3 ++ c4).

Definition bn_stack_params : list (string * Param) :=
  BatchNorm2d_params "bn1" 32 ++ BatchNorm2d_params "bn2" 32
  ++ BatchNorm2d_params "bn3" 32 ++ BatchNorm2d_params "bn4" 32.

Definition bn_stack_buffers : list (string * Tensor) :=
  BatchNorm2d_buffers "bn1" 32 ++ BatchNorm2d_buffers "bn2" 32
  ++ BatchNorm2d_buffers "bn3" 32 ++ BatchNorm2d_buffers "bn4" 32.

Definition ActorCNN_init (action_dim : Z) (max_action : R) : M Env Module :=
  convs <- conv_stack ;;
  lin1 <- Linear_init "lin1" flat_size 512 ;;
  lin2 <- Linear_init "lin2" 512 action_dim ;;
  ret (mkModule ActorCNN (convs ++ bn_stack_params ++ lin1 ++ lin2)
         bn_stack_buffers true max_action).

Definition CriticCNN_init (action_dim : Z) : M Env Module :=
  convs <- conv_stack ;;
  lin1 <- Linear_init "lin1" flat_size 256 ;;
  lin2 <- Linear_init "lin2" (256 + action_dim) 128 ;;
  lin3 <- Linear_init "lin3" 128 1 ;;
  ret (mkModule CriticCNN (convs ++ bn_stack_params ++ lin1 ++ lin2 ++ lin3)
         bn_stack_buffers true 0).

(** *** State dicts and checkpoint files *)

(** One entry of a module under load_state_dict: the value stored in the
    dict under its name is copied in when it is there with the same
    shape; the entry is left as it is otherwise. *)
Definition loaded (sd : StateDict) (name : string) (old : Tensor) : Tensor :=
  match alist_get name sd with
  | Some t =>
      if shape_eqb (shape t) (shape old)
      then mkTensor (shape old) (data t) []
      else old
  | None => old
  end.

Definition load_entries (sd : StateDict) (m : Module) : Module :=
  mkModule (cls m)
    (map (fun e => (fst e, mkParam (loaded sd (fst e) (pdata (snd e)))
                                   (grad (snd e))))
         (named_parameters m))
    (map (fun e => (fst e, loaded sd (fst e) (snd e))) (named_buffers m))
    (training m) (max_action m).

Definition entry_ok (sd : StateDict) (name : string) (old : Tensor) : bool :=
  match alist_get name sd with
  | Some t => shape_eqb (shape t) (shape old)
  | None => false
  end.

(** The strict check: no key missing, no size mismatch, no unexpected
    key. *)
Definition strict_ok (sd : StateDict) (m : Module) : bool :=
  forallb (fun e => entry_ok sd (fst e) (pdata (snd e))) (named_parameters m)
  && forallb (fun e => entry_ok sd (fst e) (snd e)) (named_buffers m)
  && forallb (fun e => has_key (fst e) (named_parameters m)
                       || has_key (fst e) (named_buffers m)) sd.

(** [self.<who>.load_state_dict(sd)]: the entries that fit are copied, and
    a RuntimeError is raised afterwards when the strict check fails. *)
Definition load_state_dict (who : NetId) (sd : StateDict) : M World unit :=
  m <- read_net who ;;
  write_net who (load_entries sd m) ;;;
  if strict_ok sd m then ret tt else raise RuntimeError.

(** The same on a module that no attribute of the agent names yet. *)
Definition load_state_dict_new (m : Module) (sd : StateDict) : M Env Module :=
  if strict_ok sd m then ret (load_entries sd m) else raise RuntimeError.

Definition torch_save (sd : StateDict) (path : string) : M Env unit :=
  fun e =>
    if writable (disk e) path then
      (Ok tt,
       mkEnv (rng e)
         (mkDisk (fun p => if String.eqb p path then Some sd
                           else files (disk e) p)
                 (writable (disk e)))
         (sample_calls e))
    else (Raise FileNotFoundError, e).

Definition torch_load (path : string) : M Env StateDict :=
  fun e =>
    match files (disk e) path with
    | Some sd => (Ok sd, e)
    | None => (Raise FileNotFoundError, e)
    end.

(** *** DDPG.__init__ *)

Definition DDPG_init (state_dim : list Z) (action_dim : Z) (max_action : R)
    (net_type : string) (critic_chkp : option string) : M Env DDPG :=
  if negb (existsb (String.eqb net_type) ["cnn"; "pid"]) then
    raise AssertionError
  else
    nets <- (if String.eqb net_type "pid" then
               a <- ActorPID_init state_dim action_dim max_action ;;
               t <- ActorPID_init state_dim action_dim max_action ;;
               ret (false, a, t)
             else
               a <- ActorCNN_init action_dim max_action ;;
               t <- ActorCNN_init action_dim max_action ;;
               ret (false, a, t)) ;;
    let flat := fst (fst nets) in
    let actor := snd (fst nets) in
    actor_target <- load_state_dict_new (snd nets) (state_dict actor) ;;
    let actor_optimizer := mkAdam Actor (1 / 10000) [] in
    critic <- CriticCNN_init action_dim ;;
    critic <- match critic_chkp with
              | Some path =>
                  if String.eqb path "" then ret critic
                  else
                    sd <- torch_load path ;;
                    load_state_dict_new critic sd
              | None => ret critic
              end ;;
    critic_target <- CriticCNN_init action_dim ;;
    critic_target <- load_state_dict_new critic_target (state_dict critic) ;;
    let critic_optimizer := mkAdam Critic (1 / 1000) [] in
    ret (mkDDPG state_dim flat actor actor_target actor_optimizer
                critic critic_target critic_optimizer).

(** *** DDPG.predict *)

(** The state handed to the actor (lines 195 to 198). *)
Definition state_tensor (flat : bool) (state : Tensor) : Tensor :=
  if flat then detach (reshape_1_m1 state)
  else detach (expand_dims0 state).

Definition predict (state dist angle : Tensor) (only_pid : bool)
  : M World Tensor :=
  c <- lift (shape0 state) ;;
  if negb (Z.eqb c 3) then raise AssertionError
  else
    let dist := detach dist in
    let angle := detach angle in
    w <- get ;;
    let state := state_tensor (flat (self w)) state in
    out <- call Actor [PTensor state; PTensor dist; PTensor angle;
                       PBool only_pid] ;;
    ret (flatten (detach out)).

(** *** The optimizers and autograd *)

(** [optimizer.zero_grad()]: the gradient of every parameter of the group
    is cleared (set to None, or zeroed in place where it exists, depending
    on the version of torch). *)
Definition cleared (to_none : bool) (p : Param) : Param :=
  mkParam (pdata p)
    (match grad p with
     | None => None
     | Some g => if to_none then None else Some (zeros (shape g))
     end).

Definition zero_grad (o : OptId) : M World unit :=
  w <- get ;;
  let group := param_group (get_optimizer o (self w)) in
  m <- read_net group ;;
  write_net group
    (set_parameters
       (map (fun e => (fst e, cleared (grad_to_none K) (snd e)))
            (named_parameters m))
       m).

(** The gradient [g] accumulated into [p.grad]. *)
Definition accumulate (g : Tensor) (p : Param) : Param :=
  mkParam (pdata p)
    (Some (match grad p with
           | None => detach g
           | Some g0 =>
               mkTensor (shape g0) (fun i => data g0 i + data g i) []
           end)).

Definition add_grad (g : Tensor) (l : Leaf) (a : DDPG) : DDPG :=
  let m := get_net (fst l) a in
  match alist_get (snd l) (named_parameters m) with
  | Some p =>
      set_net (fst l)
        (set_parameters
           (alist_set (snd l) (accumulate g p) (named_parameters m)) m) a
  | None => a
  end.

(** [loss.backward()]: every leaf on the tape of the loss receives its
    gradient, added to what its [grad] holds.  A loss that is not a single
    number, or that does not require grad, is refused. *)
Definition backward (batch : Batch) (loss : Tensor) : M World unit :=
  if negb (Z.eqb (numel (shape loss)) 1) then raise RuntimeError
  else
    match tape loss with
    | [] => raise RuntimeError
    | leaves =>
        modify (fun w =>
          mkWorld
            (fold_left
               (fun a l => add_grad (autograd_grad K (self w) batch loss l) l a)
               leaves (self w))
            (env w))
    end.

Fixpoint alist_put {V} (k : string) (v : V) (l : list (string * V))
  : list (string * V) :=
  match l with
  | [] => [(k, v)]
  | (k', v') :: l' =>
      if String.eqb k k' then (k', v) :: l' else (k', v') :: alist_put k v l'
  end.

(** One pass of Adam over the parameters of its group: a parameter whose
    gradient is None is skipped. *)
Fixpoint adam_pass (rate : R) (st : list (string * AdamSlot))
    (ps : list (string * Param))
  : list (string * AdamSlot) * list (string * Param) :=
  match ps with
  | [] => (st, [])
  | (name, p) :: ps' =>
      match grad p with
      | None =>
          let r := adam_pass rate st ps' in
          (fst r, (name, p) :: snd r)
      | Some g =>
          let u := adam_update K rate (alist_get name st)
                     (detach (pdata p)) (detach g) in
          let r := adam_pass rate (alist_put name (fst u) st) ps' in
          (fst r,
           (name, mkParam (mkTensor (shape (pdata p)) (data (snd u)) [])
                          (grad p)) :: snd r)
      end
  end.

(** [optimizer.step()]. *)
Definition opt_step (o : OptId) : M World unit :=
  w <- get ;;
  let opt := get_optimizer o (self w) in
  m <- read_net (param_group opt) ;;
  let r := adam_pass (lr opt) (adam_state opt) (named_parameters m) in
  write_net (param_group opt) (set_parameters (snd r) m) ;;;
  modify (fun w =>
    mkWorld
      (set_optimizer o (mkAdam (param_group opt) (lr opt) (fst r)) (self w))
      (env w)).

(** *** The soft update of a target network *)

(** [target_param.data.copy_(tau * param.data + (1 - tau) * target_param.data)]
    for one pair of parameters. *)
Definition soft_value (tau : R) (p t : Tensor) : result Tensor :=
  let? v := tadd (smul tau (detach p)) (smul (1 - tau) (detach t)) in
  fit (shape t) v.

(** The loop over [zip(live.parameters(), target.parameters())]: the
    parameters of the target after it, and how it ended.  The pairs before
    a failing one have been written. *)
Fixpoint soft_params (tau : R) (ps ts : list (string * Param))
  : result unit * list (string * Param) :=
  match ps, ts with
  | (_, p) :: ps', (name, t) :: ts' =>
      match soft_value tau (pdata p) (pdata t) with
      | Ok v =>
          let r := soft_params tau ps' ts' in
          (fst r,
           (name, mkParam (mkTensor (shape (pdata t)) (data v) []) (grad t))
             :: snd r)
      | Raise e => (Raise e, ts)
      end
  | _, _ => (Ok tt, ts)
  end.

Definition soft_update (tau : R) (live target : NetId) : M World unit :=
  l <- read_net live ;;
  t <- read_net target ;;
  let r := soft_params tau (named_parameters l) (named_parameters t) in
  write_net target (set_parameters (snd r) t) ;;;
  lift (fst r).

(** *** DDPG.train *)

(** [replay_buffer.sample(batch_size, flat=flat)]. *)
Definition rb_sample (replay_buffer : ReplayBuffer) (batch_size : Z)
    (flat : bool) : M Env Batch :=
  fun e =>
    let calls := (batch_size, flat) :: sample_calls e in
    (replay_buffer calls, mkEnv (rng e) (disk e) calls).

(** Lines 220 to 222: the target Q value.  [done] is [1 - sample["done"]]
    (line 211). *)
Definition bootstrap_target (next_state next_dist next_angle done reward
    : Tensor) (discount : R) : M World Tensor :=
  a <- call ActorTarget
         [PTensor next_state; PTensor next_dist; PTensor next_angle] ;;
  target_Q <- call CriticTarget [PTensor next_state; PTensor a] ;;
  d <- lift (tmul (tmap (fun v => v * discount) done) target_Q) ;;
  lift (tadd reward (detach d)).

(** Lines 230 to 233 and 238 to 241: the gradients of the optimizer's
    parameters are cleared, the loss is back-propagated, the optimizer makes
    one step. *)
Definition optimize (o : OptId) (sample : Batch) (loss : Tensor)
  : M World unit :=
  zero_grad o ;;;
  backward sample loss ;;;
  opt_step o.

(** Lines 224 to 233: the critic loss and one step of its optimizer. *)
Definition critic_update (sample : Batch) (state action target_Q : Tensor)
  : M World unit :=
  current_Q <- call Critic [PTensor state; PTensor action] ;;
  critic_loss <- lift (via (tape_union (tape current_Q) (tape target_Q))
                         (mse_loss K (detach current_Q) (detach target_Q))) ;;
  optimize CriticOptimizer sample critic_loss.

(** Lines 235 to 241: the actor loss and one step of its optimizer. *)
Definition actor_update (sample : Batch) (state dist angle : Tensor)
  : M World unit :=
  a <- call Actor [PTensor state; PTensor dist; PTensor angle] ;;
  q <- call Critic [PTensor state; PTensor a] ;;
  let actor_loss := tneg (retape (tape q) (mean K (detach q))) in
  optimize ActorOptimizer sample actor_loss.

(** Lines 243 to 248: the two soft updates. *)
Definition soft_updates (tau : R) : M World unit :=
  soft_update tau Critic CriticTarget ;;;
  soft_update tau Actor ActorTarget.

(** Lines 208 to 241: the tensors of the batch, the target Q value and the
    two gradient steps. *)
Definition update_networks (sample : Batch) (discount : R) : M World unit :=
  let state := detach (b_state sample) in
  let action := detach (b_action sample) in
  let next_state := detach (b_next_state sample) in
  let done := detach (rsub 1 (b_done sample)) in
  let reward := detach (b_reward sample) in
  let dist := detach (b_dist sample) in
  let angle := detach (b_angle sample) in
  let next_dist := detach (b_next_dist sample) in
  let next_angle := detach (b_next_angle sample) in
  target_Q <- bootstrap_target next_state next_dist next_angle done reward
                discount ;;
  critic_update sample state action target_Q ;;;
  actor_update sample state dist angle.

(** Lines 206 to 241: sampling, then the above. *)
Definition gradient_steps (replay_buffer : ReplayBuffer) (batch_size : Z)
    (discount : R) : M World unit :=
  w <- get ;;
  sample <- liftE (rb_sample replay_buffer batch_size (flat (self w))) ;;
  update_networks sample discount.

(** The body of the loop of train. *)
Definition train_iteration (replay_buffer : ReplayBuffer) (batch_size : Z)
    (discount tau : R) : M World unit :=
  gradient_steps replay_buffer batch_size discount ;;;
  soft_updates tau.

Fixpoint train_loop (n : nat) (replay_buffer : ReplayBuffer)
    (batch_size : Z) (discount tau : R) : M World unit :=
  match n with
  | O => ret tt
  | S n' =>
      train_iteration replay_buffer batch_size discount tau ;;;
      train_loop n' replay_buffer batch_size discount tau
  end.

(** [for it in range(iterations)]. *)
Definition train (replay_buffer : ReplayBuffer) (iterations batch_size : Z)
    (discount tau : R) : M World unit :=
  train_loop (Z.to_nat iterations) replay_buffer batch_size discount tau.

(** *** DDPG.save and DDPG.load *)

Definition actor_path (filename directory : string) : string :=
  (directory ++ "/" ++ filename ++ "_actor.pth")%string.

Definition critic_path (filename directory : string) : string :=
  (directory ++ "/" ++ filename ++ "_critic.pth")%string.

Definition save (filename directory : string) : M World unit :=
  w <- get ;;
  liftE (torch_save (state_dict (actor (self w)))
           (actor_path filename directory)) ;;;
  w <- get ;;
  liftE (torch_save (state_dict (critic (self w)))
           (critic_path filename directory)).

Definition load (filename directory : string) : M World unit :=
  sd <- liftE (torch_load (actor_path filename directory)) ;;
  load_state_dict Actor sd ;;;
  sd <- liftE (torch_load (critic_path filename directory)) ;;
  load_state_dict Critic sd.
End Torch.

(** ** What an operation may write *)

(** The part of a module no method changes: its class, its flags, and the
    names and shapes of its parameters and buffers. *)
Definition mstatic (m : Module) :=
  (cls m, training m, max_action m,
   map (fun e => (fst e, shape (pdata (snd e)))) (named_parameters m),
   map (fun e => (fst e, shape (snd e))) (named_buffers m)).

Definition ostatic (o : Adam) := (param_group o, lr o).

Definition static (a : DDPG) :=
  (state_dim a, flat a,
   (mstatic (actor a), mstatic (actor_target a)),
   (mstatic (critic a), mstatic (critic_target a)),
   (ostatic (actor_optimizer a), ostatic (critic_optimizer a))).

(** The entries of the parameters, of their gradients and of the buffers of
    a module. *)
Definition values (m : Module) :=
  map (fun e => (data (pdata (snd e)), tape (pdata (snd e))))
      (named_parameters m).

Definition grads (m : Module) := map (fun e => grad (snd e)) (named_parameters m).

Definition buffer_values (m : Module) :=
  map (fun e => (data (snd e), tape (snd e))) (named_buffers m).

(** The locations of the state. *)
Inductive Loc : Type :=
| LValues (who : NetId)
| LGrads (who : NetId)
| LBuffers (who : NetId)
| LOpt (o : OptId)
| LRng
| LDisk
| LCalls.

Definition same_at (l : Loc) (w w' : World) : Prop :=
  match l with
  | LValues who =>
      values (get_net who (self w)) = values (get_net who (self w'))
  | LGrads who => grads (get_net who (self w)) = grads (get_net who (self w'))
  | LBuffers who =>
      buffer_values (get_net who (self w))
      = buffer_values (get_net who (self w'))
  | LOpt o =>
      adam_state (get_optimizer o (self w))
      = adam_state (get_optimizer o (self w'))
  | LRng => rng (env w) = rng (env w')
  | LDisk => disk (env w) = disk (env w')
  | LCalls => sample_calls (env w) = sample_calls (env w')
  end.

(** [agree L w w']: from [w] to [w'] nothing was written outside the
    locations [L]. *)
Definition agree (L : list Loc) (w w' : World) : Prop :=
  static (self w) = static (self w') /\ forall l, ~ In l L -> same_at l w w'.

(** Each optimizer holds the parameters of its own network. *)
Definition wired (a : DDPG) : Prop :=
  param_group (actor_optimizer a) = Actor
  /\ param_group (critic_optimizer a) = Critic.

Definition net_of (o : OptId) : NetId :=
  match o with
  | ActorOptimizer => Actor
  | CriticOptimizer => Critic
  end.

(** [spec P L Q m]: started in a state that satisfies [P], the action [m]
    writes inside [L] only (also when it raises), and a value it returns
    satisfies [Q]. *)
Definition spec {A} (P : World -> Prop) (L : list Loc) (Q : A -> Prop)
    (m : M World A) : Prop :=
  forall w r w', P w -> m w = (r, w') ->
    agree L w w' /\ (forall a, r = Ok a -> Q a).

(** The tape of [t] only has leaves of the networks [nets]. *)
Definition tape_within (nets : list NetId) (t : Tensor) : Prop :=
  forall l, In l (tape t) -> In (fst l) nets.

Definition args_within (nets : list NetId) (args : list PyVal) : Prop :=
  forall t, In (PTensor t) args -> tape_within nets t.

Definition Wired (w : World) : Prop := wired (self w).

(** What one iteration of train may write: everything but the checkpoint
    files (and nothing of the targets but their buffers and values). *)
Definition critic_footprint : list Loc :=
  [LBuffers Critic; LRng; LGrads Critic; LValues Critic; LOpt CriticOptimizer].

Definition actor_footprint : list Loc :=
  [LBuffers Actor; LBuffers Critic; LRng; LGrads Actor; LGrads Critic;
   LValues Actor; LOpt ActorOptimizer].

Definition target_footprint : list Loc :=
  [LBuffers ActorTarget; LBuffers CriticTarget; LRng].

Definition gradient_footprint : list Loc :=
  LCalls :: target_footprint ++ critic_footprint ++ actor_footprint.

Definition soft_footprint : list Loc :=
  [LValues CriticTarget; LValues ActorTarget].

Definition train_footprint : list Loc := gradient_footprint ++ soft_footprint.

Definition load_footprint : list Loc :=
  [LValues Actor; LBuffers Actor; LValues Critic; LBuffers Critic].

Definition pshapes (ps : list (string * Param)) :=
  map (fun e => (fst e, shape (pdata (snd e)))) ps.

Definition pvalues (ps : list (string * Param)) :=
  map (fun e => (data (pdata (snd e)), tape (pdata (snd e)))) ps.

Definition pgrads (ps : list (string * Param)) := map (fun e => grad (snd e)) ps.

(** The name, the shape and the entries of every parameter of a module. *)
Definition pweights (ps : list (string * Param))
  : list (string * list Z * (Z -> R)) :=
  map (fun e => (fst e, shape (pdata (snd e)), data (pdata (snd e)))) ps.

Definition weights (m : Module) : list (string * list Z * (Z -> R)) :=
  pweights (named_parameters m).

(** Two modules with the same parameter names and shapes, in the same
    order. *)
Definition same_layout (m t : Module) : Prop :=
  pshapes (named_parameters m) = pshapes (named_parameters t).

(** [soft_mix tau live old new]: every tensor of [new] is, entry by entry,
    [tau] times the tensor of [live] plus [1 - tau] times the tensor of
    [old] at the same place, under the same name and shape. *)
Definition soft_mix (tau : R) (live old new : list (string * list Z * (Z -> R)))
  : Prop :=
  List.length new = List.length old
  /\ forall k name sh d,
       nth_error new k = Some (name, sh, d) ->
       exists dl dt,
         nth_error live k = Some (name, sh, dl)
         /\ nth_error old k = Some (name, sh, dt)
         /\ forall i, d i = tau * dl i + (1 - tau) * dt i.

(** The world once train has sampled a batch of [batch_size]. *)
Definition sampled (batch_size : Z) (w : World) : World :=
  mkWorld (self w)
    (mkEnv (rng (env w)) (disk (env w))
       ((batch_size, flat (self w)) :: sample_calls (env w))).

(** A gradient that zero_grad has cleared. *)
Definition is_cleared (g : option Tensor) : Prop :=
  match g with
  | None => True
  | Some t => forall i, data t i = 0
  end.

(** The name, the shape and the entries of every buffer of a module. *)
Definition bweights (m : Module) : list (string * list Z * (Z -> R)) :=
  map (fun e => (fst e, shape (snd e), data (snd e))) (named_buffers m).

Definition bshapes (m : Module) : list (string * list Z) :=
  map (fun e => (fst e, shape (snd e))) (named_buffers m).

(** The layouts the constructors build. *)
Definition conv_layout (name : string) (cin cout k : Z)
  : list (string * list Z) :=
  [((name ++ ".weight")%string, [cout; cin; k; k]);
   ((name ++ ".bias")%string, [cout])].

Definition linear_layout (name : string) (fin fout : Z)
  : list (string * list Z) :=
  [((name ++ ".weight")%string, [fout; fin]);
   ((name ++ ".bias")%string, [fout])].

Definition conv_stack_layout : list (string * list Z) :=
  conv_layout "conv1" 3 32 8 ++ conv_layout "conv2" 32 32 4
  ++ conv_layout "conv3" 32 32 4 ++ conv_layout "conv4" 32 32 4.

Definition ActorPID_layout (state_dim : list Z) (action_dim : Z)
  : list (string * list Z) :=
  linear_layout "l1" (fold_left Z.mul state_dim 1%Z) 400
  ++ linear_layout "l2" 400 300 ++ linear_layout "l3" 300 action_dim.

Definition ActorCNN_layout (action_dim : Z) : list (string * list Z) :=
  conv_stack_layout ++ pshapes bn_stack_params
  ++ linear_layout "lin1" flat_size 512 ++ linear_layout "lin2" 512 action_dim.

Definition CriticCNN_layout (action_dim : Z) : list (string * list Z) :=
  conv_stack_layout ++ pshapes bn_stack_params
  ++ linear_layout "lin1" flat_size 256
  ++ linear_layout "lin2" (256 + action_dim) 128 ++ linear_layout "lin3" 128 1.

(** No name occurs twice. *)
Fixpoint distinct (l : list string) : bool :=
  match l with
  | [] => true
  | k :: l' => negb (existsb (String.eqb k) l') && distinct l'
  end.

(** A module whose parameters and buffers have the given layouts. *)
Definition laid_out (c : ModuleClass) (ps bs : list (string * list Z))
    (m : Module) : Prop :=
  cls m = c /\ pshapes (named_parameters m) = ps /\ bshapes m = bs.

Definition actor_class (net_type : string) : ModuleClass :=
  if String.eqb net_type "pid" then ActorPID else ActorCNN.

(** What holds of every agent the methods can reach. *)
Definition Inv (net_type : string) (a : DDPG) : Prop :=
  wired a /\ flat a = false
  /\ cls (actor a) = actor_class net_type
  /\ same_layout (actor a) (actor_target a)
  /\ same_layout (critic a) (critic_target a).

(** The states of an agent built with [net_type]: the one __init__ returns,
    and the ones its methods leave, whether they return or raise; the
    environment may change between two calls. *)
Inductive reachable (K : Kernels) (net_type : string) : World -> Prop :=
| reach_init state_dim action_dim max_action critic_chkp e a e' :
    DDPG_init state_dim action_dim max_action net_type critic_chkp e
    = (Ok a, e') ->
    reachable K net_type (mkWorld a e')
| reach_predict w state dist angle only_pid :
    reachable K net_type w ->
    reachable K net_type (snd (predict K state dist angle only_pid w))
| reach_train w rb iterations batch_size discount tau :
    reachable K net_type w ->
    reachable K net_type
      (snd (train K rb iterations batch_size discount tau w))
| reach_save w filename directory :
    reachable K net_type w ->
    reachable K net_type (snd (save filename directory w))
| reach_load w filename directory :
    reachable K net_type w ->
    reachable K net_type (snd (load filename directory w))
| reach_env w e :
    reachable K net_type w -> reachable K net_type (mkWorld (self w) e).

(** What one iteration may write once the batch is sampled. *)
Definition update_footprint : list Loc :=
  target_footprint ++ critic_footprint ++ actor_footprint ++ soft_footprint.

(** The counter of batches a BatchNorm2d layer keeps. *)
Definition num_batches_tracked (name : string) (m : Module) : option Tensor :=
  alist_get (name ++ ".num_batches_tracked")%string (named_buffers m).

(** The counter [n'] is the counter [n] plus one. *)
Definition incremented (n n' : option Tensor) : Prop :=
  match n, n' with
  | Some t, Some t' => shape t' = shape t /\ forall i, data t' i = 1 + data t i
  | _, _ => False
  end.

(** The constructors draw from the generator and leave the files alone. *)
Definition disk_stable {A} (m : M Env A) : Prop :=
  forall e r e', m e = (r, e') -> disk e' = disk e.

(** ** An instance, to run the model *)

(** Kernels that check and produce the shapes torch does, and raise where
    torch refuses the shapes; the entries they produce stand in for torch's
    arithmetic (a convolution and an affine map answer their bias, a
    normalisation answers its input, the gradient of a leaf is a tensor of
    ones), since no statement below depends on them.  The controller answers
    minus the sum of the distance and the angle on every row. *)
Definition conv_out (n k stride : Z) : Z := ((n - k) / stride + 1)%Z.

Definition demo_conv2d (stride : Z) (w b x : Tensor) : result Tensor :=
  match shape x, shape w with
  | [n; c; h; wd], [o; i; kh; kw] =>
      if ((c =? i) && (kh <=? h) && (kw <=? wd) && (0 <? stride))%Z then
        let oh := conv_out h kh stride in
        let ow := conv_out wd kw stride in
        Ok (mkTensor [n; o; oh; ow]
              (fun e => data b ((e / (oh * ow)) mod o)%Z) [])
      else Raise RuntimeError
  | _, _ => Raise RuntimeError
  end.

Definition demo_linear (w b x : Tensor) : result Tensor :=
  match shape x, shape w with
  | [rows; fin], [out; fin'] =>
      if Z.eqb fin fin' then
        Ok (mkTensor [rows; out] (fun i => data b (i mod out)%Z) [])
      else Raise RuntimeError
  | _, _ => Raise RuntimeError
  end.

Definition demo_batch_norm_train (w b rm rv x : Tensor)
  : result (Tensor * Tensor * Tensor) :=
  match shape x, shape w with
  | [n; c; h; wd], [c'] =>
      if (Z.eqb c c' && (1 <? n * h * wd))%Z then Ok (x, rm, rv)
      else Raise RuntimeError
  | _, _ => Raise RuntimeError
  end.

Definition demo_batch_norm_eval (w b rm rv x : Tensor) : result Tensor :=
  match shape x, shape w with
  | [n; c; h; wd], [c'] => if Z.eqb c c' then Ok x else Raise RuntimeError
  | _, _ => Raise RuntimeError
  end.

Definition demo_cat1 (a b : Tensor) : result Tensor :=
  match shape a, shape b with
  | [rows; ca], [rows'; cb] =>
      if Z.eqb rows rows' then
        Ok (mkTensor [rows; (ca + cb)%Z]
              (fun i => if (i mod (ca + cb) <? ca)%Z
                        then data a (i / (ca + cb) * ca + i mod (ca + cb))%Z
                        else data b (i / (ca + cb) * cb
                                     + (i mod (ca + cb) - ca))%Z) [])
      else Raise RuntimeError
  | _, _ => Raise RuntimeError
  end.

(** torch's broadcasting of two shapes, read from the last dimension on:
    two sizes go together when they are equal or one of them is 1, and the
    shorter shape is completed in front. *)
Fixpoint broadcast_rev (a b : list Z) : result (list Z) :=
  match a, b with
  | [], _ => Ok b
  | _, [] => Ok a
  | x :: a', y :: b' =>
      let? r := broadcast_rev a' b' in
      if Z.eqb x y then Ok (x :: r)
      else if Z.eqb x 1 then Ok (y :: r)
      else if Z.eqb y 1 then Ok (x :: r)
      else Raise RuntimeError
  end.

Definition demo_broadcast_shapes (a b : list Z) : result (list Z) :=
  let? r := broadcast_rev (rev a) (rev b) in Ok (rev r).

(** Whether a tensor of shape [sh] expands to the shape [s], and the flat
    index in the tensor of the entry that the expanded tensor has at the
    flat index [i] (both shapes read from the last dimension on; a
    dimension of size 1 is repeated). *)
Fixpoint expands_rev (s sh : list Z) : bool :=
  match sh, s with
  | [], _ => true
  | m :: sh', n :: s' => (Z.eqb m n || Z.eqb m 1) && expands_rev s' sh'
  | _ :: _, [] => false
  end.

Fixpoint source_index (s sh : list Z) (i stride : Z) : Z :=
  match sh, s with
  | m :: sh', n :: s' =>
      ((if Z.eqb m 1 then 0 else (i mod n) * stride)
       + source_index s' sh' (i / n) (stride * m))%Z
  | _, _ => 0%Z
  end.

Definition demo_broadcast_to (s : list Z) (t : Tensor) : result Tensor :=
  if expands_rev (rev s) (rev (shape t)) then
    Ok (mkTensor s
          (fun i => data t (source_index (rev s) (rev (shape t)) i 1)) [])
  else Raise RuntimeError.

(** F.mse_loss broadcasts its two arguments (with a warning when their
    sizes differ). *)
Definition demo_mse_loss (a b : Tensor) : result Tensor :=
  match demo_broadcast_shapes (shape a) (shape b) with
  | Ok _ =>
      Ok (mkTensor []
            (fun _ => (data a 0%Z - data b 0%Z) * (data a 0%Z - data b 0%Z))
            [])
  | Raise e => Raise e
  end.

Definition demo_adam_update (rate : R) (slot : option AdamSlot) (p g : Tensor)
  : AdamSlot * Tensor :=
  (mkAdamSlot (1 + match slot with Some s => step_count s | None => 0 end)%Z
     g g,
   mkTensor (shape p) (fun i => data p i - rate * data g 0%Z) []).

Definition demo_kernels : Kernels := {|
  conv2d := demo_conv2d;
  linear := demo_linear;
  batch_norm_train := demo_batch_norm_train;
  batch_norm_eval := demo_batch_norm_eval;
  cat1 := demo_cat1;
  mean := fun t => mkTensor [] (fun _ => data t 0%Z) [];
  mse_loss := demo_mse_loss;
  broadcast_shapes := demo_broadcast_shapes;
  broadcast_to := demo_broadcast_to;
  angle_control_commands := fun d a v =>
    Ok (mkTensor (shape v) (fun i => - data d i - data a i) []);
  autograd_grad := fun _ _ _ _ => ones [];
  adam_update := demo_adam_update;
  grad_to_none := true
|}.

Definition demo_env : Env :=
  mkEnv (mkRng (fun i => IZR i / 100) 0%Z)
        (mkDisk (fun _ => None) (fun _ => true)) [].

(** An observation of 3 channels, 120 rows and 160 columns (the size for
    which the convolutions leave 32 * 9 * 14 features), and a batch of two
    transitions. *)
Definition demo_state : Tensor := mkTensor [3; 120; 160]%Z (fun _ => 1) [].
Definition demo_dist : Tensor := mkTensor [1%Z] (fun _ => 1 / 10) [].
Definition demo_angle : Tensor := mkTensor [1%Z] (fun _ => 1 / 5) [].

Definition demo_batch : Batch := {|
  b_state := mkTensor [2; 3; 120; 160]%Z (fun _ => 1) [];
  b_action := mkTensor [2; 2]%Z (fun _ => 1 / 2) [];
  b_next_state := mkTensor [2; 3; 120; 160]%Z (fun _ => 1) [];
  b_done := mkTensor [2; 1]%Z (fun i => if Z.eqb i 0 then 0 else 1) [];
  b_reward := mkTensor [2; 1]%Z (fun _ => 1) [];
  b_dist := mkTensor [2; 1]%Z (fun _ => 1 / 10) [];
  b_angle := mkTensor [2; 1]%Z (fun _ => 1 / 5) [];
  b_next_dist := mkTensor [2; 1]%Z (fun _ => 1 / 10) [];
  b_next_angle := mkTensor [2; 1]%Z (fun _ => 1 / 5) []
|}.

Definition demo_buffer : ReplayBuffer := fun _ => Ok demo_batch.

(** The same batch with the rewards as a vector of shape (2,) and not as a
    column of shape (2, 1), as a replay buffer that stores one number per
    transition returns them. *)
Definition demo_batch_flat : Batch := {|
  b_state := b_state demo_batch;
  b_action := b_action demo_batch;
  b_next_state := b_next_state demo_batch;
  b_done := b_done demo_batch;
  b_reward := mkTensor [2%Z] (fun i => if Z.eqb i 0 then 1 else 3) [];
  b_dist := b_dist demo_batch;
  b_angle := b_angle demo_batch;
  b_next_dist := b_next_dist demo_batch;
  b_next_angle := b_next_angle demo_batch
|}.

Definition demo_buffer_flat : ReplayBuffer := fun _ => Ok demo_batch_flat.

(** The agent [DDPG((3, 120, 160), 2, 1.0, net_type)] built in [demo_env]; the
    placeholder agent is never taken, since the construction succeeds. *)
Definition blank_module : Module := mkModule ActorPID [] [] true 0.

Definition blank_agent : DDPG :=
  mkDDPG [] false blank_module blank_module (mkAdam Actor 0 [])
         blank_module blank_module (mkAdam Critic 0 []).

Definition world_of (r : result DDPG * Env) : World :=
  match r with
  | (Ok a, e) => mkWorld a e
  | (Raise _, e) => mkWorld blank_agent e
  end.

Definition demo_world (net_type : string) : World :=
  world_of (DDPG_init [3; 120; 160]%Z 2 1 net_type None demo_env).

Definition value_of (r : result Tensor * World) : Tensor :=
  match fst r with
  | Ok t => t
  | Raise _ => zeros []
  end.

(** The kernels [K] with another controller. *)
Definition with_controller (K : Kernels)
    (c : Tensor -> Tensor -> Tensor -> result Tensor) : Kernels :=
  mkKernels (conv2d K) (linear K) (batch_norm_train K) (batch_norm_eval K)
    (cat1 K) (mean K) (mse_loss K) (broadcast_shapes K) (broadcast_to K)
    c (autograd_grad K) (adam_update K) (grad_to_none K).

(** A controller that answers the same number on every row. *)
Definition constant_controller (v : R) (_ _ throttle : Tensor)
  : result Tensor :=
  Ok (mkTensor (shape throttle) (fun _ => v) []).

(** Modelled from the spec: Controller.angle_control_commands of
    controller.py, which is not among the sources.  The spec has the heading
    controller as an opaque pure function from the lateral distance, the
    heading angle and the forward speed to a steering correction, and says
    nothing of its values; this one corrects nothing. *)
Definition still_controller : Tensor -> Tensor -> Tensor -> result Tensor :=
  constant_controller 0.

(** The agent [DDPG((3, 120, 160), 2, 0.1, "cnn")] built in [demo_env]. *)
Definition demo_world_tenth : World :=
  world_of (DDPG_init [3; 120; 160]%Z 2 (1 / 10) "cnn" None demo_env).

(** The observation predict hands to the actor for [demo_state], and the
    run of the visual policy on it in full mode. *)
Definition demo_obs : Tensor := state_tensor false demo_state.

Abbreviation demo_forward :=
  (ActorCNN_forward demo_kernels Actor demo_obs demo_dist demo_angle false
     (demo_world "cnn")).

(** The same run on the agent with max_action = 0.1, with the output of
    [lin2] in it, and the run on the demo agent with the controller that
    corrects nothing. *)
Abbreviation demo_forward_tenth :=
  (ActorCNN_forward demo_kernels Actor demo_obs demo_dist demo_angle false
     demo_world_tenth).

Abbreviation demo_trunk_tenth :=
  (ActorCNN_trunk demo_kernels Actor demo_obs demo_world_tenth).

Abbreviation demo_forward_still :=
  (ActorCNN_forward (with_controller demo_kernels still_controller) Actor
     demo_obs demo_dist demo_angle false (demo_world "cnn")).

Definition succeeded {A S} (r : result A * S) : bool :=
  match fst r with
  | Ok _ => true
  | Raise _ => false
  end.

(** One iteration of train on the demo agent, with the batch size 2, the
    discount 0.99 and the soft update rate 0.001. *)
Abbreviation demo_iteration :=
  (train_iteration demo_kernels demo_buffer 2 (99 / 100) (1 / 1000)
     (demo_world "cnn")).

(** One iteration on the batch with the vector of rewards, and the steps
    of its target Q value: the action of actor_target, the value of
    critic_target for it, and the target. *)
Abbreviation demo_iteration_flat :=
  (train_iteration demo_kernels demo_buffer_flat 2 (99 / 100) (1 / 1000)
     (demo_world "cnn")).

Abbreviation demo_flat_action :=
  (call demo_kernels ActorTarget
     [PTensor (detach (b_next_state demo_batch_flat));
      PTensor (detach (b_next_dist demo_batch_flat));
      PTensor (detach (b_next_angle demo_batch_flat))]
     (sampled 2 (demo_world "cnn"))).

Abbreviation demo_flat_value :=
  (call demo_kernels CriticTarget
     [PTensor (detach (b_next_state demo_batch_flat));
      PTensor (value_of demo_flat_action)] (snd demo_flat_action)).

Abbreviation demo_flat_target :=
  (bootstrap_target demo_kernels (detach (b_next_state demo_batch_flat))
     (detach (b_next_dist demo_batch_flat))
     (detach (b_next_angle demo_batch_flat))
     (detach (rsub 1 (b_done demo_batch_flat)))
     (detach (b_reward demo_batch_flat)) (99 / 100)
     (sampled 2 (demo_world "cnn"))).

(** The environment once the demo agent has saved itself, and an agent
    built there from the saved critic. *)
Definition demo_saved_env : Env :=
  env (snd (save "ddpg" "models" (demo_world "cnn"))).

Abbreviation demo_init_chkp :=
  (DDPG_init [3; 120; 160]%Z 2 1 "cnn" (Some "models/ddpg_critic.pth")
     demo_saved_env).

(** A call of predict in full mode on the demo agent; the demo agent saving
    itself, and loading what it saved. *)
Abbreviation demo_predict :=
  (predict demo_kernels demo_state demo_dist demo_angle false
     (demo_world "cnn")).

Abbreviation demo_save := (save "ddpg" "models" (demo_world "cnn")).

Abbreviation demo_load := (load "ddpg" "models" (snd demo_save)).

(** The entry of index 0 of the buffer at place [k] of a module. *)
Definition buffer_entry (k : nat) (l : list ((Z -> R) * list Leaf)) : R :=
  match nth_error l k with
  | Some (d, _) => d 0%Z
  | None => 0
  end.

(** Two names given letter by letter differ. *)
Ltac names_differ :=
  let H := fresh "H" in intro H; vm_compute in H; discriminate H.

(** ** What the properties of __init__ and of the methods are stated with *)

(** ** Outcomes of a computation *)

(** [returns Q m]: from every state [m] returns, with a value that
    satisfies [Q]. *)
Definition returns {S A} (Q : A -> Prop) (m : M S A) : Prop :=
  forall s, exists a s', m s = (Ok a, s') /\ Q a.

(** [raises_only x m]: the only exception [m] raises is [x]. *)
Definition raises_only {S A} (x : Exc) (m : M S A) : Prop :=
  forall s e s', m s = (Raise e, s') -> e = x.

(** The arguments with which the constructors of the layers do not refuse a
    dimension: [action_dim] is not negative, and for ActorPID the product of
    [state_dim] is not negative. *)
Definition valid_dims (state_dim : list Z) (action_dim : Z)
    (net_type : string) : Prop :=
  (0 <= action_dim)%Z
  /\ (net_type = "pid" -> (0 <= fold_left Z.mul state_dim 1)%Z).

(** The names and shapes of the buffers of the four BatchNorm2d layers. *)
Definition bn_layout : list (string * list Z) :=
  map (fun e => (fst e, shape (snd e))) bn_stack_buffers.

(** The layout of the actor that __init__ builds for [net_type]. *)
Definition actor_layout (net_type : string) (state_dim : list Z)
    (action_dim : Z) : list (string * list Z) :=
  if String.eqb net_type "pid" then ActorPID_layout state_dim action_dim
  else ActorCNN_layout action_dim.

Definition actor_buffers (net_type : string) : list (string * list Z) :=
  if String.eqb net_type "pid" then [] else bn_layout.

(** The part of an agent that no method changes, as __init__ sets it from
    its arguments: every network in training mode, the learning rates 1e-4
    and 1e-3. *)
Definition static_of (state_dim : list Z) (action_dim : Z) (max_action : R)
    (net_type : string) :=
  let a := (actor_class net_type, true, max_action,
            actor_layout net_type state_dim action_dim,
            actor_buffers net_type) in
  let c := (CriticCNN, true, 0, CriticCNN_layout action_dim, bn_layout) in
  (state_dim, false, (a, a), (c, c),
   ((Actor, 1 / 10000), (Critic, 1 / 1000))).

(** A state dict that passes the strict check of a module with the
    parameters [ps] and the buffers [bs]. *)
Definition layout_entry_ok (sd : StateDict) (e : string * list Z) : bool :=
  match alist_get (fst e) sd with
  | Some t => shape_eqb (shape t) (snd e)
  | None => false
  end.

Definition fits_layout (sd : StateDict) (ps bs : list (string * list Z))
  : bool :=
  forallb (layout_entry_ok sd) ps
  && forallb (layout_entry_ok sd) bs
  && forallb (fun e => has_key (fst e) ps || has_key (fst e) bs) sd.

(** No parameter of the module has a gradient ([p.grad is None]). *)
Definition no_grads (m : Module) : bool :=
  forallb (fun e => match grad (snd e) with None => true | Some _ => false end)
    (named_parameters m).

(** The static part of the actor and of the critic that __init__ builds. *)
Definition actor_static (state_dim : list Z) (action_dim : Z) (max_action : R)
    (net_type : string) :=
  (actor_class net_type, true, max_action,
   actor_layout net_type state_dim action_dim, actor_buffers net_type).

Definition critic_static (action_dim : Z) :=
  (CriticCNN, true, 0, CriticCNN_layout action_dim, bn_layout).

(** Lines 179 to 186 of __init__, from the critic on: the critic after the
    optional checkpoint, its target, and the agent. *)
Definition init_critics (state_dim : list Z) (action_dim : Z)
    (critic_chkp : option string) (actor actor_target critic : Module)
  : M Env DDPG :=
  critic <- match critic_chkp with
            | Some path =>
                if String.eqb path "" then ret critic
                else
                  sd <- torch_load path ;;
                  load_state_dict_new critic sd
            | None => ret critic
            end ;;
  critic_target <- CriticCNN_init action_dim ;;
  critic_target <- load_state_dict_new critic_target (state_dict critic) ;;
  ret (mkDDPG state_dim false actor actor_target (mkAdam Actor (1 / 10000) [])
         critic critic_target (mkAdam Critic (1 / 1000) [])).

(** What torch's broadcasting does to a tensor whose entries are all the
    same number: the expanded tensor has that number everywhere. *)
Definition expands_constants (K : Kernels) : Prop :=
  forall s sh c t,
    broadcast_to K s (mkTensor sh (fun _ => c) []) = Ok t ->
    forall i, data t i = c.

(** A call of predict in control-only mode on the demo agent. *)
Abbreviation demo_predict_pid :=
  (predict demo_kernels demo_state demo_dist demo_angle true
     (demo_world "cnn")).

(** The control-only forward pass of ActorPID on a batch of two. *)
Abbreviation demo_pid_forward :=
  (ActorPID_forward demo_kernels Actor (b_state demo_batch)
     (b_dist demo_batch) (b_angle demo_batch) (demo_world "pid")).

(** The agent after load has read the file of the actor. *)
Definition actor_loaded (sda : StateDict) (w : World) : World :=
  mkWorld (set_net Actor (load_entries sda (actor (self w))) (self w)) (env w).

(** The demo agent where only the file of the actor has been written. *)
Definition demo_half_saved : World :=
  mkWorld (self (demo_world "cnn"))
    (snd (torch_save (state_dict (actor (self (demo_world "cnn"))))
            "models/ddpg_actor.pth" demo_env)).

(** ** Scalars, shapes, dictionaries *)

Lemma sigm_range (x : R) : 0 < sigm x < 1.
Proof.
  unfold sigm.
  pose proof (exp_pos (- x)) as He.
  set (e := exp (- x)) in *.
  assert (Hq : 1 / (1 + e) * (1 + e) = 1) by (field; lra).
  assert (Hp : 0 < 1 / (1 + e)) by (apply Rdiv_lt_0_compat; lra).
  split; [exact Hp | nra].
Qed.

Lemma tanh_range (x : R) : -1 < tanh x < 1.
Proof.
  unfold tanh, sinh, cosh.
  pose proof (exp_pos x) as Ha.
  pose proof (exp_pos (- x)) as Hb.
  set (a := exp x) in *. set (b := exp (- x)) in *.
  assert (Hq : (a - b) / 2 / ((a + b) / 2) * (a + b) = a - b) by (field; lra).
  split; nra.
Qed.

Lemma shape_eqb_eq (s t : list Z) : shape_eqb s t = true <-> s = t.
Proof.
  revert t. induction s as [|a s IH]; intros [|b t]; simpl; split; intro H;
    try reflexivity; try discriminate.
  - apply andb_true_iff in H. destruct H as [H1 H2].
    apply Z.eqb_eq in H1. apply IH in H2. congruence.
  - injection H as -> ->. rewrite Z.eqb_refl. simpl. apply IH. reflexivity.
Qed.

Lemma shape_eqb_refl (s : list Z) : shape_eqb s s = true.
Proof. apply shape_eqb_eq. reflexivity. Qed.

Section AlistFacts.
Context {V : Type}.
Implicit Types (k : string) (v : V) (l : list (string * V)).

Lemma alist_get_set_same k v l :
  has_key k l = true -> alist_get k (alist_set k v l) = Some v.
Proof.
  unfold has_key. induction l as [|[k' v'] l IH]; simpl; [discriminate|].
  destruct (String.eqb k k') eqn:E; simpl; rewrite E; [reflexivity|exact IH].
Qed.

Lemma alist_get_set_other k k' v l :
  k <> k' -> alist_get k' (alist_set k v l) = alist_get k' l.
Proof.
  intro Hne. induction l as [|[k0 v0] l IH]; simpl; [reflexivity|].
  destruct (String.eqb k k0) eqn:E; simpl.
  - apply String.eqb_eq in E. subst k0.
    destruct (String.eqb k' k) eqn:E'; [|reflexivity].
    apply String.eqb_eq in E'. congruence.
  - destruct (String.eqb k' k0); [reflexivity|exact IH].
Qed.
End AlistFacts.

(** ** Powers of two *)

Lemma pow2_pos e : 0 < powerRZ 2 e.
Proof. apply powerRZ_lt. lra. Qed.

Lemma pow2_add a b : powerRZ 2 (a + b) = powerRZ 2 a * powerRZ 2 b.
Proof. apply powerRZ_add. lra. Qed.

Lemma pow2_opp a : powerRZ 2 (- a) * powerRZ 2 a = 1.
Proof.
  rewrite <- pow2_add. replace (- a + a)%Z with 0%Z by lia. reflexivity.
Qed.

Lemma pow2_IZR k : (0 <= k)%Z -> powerRZ 2 k = IZR (2 ^ k).
Proof.
  intro Hk. rewrite <- (Z2Nat.id k Hk) at 1 2.
  rewrite <- pow_powerRZ. apply pow_IZR.
Qed.

Lemma pow2_ge_1 k : (0 <= k)%Z -> 1 <= powerRZ 2 k.
Proof.
  intro Hk. rewrite (pow2_IZR k Hk). apply IZR_le.
  pose proof (Z.pow_pos_nonneg 2 k). lia.
Qed.

Lemma pow2_le a b : (a <= b)%Z -> powerRZ 2 a <= powerRZ 2 b.
Proof.
  intro H. replace b with (a + (b - a))%Z by lia. rewrite pow2_add.
  pose proof (pow2_pos a). pose proof (pow2_ge_1 (b - a) ltac:(lia)). nra.
Qed.

(** ** The nearest integer *)

Lemma rint_near x : Rabs (IZR (rint x) - x) <= 1 / 2.
Proof.
  unfold rint. pose proof (Zfloor_bound x) as [Hl Hu].
  destruct (Rlt_dec _ _) as [H1|H1];
    [|destruct (Rlt_dec _ _) as [H2|H2]; [|destruct (Z.even _)]];
    rewrite ?plus_IZR; unfold Rabs; destruct (Rcase_abs _); lra.
Qed.

Lemma rint_nearest x k : Rabs (IZR (rint x) - x) <= Rabs (IZR k - x).
Proof.
  pose proof (rint_near x) as Hn.
  destruct (Z.eq_dec k (rint x)) as [->|Hne]; [lra|].
  assert (Hk : IZR k <= IZR (rint x) - 1 \/ IZR (rint x) + 1 <= IZR k).
  { destruct (Z_lt_le_dec k (rint x)) as [Hlt|Hge].
    - left. rewrite <- minus_IZR. apply IZR_le. lia.
    - right. rewrite <- plus_IZR. apply IZR_le. lia. }
  revert Hn. unfold Rabs.
  destruct (Rcase_abs _), (Rcase_abs _); lra.
Qed.

Lemma rint_unique x k : Rabs (IZR k - x) < 1 / 2 -> rint x = k.
Proof.
  intro H. pose proof (rint_near x) as Hn.
  assert (Hd : (rint x - k)%Z = 0%Z).
  { apply one_IZR_lt1. rewrite minus_IZR. revert H Hn. unfold Rabs.
    destruct (Rcase_abs _), (Rcase_abs _); lra. }
  lia.
Qed.

Lemma rint_IZR k : rint (IZR k) = k.
Proof.
  apply rint_unique. replace (IZR k - IZR k) with 0 by ring.
  rewrite Rabs_R0. lra.
Qed.

(** ** The exponent of the last place *)

Lemma ulp_exponent_spec n e0 x :
  (e0 <= ulp_exponent n e0 x <= e0 + Z.of_nat n)%Z
  /\ ((ulp_exponent n e0 x < e0 + Z.of_nat n)%Z ->
      Rabs x < powerRZ 2 (ulp_exponent n e0 x + 24))
  /\ ((e0 < ulp_exponent n e0 x)%Z ->
      powerRZ 2 (ulp_exponent n e0 x + 23) <= Rabs x).
Proof.
  revert e0. induction n as [|n IH]; intro e0.
  - cbn [ulp_exponent]. split; [lia|]. split; intro; lia.
  - cbn [ulp_exponent]. destruct (Rlt_dec _ _) as [Hlt|Hge].
    + split; [lia|]. split; [intros _; exact Hlt | intro; lia].
    + destruct (IH (e0 + 1)%Z) as (Hr & Hu & Hl).
      split; [lia|]. split; [intro H; apply Hu; lia|].
      intros _. destruct (Z.eq_dec (ulp_exponent n (e0 + 1) x) (e0 + 1))
        as [E|Hne].
      * rewrite E. replace (e0 + 1 + 23)%Z with (e0 + 24)%Z by lia. lra.
      * apply Hl. lia.
Qed.

Lemma exponent32_spec x :
  (-149 <= exponent32 x <= 104)%Z
  /\ ((exponent32 x < 104)%Z -> Rabs x < powerRZ 2 (exponent32 x + 24))
  /\ ((-149 < exponent32 x)%Z -> powerRZ 2 (exponent32 x + 23) <= Rabs x).
Proof.
  unfold exponent32.
  destruct (ulp_exponent_spec 253 (-149) x) as (Hr & Hu & Hl).
  change (Z.of_nat 253) with 253%Z in Hr, Hu.
  split; [lia|]. split; [intro H; apply Hu; lia | exact Hl].
Qed.

Lemma exponent32_eq x e :
  (-149 <= e <= 104)%Z ->
  (e = (-149)%Z \/ powerRZ 2 (e + 23) <= Rabs x) ->
  Rabs x < powerRZ 2 (e + 24) ->
  exponent32 x = e.
Proof.
  intros He Hl Hu. destruct (exponent32_spec x) as (Hr & Hu' & Hl').
  destruct (Z_lt_le_dec (exponent32 x) e) as [H1|H1].
  - assert (Hx : powerRZ 2 (e + 23) <= Rabs x) by (destruct Hl; [lia|assumption]).
    pose proof (pow2_le (exponent32 x + 24) (e + 23)).
    assert (Rabs x < powerRZ 2 (exponent32 x + 24)) by (apply Hu'; lia).
    assert (powerRZ 2 (exponent32 x + 24) <= powerRZ 2 (e + 23))
      by (apply pow2_le; lia).
    lra.
  - destruct (Z.eq_dec (exponent32 x) e) as [E|Hne]; [exact E|].
    assert (powerRZ 2 (exponent32 x + 23) <= Rabs x) by (apply Hl'; lia).
    assert (powerRZ 2 (e + 24) <= powerRZ 2 (exponent32 x + 23))
      by (apply pow2_le; lia).
    lra.
Qed.

(** ** Rounding *)

Lemma round32_eq x e n :
  (-149 <= e <= 104)%Z ->
  (e = (-149)%Z \/ powerRZ 2 (e + 23) <= Rabs x) ->
  Rabs x < powerRZ 2 (e + 24) ->
  Rabs (IZR n - x * powerRZ 2 (- e)) < 1 / 2 ->
  round32 x = IZR n * powerRZ 2 e.
Proof.
  intros He Hl Hu Hn. unfold round32.
  rewrite (exponent32_eq x e He Hl Hu). rewrite (rint_unique _ n Hn).
  reflexivity.
Qed.

Lemma scaled_abs x e : Rabs (x * powerRZ 2 e) = Rabs x * powerRZ 2 e.
Proof.
  rewrite Rabs_mult. rewrite (Rabs_pos_eq (powerRZ 2 e)); [reflexivity|].
  apply Rlt_le, pow2_pos.
Qed.

(** The distance of [x] to a point of the grid of its last place. *)
Lemma grid_distance x e k :
  Rabs (IZR k * powerRZ 2 e - x)
  = Rabs (IZR k - x * powerRZ 2 (- e)) * powerRZ 2 e.
Proof.
  rewrite <- scaled_abs. f_equal.
  rewrite Rmult_minus_distr_r, Rmult_assoc, pow2_opp. ring.
Qed.

Lemma round32_grid x k :
  Rabs (round32 x - x) <= Rabs (IZR k * powerRZ 2 (exponent32 x) - x).
Proof.
  unfold round32. rewrite !grid_distance.
  apply Rmult_le_compat_r; [apply Rlt_le, pow2_pos | apply rint_nearest].
Qed.

Lemma pow2_23 : powerRZ 2 23 = 8388608.
Proof. rewrite pow2_IZR by lia. reflexivity. Qed.

Lemma pow2_24 : powerRZ 2 24 = 16777216.
Proof. rewrite pow2_IZR by lia. reflexivity. Qed.

Lemma scaled_lt x e c :
  Rabs x < c * powerRZ 2 e -> Rabs (x * powerRZ 2 (- e)) < c.
Proof.
  intro H. rewrite scaled_abs.
  pose proof (pow2_pos (- e)) as Hq. pose proof (pow2_opp e) as Hpq.
  assert (Hd : 0 < (c * powerRZ 2 e - Rabs x) * powerRZ 2 (- e))
    by (apply Rmult_lt_0_compat; lra).
  replace ((c * powerRZ 2 e - Rabs x) * powerRZ 2 (- e))
    with (c * (powerRZ 2 (- e) * powerRZ 2 e) - Rabs x * powerRZ 2 (- e))
    in Hd by ring.
  rewrite Hpq in Hd. lra.
Qed.

Lemma IZR_abs_lt n c : Rabs (IZR n) < IZR c -> (Z.abs n < c)%Z.
Proof.
  intro H. rewrite <- abs_IZR in H. apply lt_IZR. exact H.
Qed.

(** What rounding returns is a float32 number, below the overflow. *)
Lemma round32_float x : Rabs x < overflow32 -> float32 (round32 x).
Proof.
  intro Hx. unfold round32.
  destruct (exponent32_spec x) as (Hr & Hu & _).
  set (e := exponent32 x) in *.
  set (y := x * powerRZ 2 (- e)).
  pose proof (rint_near y) as Hn.
  assert (Hy : e = 104%Z /\ Rabs y < 16777216 - 1 / 2
               \/ (e < 104)%Z /\ Rabs y < 16777216).
  { destruct (Z.eq_dec e 104) as [E|Hne].
    - left. split; [exact E|]. apply scaled_lt. rewrite E. exact Hx.
    - right. split; [lia|]. apply scaled_lt. rewrite <- pow2_24, <- pow2_add.
      replace (24 + e)%Z with (e + 24)%Z by lia. apply Hu. lia. }
  assert (Hb : Rabs (IZR (rint y)) <= Rabs y + 1 / 2).
  { revert Hn. unfold Rabs.
    destruct (Rcase_abs _), (Rcase_abs _), (Rcase_abs _); lra. }
  destruct Hy as [[E Hy]|[E Hy]].
  - exists (rint y), e. split; [|split; [lia|reflexivity]].
    apply IZR_abs_lt. lra.
  - assert (Hz : (Z.abs (rint y) < 16777217)%Z) by (apply IZR_abs_lt; lra).
    destruct (Z_lt_le_dec (Z.abs (rint y)) 16777216) as [Hlt|Hge].
    + exists (rint y), e. split; [exact Hlt|]. split; [lia|reflexivity].
    + exists (rint y / 2)%Z, (e + 1)%Z.
      assert (Hm : rint y = 16777216%Z \/ rint y = (-16777216)%Z) by lia.
      split; [destruct Hm as [-> | ->]; reflexivity|]. split; [lia|].
      rewrite pow2_add. change (powerRZ 2 1) with (2 * 1).
      destruct Hm as [-> | ->].
      * change (16777216 / 2)%Z with 8388608%Z. lra.
      * change (-16777216 / 2)%Z with (-8388608)%Z. lra.
Qed.

(** Rounding is to a nearest float32 number. *)
Lemma round32_nearest x z :
  float32 z -> Rabs (round32 x - x) <= Rabs (z - x).
Proof.
  intros (m & e' & Hm & He' & ->).
  destruct (exponent32_spec x) as (Hr & _ & Hl).
  destruct (Z_le_gt_dec (exponent32 x) e') as [Hle|Hgt].
  - replace (IZR m * powerRZ 2 e')
      with (IZR (m * 2 ^ (e' - exponent32 x)) * powerRZ 2 (exponent32 x)).
    + apply round32_grid.
    + rewrite mult_IZR, <- pow2_IZR by lia. rewrite Rmult_assoc, <- pow2_add.
      replace (e' - exponent32 x + exponent32 x)%Z with e' by lia.
      reflexivity.
  - assert (Hx : powerRZ 2 (exponent32 x + 23) <= Rabs x) by (apply Hl; lia).
    assert (Hz : Rabs (IZR m * powerRZ 2 e') <= powerRZ 2 (exponent32 x + 23)).
    { rewrite scaled_abs.
      apply Rle_trans with (powerRZ 2 (e' + 24)); [|apply pow2_le; lia].
      rewrite Z.add_comm, pow2_add, pow2_24.
      apply Rmult_le_compat_r; [apply Rlt_le, pow2_pos|].
      rewrite <- abs_IZR. apply IZR_le. lia. }
    pose proof (Rabs_triang_inv x (IZR m * powerRZ 2 e')) as Ht.
    rewrite (Rabs_minus_sym x) in Ht.
    assert (Hg : Rabs (round32 x - x)
                 <= Rabs x - powerRZ 2 (exponent32 x + 23)); [|lra].
    rewrite Z.add_comm, pow2_add, pow2_23 in Hx |- *.
    destruct (Rle_dec 0 x) as [Hp|Hp].
    + pose proof (round32_grid x 8388608) as Hg.
      rewrite (Rabs_pos_eq x Hp) in Hx |- *.
      assert (E : Rabs (8388608 * powerRZ 2 (exponent32 x) - x)
                  = x - 8388608 * powerRZ 2 (exponent32 x))
        by (rewrite Rabs_minus_sym; apply Rabs_pos_eq; lra).
      rewrite E in Hg. exact Hg.
    + pose proof (round32_grid x (-8388608)) as Hg.
      rewrite (Rabs_left x) in Hx |- * by lra.
      assert (E : Rabs (-8388608 * powerRZ 2 (exponent32 x) - x)
                  = - x - 8388608 * powerRZ 2 (exponent32 x))
        by (rewrite Rabs_pos_eq; lra).
      rewrite E in Hg. exact Hg.
Qed.

Lemma round32_id f : float32 f -> round32 f = f.
Proof.
  intro Hf. pose proof (round32_nearest f f Hf) as H.
  replace (f - f) with 0 in H by ring. rewrite Rabs_R0 in H.
  pose proof (Rabs_pos (round32 f - f)) as Hp.
  assert (E : Rabs (round32 f - f) = 0) by lra. revert E. unfold Rabs.
  destruct (Rcase_abs _); lra.
Qed.

Lemma round32_le x y :
  Rabs x < overflow32 -> Rabs y < overflow32 -> x <= y ->
  round32 x <= round32 y.
Proof.
  intros Hx Hy Hxy.
  pose proof (round32_nearest x (round32 y) (round32_float y Hy)) as H1.
  pose proof (round32_nearest y (round32 x) (round32_float x Hx)) as H2.
  destruct (Rle_dec (round32 x) (round32 y)) as [H|H]; [exact H|].
  assert (E : x = y).
  { revert H1 H2. unfold Rabs.
    destruct (Rcase_abs _), (Rcase_abs _), (Rcase_abs _), (Rcase_abs _); lra. }
  rewrite E. lra.
Qed.

Lemma float32_le_max f :
  float32 f -> Rabs f <= 16777215 * powerRZ 2 104.
Proof.
  intros (m & e & Hm & He & ->). rewrite scaled_abs.
  pose proof (pow2_pos e). pose proof (pow2_le e 104 ltac:(lia)).
  assert (Ha : 0 <= Rabs (IZR m) <= 16777215).
  { split; [apply Rabs_pos|]. rewrite <- abs_IZR. apply IZR_le. lia. }
  nra.
Qed.

Lemma pow2_104_gt_1 : 1 < powerRZ 2 104.
Proof.
  pose proof (pow2_le 1 104 ltac:(lia)) as H.
  change (powerRZ 2 1) with (2 * 1) in H. lra.
Qed.

Lemma float32_below_overflow f : float32 f -> Rabs f < overflow32.
Proof.
  intro Hf. pose proof (float32_le_max f Hf). pose proof pow2_104_gt_1.
  unfold overflow32. lra.
Qed.

Lemma round32_le_float x f :
  float32 f -> Rabs x < overflow32 -> x <= f -> round32 x <= f.
Proof.
  intros Hf Hx H. rewrite <- (round32_id f Hf).
  apply round32_le; [exact Hx | apply float32_below_overflow; exact Hf | exact H].
Qed.

Lemma round32_ge_float x f :
  float32 f -> Rabs x < overflow32 -> f <= x -> f <= round32 x.
Proof.
  intros Hf Hx H. rewrite <- (round32_id f Hf).
  apply round32_le; [apply float32_below_overflow; exact Hf | exact Hx | exact H].
Qed.

Lemma float32_0 : float32 0.
Proof. exists 0%Z, 0%Z. split; [reflexivity|]. split; [lia|simpl; lra]. Qed.

Lemma float32_1 : float32 1.
Proof. exists 1%Z, 0%Z. split; [reflexivity|]. split; [lia|simpl; lra]. Qed.

Lemma float32_m1 : float32 (-1).
Proof.
  exists (-1)%Z, 0%Z. split; [reflexivity|]. split; [lia|simpl; lra].
Qed.

Lemma float32_half : float32 (1 / 2).
Proof.
  exists 1%Z, (-1)%Z. split; [reflexivity|]. split; [lia|simpl; lra].
Qed.

Lemma float32_3half : float32 (3 / 2).
Proof.
  exists 3%Z, (-1)%Z. split; [reflexivity|]. split; [lia|simpl; lra].
Qed.

Lemma overflow32_gt : 16777215 < overflow32.
Proof. unfold overflow32. pose proof pow2_104_gt_1. lra. Qed.

(** ** The float32 arithmetic of lines 92 and 93 *)

Lemma small_below_overflow x : Rabs x <= 16777215 -> Rabs x < overflow32.
Proof. pose proof overflow32_gt. lra. Qed.

Lemma sigmoid32_range v : 0 <= round32 (sigm v) <= 1.
Proof.
  pose proof (sigm_range v) as [Hl Hu].
  assert (Hx : Rabs (sigm v) < overflow32)
    by (apply small_below_overflow; rewrite Rabs_pos_eq; lra).
  split.
  - apply round32_ge_float; [exact float32_0 | exact Hx | lra].
  - apply round32_le_float; [exact float32_1 | exact Hx | lra].
Qed.

Lemma tanh32_range v : -1 <= round32 (tanh v) <= 1.
Proof.
  pose proof (tanh_range v) as [Hl Hu].
  assert (Hx : Rabs (tanh v) < overflow32).
  { apply small_below_overflow. unfold Rabs. destruct (Rcase_abs _); lra. }
  split.
  - apply round32_ge_float; [exact float32_m1 | exact Hx | lra].
  - apply round32_le_float; [exact float32_1 | exact Hx | lra].
Qed.

(** 0.5 + max_action * s in float32, for a float32 number s between 0 and
    1 and a max_action that float32 holds. *)
Lemma throttle32_range ma s :
  0 < ma < overflow32 -> 0 <= s <= 1 ->
  1 / 2 <= round32 (1 / 2 + round32 (round32 ma * s))
        <= round32 (1 / 2 + round32 ma).
Proof.
  intros [Hma Hov] [Hs0 Hs1].
  assert (Hxa : Rabs ma < overflow32) by (rewrite Rabs_pos_eq; lra).
  pose proof (round32_float ma Hxa) as Hf.
  assert (H0 : 0 <= round32 ma)
    by (apply round32_ge_float; [exact float32_0 | exact Hxa | lra]).
  pose proof (float32_le_max _ Hf) as Hmax.
  rewrite (Rabs_pos_eq _ H0) in Hmax.
  pose proof pow2_104_gt_1 as H104.
  assert (Hp : 0 <= round32 ma * s <= round32 ma) by nra.
  assert (Hxp : Rabs (round32 ma * s) < overflow32)
    by (rewrite Rabs_pos_eq by lra; unfold overflow32; lra).
  assert (Hq0 : 0 <= round32 (round32 ma * s))
    by (apply round32_ge_float; [exact float32_0 | exact Hxp | lra]).
  assert (Hq1 : round32 (round32 ma * s) <= round32 ma)
    by (apply round32_le_float; [exact Hf | exact Hxp | lra]).
  assert (Hx1 : Rabs (1 / 2 + round32 (round32 ma * s)) < overflow32)
    by (rewrite Rabs_pos_eq by lra; unfold overflow32; lra).
  assert (Hx2 : Rabs (1 / 2 + round32 ma) < overflow32)
    by (rewrite Rabs_pos_eq by lra; unfold overflow32; lra).
  split.
  - apply round32_ge_float; [exact float32_half | exact Hx1 | lra].
  - apply round32_le; [exact Hx1 | exact Hx2 | lra].
Qed.

(** ** Values of the rounding *)

Lemma pow2_neg_IZR k : (0 <= k)%Z -> powerRZ 2 (- k) = / IZR (2 ^ k).
Proof.
  intro Hk. pose proof (pow2_opp k) as H. rewrite (pow2_IZR k Hk) in H.
  assert (Hp : 0 < IZR (2 ^ k))
    by (rewrite <- pow2_IZR by exact Hk; apply pow2_pos).
  apply (Rmult_eq_reg_r (IZR (2 ^ k))); [|lra].
  rewrite H. field. lra.
Qed.

Lemma pow2_Zneg p : powerRZ 2 (Z.neg p) = / IZR (2 ^ Z.pos p).
Proof. apply (pow2_neg_IZR (Z.pos p)). lia. Qed.

(** 0.1 is not a float32 number: it rounds up. *)
Lemma round32_tenth : round32 (1 / 10) = 13421773 / 134217728.
Proof.
  rewrite (round32_eq (1 / 10) (-27) 13421773).
  - rewrite (pow2_Zneg 27). change (2 ^ 27)%Z with 134217728%Z.
    reflexivity.
  - lia.
  - right. change (-27 + 23)%Z with (-4)%Z.
    rewrite (pow2_Zneg 4). change (2 ^ 4)%Z with 16%Z.
    rewrite Rabs_pos_eq; lra.
  - change (-27 + 24)%Z with (-3)%Z.
    rewrite (pow2_Zneg 3). change (2 ^ 3)%Z with 8%Z.
    rewrite Rabs_pos_eq; lra.
  - change (- -27)%Z with 27%Z. rewrite (pow2_IZR 27) by lia.
    change (2 ^ 27)%Z with 134217728%Z.
    unfold Rabs. destruct (Rcase_abs _); lra.
Qed.

(** 0.5 plus the float32 number next to 0.1 rounds up again, above 0.6. *)
Lemma round32_half_tenth :
  round32 (1 / 2 + 13421773 / 134217728) = 10066330 / 16777216.
Proof.
  rewrite (round32_eq (1 / 2 + 13421773 / 134217728) (-24) 10066330).
  - rewrite (pow2_Zneg 24). change (2 ^ 24)%Z with 16777216%Z.
    reflexivity.
  - lia.
  - right. change (-24 + 23)%Z with (-1)%Z.
    rewrite (pow2_Zneg 1). change (2 ^ 1)%Z with 2%Z.
    rewrite Rabs_pos_eq; lra.
  - change (-24 + 24)%Z with 0%Z. change (powerRZ 2 0) with 1.
    rewrite Rabs_pos_eq; lra.
  - change (- -24)%Z with 24%Z. rewrite pow2_24.
    unfold Rabs. destruct (Rcase_abs _); lra.
Qed.

Lemma exp_8 x : exp (8 * x) = exp x ^ 8.
Proof.
  replace (8 * x) with (x + (x + (x + (x + (x + (x + (x + x))))))) by ring.
  rewrite !exp_plus. ring.
Qed.

(** The float32 sigmoid is 1 from 64 on (it is from about 17.33 on). *)
Lemma sigmoid32_saturates v : 64 <= v -> round32 (sigm v) = 1.
Proof.
  intro Hv. pose proof (sigm_range v) as [Hl Hu].
  assert (He : 43046721 <= exp v).
  { replace v with (8 * (v / 8)) by field. rewrite exp_8.
    pose proof (exp_ineq1_le (v / 8)) as H.
    apply Rle_trans with (9 ^ 8); [simpl; lra|].
    apply pow_incr. lra. }
  assert (Hs : 1 - sigm v < / 33554432).
  { unfold sigm. rewrite exp_Ropp.
    assert (Hi : 0 < / exp v <= / 43046721).
    { split; [apply Rinv_0_lt_compat; lra|].
      apply Rinv_le_contravar; lra. }
    set (E := / exp v) in *.
    assert (Hq : 1 / (1 + E) * (1 + E) = 1) by (field; lra).
    nra. }
  rewrite (round32_eq (sigm v) (-24) 16777216).
  - rewrite (pow2_Zneg 24). change (2 ^ 24)%Z with 16777216%Z.
    field.
  - lia.
  - right. change (-24 + 23)%Z with (-1)%Z.
    rewrite (pow2_Zneg 1). change (2 ^ 1)%Z with 2%Z.
    rewrite Rabs_pos_eq; lra.
  - change (-24 + 24)%Z with 0%Z. change (powerRZ 2 0) with 1.
    rewrite Rabs_pos_eq; lra.
  - change (- -24)%Z with 24%Z. rewrite pow2_24.
    unfold Rabs. destruct (Rcase_abs _); lra.
Qed.

(** ** Frames *)

Lemma agree_refl L w : agree L w w.
Proof. split; [reflexivity|]. intros l _. destruct l; reflexivity. Qed.

Lemma same_at_trans l w1 w2 w3 :
  same_at l w1 w2 -> same_at l w2 w3 -> same_at l w1 w3.
Proof. destruct l; simpl; intros H1 H2; congruence. Qed.

Lemma agree_trans L w1 w2 w3 : agree L w1 w2 -> agree L w2 w3 -> agree L w1 w3.
Proof.
  intros [S1 H1] [S2 H2]. split; [congruence|].
  intros l Hl. eapply same_at_trans; eauto.
Qed.

Lemma agree_weaken L L' w w' :
  (forall l, In l L -> In l L') -> agree L w w' -> agree L' w w'.
Proof. intros Hi [S H]. split; [exact S|]. intros l Hl. apply H. auto. Qed.

Lemma agree_write_net L who m' w :
  mstatic m' = mstatic (get_net who (self w)) ->
  (~ In (LValues who) L -> values m' = values (get_net who (self w))) ->
  (~ In (LGrads who) L -> grads m' = grads (get_net who (self w))) ->
  (~ In (LBuffers who) L ->
   buffer_values m' = buffer_values (get_net who (self w))) ->
  agree L w (mkWorld (set_net who m' (self w)) (env w)).
Proof.
  intros Hs Hv Hg Hb. split.
  - destruct who; unfold static; simpl in *; congruence.
  - intros l Hl.
    destruct l as [n|n|n|o| | |]; simpl; try reflexivity;
      try (destruct o, who; reflexivity);
      destruct n, who; simpl in *; try reflexivity; symmetry; auto.
Qed.

Lemma agree_set_optimizer L o v w :
  ostatic v = ostatic (get_optimizer o (self w)) ->
  In (LOpt o) L ->
  agree L w (mkWorld (set_optimizer o v (self w)) (env w)).
Proof.
  intros Hs Hin. split.
  - destruct o; unfold static; simpl in *; congruence.
  - intros l Hl.
    destruct l as [n|n|n|o'| | |]; simpl; try reflexivity;
      try (destruct n, o; reflexivity).
    destruct o', o; simpl; try reflexivity; contradiction.
Qed.

Lemma agree_env L w e' :
  (~ In LRng L -> rng e' = rng (env w)) ->
  (~ In LDisk L -> disk e' = disk (env w)) ->
  (~ In LCalls L -> sample_calls e' = sample_calls (env w)) ->
  agree L w (mkWorld (self w) e').
Proof.
  intros Hr Hd Hc. split; [reflexivity|].
  intros l Hl. destruct l; simpl; try reflexivity; symmetry; auto.
Qed.

(** ** The rules of [spec] *)

Section Spec.
Variable P : World -> Prop.
Hypothesis P_static :
  forall w w', static (self w) = static (self w') -> P w -> P w'.

Lemma spec_ret {A} L (Q : A -> Prop) (a : A) : Q a -> spec P L Q (ret a).
Proof.
  intros Hq w r w' _ E. injection E as <- <-. split; [apply agree_refl|].
  intros a' Ha. congruence.
Qed.

Lemma spec_raise {A} L (Q : A -> Prop) e : spec P L Q (raise e).
Proof.
  intros w r w' _ E. injection E as <- <-. split; [apply agree_refl|].
  intros a' Ha. discriminate.
Qed.

Lemma spec_lift {A} L (Q : A -> Prop) (r : result A) :
  (forall a, r = Ok a -> Q a) -> spec P L Q (lift r).
Proof.
  intros Hq w r' w' _ E. injection E as <- <-. split; [apply agree_refl|].
  exact Hq.
Qed.

Lemma spec_get L : spec P L (fun _ : World => True) get.
Proof.
  intros w r w' _ E. injection E as <- <-. split; [apply agree_refl|]. auto.
Qed.

Lemma spec_read_net L who : spec P L (fun _ : Module => True) (read_net who).
Proof.
  intros w r w' _ E. injection E as <- <-. split; [apply agree_refl|]. auto.
Qed.

Lemma spec_bind {A B} L (Q1 : A -> Prop) (Q : B -> Prop)
    (m : M World A) (f : A -> M World B) :
  spec P L Q1 m -> (forall a, Q1 a -> spec P L Q (f a)) ->
  spec P L Q (bind m f).
Proof.
  intros Hm Hf w r w' Hp E. unfold bind in E.
  destruct (m w) as [[a|e] w1] eqn:Em.
  - destruct (Hm _ _ _ Hp Em) as [Ag Hq].
    assert (Hp1 : P w1) by (eapply P_static; [apply Ag | exact Hp]).
    destruct (Hf a (Hq a eq_refl) _ _ _ Hp1 E) as [Ag' Hq'].
    split; [eapply agree_trans; eauto | exact Hq'].
  - injection E as <- <-. destruct (Hm _ _ _ Hp Em) as [Ag _].
    split; [exact Ag|]. intros a Ha. discriminate.
Qed.

Lemma spec_weaken {A} L L' (Q Q' : A -> Prop) (m : M World A) :
  (forall l, In l L -> In l L') -> (forall a, Q a -> Q' a) ->
  spec P L Q m -> spec P L' Q' m.
Proof.
  intros Hi Hq Hm w r w' Hp E. destruct (Hm _ _ _ Hp E) as [Ag H].
  split; [eapply agree_weaken; eauto|]. intros a Ha. auto.
Qed.

End Spec.

(** ** Tapes *)

Lemma in_tape_union l a b : In l (tape_union a b) <-> In l a \/ In l b.
Proof. unfold tape_union. rewrite nodup_In, in_app_iff. reflexivity. Qed.

Lemma tape_within_nil nets t : tape t = [] -> tape_within nets t.
Proof. intros E l Hl. rewrite E in Hl. contradiction. Qed.

Lemma tape_within_weaken nets nets' t :
  (forall n, In n nets -> In n nets') ->
  tape_within nets t -> tape_within nets' t.
Proof. intros Hi Ht l Hl. auto. Qed.

Lemma tape_within_retape nets l t :
  (forall x, In x l -> In (fst x) nets) -> tape_within nets (retape l t).
Proof. intros H x Hx. simpl in Hx. auto. Qed.

Lemma tape_within_tmap nets f t : tape_within nets t -> tape_within nets (tmap f t).
Proof. intros H l Hl. simpl in Hl. auto. Qed.

Lemma via_tape l r t : via l r = Ok t -> tape t = l.
Proof.
  unfold via, rbind. destruct r as [y|e]; [|discriminate].
  intro E. injection E as <-. reflexivity.
Qed.

Lemma tapes3_within nets a b c :
  tape_within nets a -> tape_within nets b -> tape_within nets c ->
  forall x, In x (tapes3 a b c) -> In (fst x) nets.
Proof.
  intros Ha Hb Hc x Hx. unfold tapes3 in Hx.
  rewrite !in_tape_union in Hx. destruct Hx as [H|[H|H]]; auto.
Qed.

Section TensorOps.
Variable K : Kernels.

Lemma binop_tape f a b t :
  binop K f a b = Ok t -> tape t = tape_union (tape a) (tape b).
Proof.
  unfold binop. destruct (shape_eqb (shape a) (shape b)).
  - intro E. injection E as <-. reflexivity.
  - unfold rbind.
    destruct (broadcast_shapes K (shape a) (shape b)); [|discriminate].
    destruct (broadcast_to K a0 (detach a)); [|discriminate].
    destruct (broadcast_to K a0 (detach b)); [|discriminate].
    intro E. injection E as <-. reflexivity.
Qed.

Lemma binop_same_shape f a b :
  shape a = shape b ->
  binop K f a b
  = Ok (mkTensor (shape a) (fun i => f (data a i) (data b i))
          (tape_union (tape a) (tape b))).
Proof.
  intro E. unfold binop. rewrite E, shape_eqb_refl. reflexivity.
Qed.

Lemma col_ok j x t :
  col j x = Ok t ->
  exists b a, shape x = [b; a] /\ (0 <= j < a)%Z
    /\ t = mkTensor [b] (fun r => data x (r * a + j)%Z) (tape x).
Proof.
  unfold col. destruct (shape x) as [|b [|a [|? ?]]]; try discriminate.
  destruct ((0 <=? j) && (j <? a))%Z eqn:E; [|discriminate].
  apply andb_true_iff in E. destruct E as [E1 E2].
  apply Z.leb_le in E1. apply Z.ltb_lt in E2.
  intro H. injection H as <-. exists b, a. repeat split; auto.
Qed.

Lemma set_col_ok j x v t :
  set_col K j x v = Ok t ->
  exists b a v', shape x = [b; a] /\ (0 <= j < a)%Z /\ fit K [b] v = Ok v'
    /\ t = mkTensor [b; a]
             (fun i => if Z.eqb (i mod a) j then data v' (i / a)%Z
                       else data x i)
             (tape_union (tape x) (tape v)).
Proof.
  unfold set_col. destruct (shape x) as [|b [|a [|? ?]]]; try discriminate.
  destruct ((0 <=? j) && (j <? a))%Z eqn:E; [|discriminate].
  apply andb_true_iff in E. destruct E as [E1 E2].
  apply Z.leb_le in E1. apply Z.ltb_lt in E2.
  unfold rbind. destruct (fit K [b] v) as [v'|e] eqn:Ef; [|discriminate].
  intro H. injection H as <-. exists b, a, v'. repeat split; auto.
Qed.

Lemma iadd_ok u v t :
  iadd K u v = Ok t ->
  exists v', fit K (shape u) v = Ok v'
    /\ t = mkTensor (shape u) (fun i => round32 (data u i + data v' i))
             (tape_union (tape u) (tape v)).
Proof.
  unfold iadd, rbind. destruct (fit K (shape u) v) as [v'|e]; [|discriminate].
  intro H. injection H as <-. exists v'. split; reflexivity.
Qed.

(** Row [r], column [j] of a matrix with [a] columns is entry [r * a + j]. *)
Lemma entry_col (r a j : Z) : (0 <= j < a)%Z -> ((r * a + j) mod a = j)%Z.
Proof.
  intro H. rewrite Z.add_comm, Z_mod_plus_full. apply Z.mod_small. exact H.
Qed.

Lemma entry_row (r a j : Z) : (0 <= j < a)%Z -> ((r * a + j) / a = r)%Z.
Proof.
  intro H. rewrite Z.add_comm, Z_div_plus_full by lia.
  rewrite Z.div_small by exact H. lia.
Qed.

Lemma within_col nets j x t :
  tape_within nets x -> col j x = Ok t -> tape_within nets t.
Proof.
  intros Hx E. apply col_ok in E. destruct E as (b & a & _ & _ & ->).
  exact Hx.
Qed.

Lemma within_set_col nets j x v t :
  tape_within nets x -> tape_within nets v -> set_col K j x v = Ok t ->
  tape_within nets t.
Proof.
  intros Hx Hv E. apply set_col_ok in E.
  destruct E as (b & a & v' & _ & _ & _ & ->).
  intros l Hl. simpl in Hl. apply in_tape_union in Hl. destruct Hl; auto.
Qed.

Lemma within_iadd nets u v t :
  tape_within nets u -> tape_within nets v -> iadd K u v = Ok t ->
  tape_within nets t.
Proof.
  intros Hu Hv E. apply iadd_ok in E. destruct E as (v' & _ & ->).
  intros l Hl. simpl in Hl. apply in_tape_union in Hl. destruct Hl; auto.
Qed.

Lemma within_add_angle_control nets x dist angle t :
  tape_within nets x -> tape_within nets dist -> tape_within nets angle ->
  add_angle_control K x dist angle = Ok t -> tape_within nets t.
Proof.
  intros Hx Hd Ha. unfold add_angle_control, rbind.
  destruct (col 1 x) as [u|] eqn:Eu; [|discriminate].
  destruct (col 0 x) as [v|] eqn:Ev; [|discriminate].
  destruct (via _ _) as [omega|] eqn:Eo; [|discriminate].
  destruct (iadd K u omega) as [s|] eqn:Es; [|discriminate].
  intro E.
  pose proof (within_col _ _ _ _ Hx Eu) as Hu.
  pose proof (within_col _ _ _ _ Hx Ev) as Hv.
  assert (Ho : tape_within nets omega).
  { intros l Hl. rewrite (via_tape _ _ _ Eo) in Hl.
    apply (tapes3_within nets dist angle v); auto. }
  pose proof (within_iadd _ _ _ _ Hu Ho Es) as Hs.
  exact (within_set_col nets 1 x s t Hx Hs E).
Qed.

Lemma within_pid_action nets x dist t :
  pid_action K x dist = Ok t -> tape_within nets t.
Proof.
  unfold pid_action, rbind. destruct (shape0 x) as [b|]; [|discriminate].
  intro E. eapply within_set_col; [| |exact E].
  - apply tape_within_nil. reflexivity.
  - apply tape_within_nil. reflexivity.
Qed.

Lemma within_squash nets ma x t :
  tape_within nets x -> ActorCNN_squash K ma x = Ok t -> tape_within nets t.
Proof.
  intros Hx. unfold ActorCNN_squash, rbind.
  destruct (col 0 x) as [c0|] eqn:E0; [|discriminate].
  destruct (set_col K 0 x _) as [x1|] eqn:E1; [|discriminate].
  destruct (col 1 x1) as [c1|] eqn:E2; [|discriminate].
  intro E.
  pose proof (within_col _ _ _ _ Hx E0) as H0.
  assert (H1 : tape_within nets x1).
  { eapply within_set_col; [exact Hx| |exact E1].
    unfold sadd32, smul32, sigmoid32. repeat apply tape_within_tmap.
    exact H0. }
  pose proof (within_col _ _ _ _ H1 E2) as H2.
  eapply within_set_col; [exact H1| |exact E].
  unfold tanh32. apply tape_within_tmap. exact H2.
Qed.
End TensorOps.

(** ** The footprint of the primitive operations *)

Lemma map_alist_set {V B} (f : string * V -> B) k (v v0 : V) l :
  alist_get k l = Some v0 ->
  (forall k', f (k', v) = f (k', v0)) ->
  map f (alist_set k v l) = map f l.
Proof.
  intros Hg Hf. induction l as [|[k' v'] l IH]; simpl in *; [reflexivity|].
  destruct (String.eqb k k'); simpl.
  - injection Hg as ->. rewrite Hf. reflexivity.
  - rewrite IH by exact Hg. reflexivity.
Qed.

Lemma has_key_get {V} k (l : list (string * V)) v :
  alist_get k l = Some v -> has_key k l = true.
Proof. unfold has_key. intros ->. reflexivity. Qed.

Section Primitives.
Variable K : Kernels.
Variable P : World -> Prop.
Hypothesis P_static :
  forall w w', static (self w) = static (self w') -> P w -> P w'.

Lemma spec_param L who name :
  spec P L (tape_within [who]) (param who name).
Proof.
  unfold param. eapply spec_bind; [exact P_static | apply spec_read_net |].
  intros m _. destruct (alist_get name (named_parameters m)).
  - apply spec_ret. apply tape_within_retape.
    intros x [<-|[]]. simpl. auto.
  - apply spec_raise.
Qed.

Lemma spec_buffer L who name :
  spec P L (fun t => tape t = []) (buffer who name).
Proof.
  unfold buffer. eapply spec_bind; [exact P_static | apply spec_read_net |].
  intros m _. destruct (alist_get name (named_buffers m)).
  - apply spec_ret. reflexivity.
  - apply spec_raise.
Qed.

Lemma spec_set_buffer L who name t :
  In (LBuffers who) L -> spec P L (fun _ => True) (set_buffer who name t).
Proof.
  intros Hin w r w' _ E. unfold set_buffer, bind, read_net in E.
  destruct (alist_get name (named_buffers (get_net who (self w)))) as [old|]
    eqn:Eg.
  - unfold write_net in E. injection E as <- <-. split; [|auto].
    apply agree_write_net; try reflexivity.
    + unfold mstatic, set_buffers; simpl.
      rewrite (map_alist_set _ _ _ old); [reflexivity | exact Eg | reflexivity].
    + intro H. contradiction.
  - injection E as <- <-. split; [apply agree_refl|]. intros; discriminate.
Qed.

Lemma spec_liftE_draw_mask L nets x :
  In LRng L -> tape_within nets x ->
  spec P L (tape_within nets) (liftE (draw_mask x)).
Proof.
  intros Hin Hx w r w' _ E. unfold liftE, draw_mask in E.
  injection E as <- <-. split.
  - apply agree_env; simpl; try reflexivity. intro H. contradiction.
  - intros a Ha. injection Ha as <-. exact Hx.
Qed.

Lemma spec_via L nets l r :
  (forall x, In x l -> In (fst x) nets) ->
  spec P L (tape_within nets) (lift (via l r)).
Proof.
  intros Hl. apply spec_lift. intros a Ha.
  intros x Hx. rewrite (via_tape _ _ _ Ha) in Hx. auto.
Qed.

Lemma tape_within_cons who nets t :
  tape_within nets t -> tape_within (who :: nets) t.
Proof. apply tape_within_weaken. intros n Hn. right. exact Hn. Qed.

Lemma tape_within_head who nets t :
  tape_within [who] t -> tape_within (who :: nets) t.
Proof. apply tape_within_weaken. intros n [<-|[]]. left. reflexivity. Qed.

Lemma spec_Conv2d L who nets name stride x :
  tape_within nets x ->
  spec P L (tape_within (who :: nets)) (Conv2d_forward K who name stride x).
Proof.
  intro Hx. unfold Conv2d_forward.
  eapply spec_bind; [exact P_static | apply spec_param |]. intros w Hw.
  eapply spec_bind; [exact P_static | apply spec_param |]. intros b Hb.
  apply spec_via.
  apply tapes3_within; auto using tape_within_cons, tape_within_head.
Qed.

Lemma spec_Linear L who nets name x :
  tape_within nets x ->
  spec P L (tape_within (who :: nets)) (Linear_forward K who name x).
Proof.
  intro Hx. unfold Linear_forward.
  eapply spec_bind; [exact P_static | apply spec_param |]. intros w Hw.
  eapply spec_bind; [exact P_static | apply spec_param |]. intros b Hb.
  apply spec_via.
  apply tapes3_within; auto using tape_within_cons, tape_within_head.
Qed.

Lemma spec_BatchNorm2d L who nets name x :
  In (LBuffers who) L -> tape_within nets x ->
  spec P L (tape_within (who :: nets)) (BatchNorm2d_forward K who name x).
Proof.
  intros Hin Hx. unfold BatchNorm2d_forward.
  eapply spec_bind; [exact P_static | apply spec_read_net |]. intros m _.
  eapply spec_bind; [exact P_static | apply spec_param |]. intros w Hw.
  eapply spec_bind; [exact P_static | apply spec_param |]. intros b Hb.
  eapply spec_bind; [exact P_static | apply spec_buffer |]. intros rm _.
  eapply spec_bind; [exact P_static | apply spec_buffer |]. intros rv _.
  assert (Ht : forall y, In y (tapes3 w b x) -> In (fst y) (who :: nets)).
  { apply tapes3_within; auto using tape_within_cons, tape_within_head. }
  destruct (training m).
  - eapply spec_bind; [exact P_static | apply spec_buffer |]. intros n _.
    eapply spec_bind;
      [exact P_static | apply spec_set_buffer; exact Hin |]. intros _ _.
    eapply spec_bind;
      [exact P_static | apply spec_lift with (Q := fun _ => True); auto |].
    intros r _.
    eapply spec_bind;
      [exact P_static | apply spec_set_buffer; exact Hin |]. intros _ _.
    eapply spec_bind;
      [exact P_static | apply spec_set_buffer; exact Hin |]. intros _ _.
    apply spec_ret. apply tape_within_retape. exact Ht.
  - apply spec_via. exact Ht.
Qed.

Lemma spec_Dropout L who nets x :
  In LRng L -> tape_within nets x ->
  spec P L (tape_within nets) (Dropout_forward who x).
Proof.
  intros Hin Hx. unfold Dropout_forward.
  eapply spec_bind; [exact P_static | apply spec_read_net |]. intros m _.
  destruct (training m).
  - apply spec_liftE_draw_mask; assumption.
  - apply spec_ret. exact Hx.
Qed.

Lemma spec_view_rows L nets x :
  tape_within nets x -> spec P L (tape_within nets) (lift (view_rows x)).
Proof.
  intro Hx. apply spec_lift. intros a. unfold view_rows.
  destruct (shape x) as [|b rest]; [discriminate|].
  destruct (Z.eqb b 0); [discriminate|].
  intro E. injection E as <-. exact Hx.
Qed.

Lemma within_lr nets x : tape_within nets x -> tape_within nets (lr_forward x).
Proof. apply tape_within_tmap. Qed.

(** The four convolution stages shared by ActorCNN and CriticCNN. *)
Lemma spec_conv_bn L who nets cname bname stride x (k : Tensor -> M World Tensor)
    (Q : Tensor -> Prop) :
  In (LBuffers who) L -> tape_within (who :: nets) x ->
  (forall y, tape_within (who :: nets) y -> spec P L Q (k y)) ->
  spec P L Q
    (bind (Conv2d_forward K who cname stride x)
       (fun x => bind (BatchNorm2d_forward K who bname (lr_forward x)) k)).
Proof.
  intros Hin Hx Hk.
  assert (Hsub : forall t, tape_within (who :: who :: nets) t ->
                           tape_within (who :: nets) t).
  { intro t. apply tape_within_weaken. intros n [<-|H]; [left; reflexivity|exact H]. }
  eapply spec_bind; [exact P_static | apply spec_Conv2d; exact Hx |].
  intros y Hy.
  eapply spec_bind;
    [exact P_static
    | apply spec_BatchNorm2d; [exact Hin | apply within_lr, Hsub, Hy] |].
  intros z Hz. apply Hk. apply Hsub, Hz.
Qed.

Lemma spec_ActorCNN_trunk L who nets x :
  In (LBuffers who) L -> In LRng L -> tape_within nets x ->
  spec P L (tape_within (who :: nets)) (ActorCNN_trunk K who x).
Proof.
  intros Hb Hr Hx. unfold ActorCNN_trunk.
  assert (Hsub : forall t, tape_within (who :: who :: nets) t ->
                           tape_within (who :: nets) t).
  { intro t. apply tape_within_weaken. intros n [<-|H]; [left; reflexivity|exact H]. }
  apply (spec_conv_bn L who nets); [exact Hb | apply tape_within_cons, Hx |]. intros x1 H1.
  apply (spec_conv_bn L who nets); [exact Hb | exact H1 |]. intros x2 H2.
  apply (spec_conv_bn L who nets); [exact Hb | exact H2 |]. intros x3 H3.
  apply (spec_conv_bn L who nets); [exact Hb | exact H3 |]. intros x4 H4.
  eapply spec_bind; [exact P_static | apply spec_view_rows; exact H4 |].
  intros x5 H5.
  eapply spec_bind; [exact P_static | apply spec_Dropout; eassumption |].
  intros x6 H6.
  eapply spec_bind; [exact P_static | apply spec_Linear; exact H6 |].
  intros x7 H7.
  eapply spec_weaken; [intros l Hl; exact Hl | exact Hsub |].
  apply spec_Linear. apply within_lr, Hsub, H7.
Qed.

Lemma spec_ActorPID_forward L who nets x dist angle :
  tape_within nets dist -> tape_within nets angle ->
  spec P L (tape_within (who :: nets)) (ActorPID_forward K who x dist angle).
Proof.
  intros Hd Ha. unfold ActorPID_forward.
  eapply spec_bind;
    [exact P_static
    | apply spec_lift with (Q := tape_within nets);
      intros a E; eapply within_pid_action; exact E |].
  intros y Hy. apply spec_lift. intros a E. apply tape_within_cons.
  exact (within_add_angle_control K nets y dist angle a Hy Hd Ha E).
Qed.

Lemma spec_ActorCNN_forward L who nets x dist angle only_PID :
  In (LBuffers who) L -> In LRng L ->
  tape_within nets x -> tape_within nets dist -> tape_within nets angle ->
  spec P L (tape_within (who :: nets))
    (ActorCNN_forward K who x dist angle only_PID).
Proof.
  intros Hb Hr Hx Hd Ha. unfold ActorCNN_forward.
  eapply spec_bind with (Q1 := tape_within (who :: nets)); [exact P_static | |].
  - destruct only_PID; simpl.
    + apply spec_lift. intros a E. eapply within_pid_action; exact E.
    + eapply spec_bind;
        [exact P_static | apply spec_ActorCNN_trunk; eassumption |].
      intros y Hy.
      eapply spec_bind; [exact P_static | apply spec_read_net |]. intros m _.
      apply spec_lift. intros a E.
      exact (within_squash K _ _ y a Hy E).
  - intros y Hy. apply spec_lift. intros a E.
    eapply within_add_angle_control;
      [exact Hy | apply tape_within_cons, Hd | apply tape_within_cons, Ha
      | exact E].
Qed.

Lemma spec_CriticCNN_forward L who nets states actions :
  In (LBuffers who) L ->
  tape_within nets states -> tape_within nets actions ->
  spec P L (tape_within (who :: nets)) (CriticCNN_forward K who states actions).
Proof.
  intros Hb Hs Ha. unfold CriticCNN_forward.
  assert (Hsub : forall t, tape_within (who :: who :: nets) t ->
                           tape_within (who :: nets) t).
  { intro t. apply tape_within_weaken. intros n [<-|H]; [left; reflexivity|exact H]. }
  apply (spec_conv_bn L who nets); [exact Hb | apply tape_within_cons, Hs |]. intros x1 H1.
  apply (spec_conv_bn L who nets); [exact Hb | exact H1 |]. intros x2 H2.
  apply (spec_conv_bn L who nets); [exact Hb | exact H2 |]. intros x3 H3.
  apply (spec_conv_bn L who nets); [exact Hb | exact H3 |]. intros x4 H4.
  eapply spec_bind; [exact P_static | apply spec_view_rows; exact H4 |].
  intros x5 H5.
  eapply spec_bind; [exact P_static | apply spec_Linear; exact H5 |].
  intros x6 H6. apply Hsub in H6.
  eapply spec_bind; [exact P_static | apply spec_via with (nets := who :: nets) |].
  { intros l Hl. apply in_tape_union in Hl. destruct Hl as [Hl|Hl].
    - apply H6. exact Hl.
    - right. apply Ha. exact Hl. }
  intros x7 H7.
  eapply spec_bind; [exact P_static | apply spec_Linear; exact H7 |].
  intros x8 H8.
  eapply spec_weaken; [intros l Hl; exact Hl | exact Hsub |].
  apply spec_Linear. apply within_lr, Hsub, H8.
Qed.

Lemma spec_call L who nets args :
  In (LBuffers who) L -> In LRng L -> args_within nets args ->
  spec P L (tape_within (who :: nets)) (call K who args).
Proof.
  intros Hb Hr Ha. unfold call.
  eapply spec_bind; [exact P_static | apply spec_read_net |]. intros m _.
  assert (Hin : forall t, In (PTensor t) args -> tape_within nets t)
    by exact Ha.
  destruct (cls m);
    repeat match goal with
    | |- spec _ _ _ (match ?a with _ => _ end) =>
        destruct a; try apply spec_raise
    end.
  - apply spec_ActorPID_forward; apply Hin; simpl; auto.
  - apply spec_ActorCNN_forward; try assumption; apply Hin; simpl; auto.
  - apply spec_ActorCNN_forward; try assumption; apply Hin; simpl; auto.
  - apply spec_CriticCNN_forward; try assumption; apply Hin; simpl; auto.
Qed.
End Primitives.

(** ** The footprint of the optimizers, of autograd and of the updates *)

Lemma Wired_static w w' :
  static (self w) = static (self w') -> Wired w -> Wired w'.
Proof.
  intros S [H1 H2]. unfold static, ostatic in S. unfold Wired, wired.
  split.
  - assert (E : param_group (actor_optimizer (self w'))
                = param_group (actor_optimizer (self w))) by congruence.
    congruence.
  - assert (E : param_group (critic_optimizer (self w'))
                = param_group (critic_optimizer (self w))) by congruence.
    congruence.
Qed.

Lemma True_static (w w' : World) :
  static (self w) = static (self w') -> True -> True.
Proof. auto. Qed.

Lemma wired_group o a : wired a -> param_group (get_optimizer o a) = net_of o.
Proof. intros [H1 H2]. destruct o; assumption. Qed.

Lemma mstatic_set_parameters ps m :
  pshapes ps = pshapes (named_parameters m) ->
  mstatic (set_parameters ps m) = mstatic m.
Proof. unfold mstatic, pshapes. simpl. intros ->. reflexivity. Qed.

Section Updates.
Variable K : Kernels.

Lemma adam_pass_frame rate st ps :
  pshapes (snd (adam_pass K rate st ps)) = pshapes ps
  /\ pgrads (snd (adam_pass K rate st ps)) = pgrads ps.
Proof.
  revert st. induction ps as [|[name p] ps IH]; intro st; simpl;
    [split; reflexivity|].
  destruct (grad p) as [g|] eqn:Eg; simpl.
  - destruct (IH (alist_put name
                    (fst (adam_update K rate (alist_get name st)
                            (detach (pdata p)) (detach g))) st)) as [H1 H2].
    rewrite H1, H2. split; reflexivity.
  - destruct (IH st) as [H1 H2]. rewrite H1, H2.
    split; [reflexivity | now rewrite Eg].
Qed.

Lemma soft_params_frame tau ps ts :
  pshapes (snd (soft_params K tau ps ts)) = pshapes ts
  /\ pgrads (snd (soft_params K tau ps ts)) = pgrads ts.
Proof.
  revert ts. induction ps as [|[n p] ps IH]; intros [|[name t] ts]; simpl;
    try (split; reflexivity).
  destruct (soft_value K tau (pdata p) (pdata t)); simpl;
    [|split; reflexivity].
  destruct (IH ts) as [H1 H2]. rewrite H1, H2. split; reflexivity.
Qed.

Lemma loaded_shape sd name old : shape (loaded sd name old) = shape old.
Proof.
  unfold loaded. destruct (alist_get name sd) as [t|]; [|reflexivity].
  destruct (shape_eqb (shape t) (shape old)); reflexivity.
Qed.

Lemma load_entries_frame sd m :
  mstatic (load_entries sd m) = mstatic m
  /\ grads (load_entries sd m) = grads m.
Proof.
  unfold mstatic, grads, load_entries. simpl. rewrite !map_map. simpl.
  split; [|reflexivity].
  f_equal; [f_equal|].
  - apply map_ext. intros [n p]. simpl. now rewrite loaded_shape.
  - apply map_ext. intros [n t]. simpl. now rewrite loaded_shape.
Qed.

Lemma spec_zero_grad L o :
  In (LGrads (net_of o)) L -> spec Wired L (fun _ => True) (zero_grad K o).
Proof.
  intros Hin w r w' Hp E. unfold zero_grad, bind, get, read_net, write_net in E.
  rewrite (wired_group o _ Hp) in E. injection E as <- <-. split; [|auto].
  apply agree_write_net.
  - apply mstatic_set_parameters. unfold pshapes. rewrite map_map.
    apply map_ext. intros [n p]. reflexivity.
  - intros _. unfold values. simpl. rewrite map_map. apply map_ext.
    intros [n p]. reflexivity.
  - intro H. contradiction.
  - intros _. reflexivity.
Qed.

Lemma spec_opt_step L o :
  In (LValues (net_of o)) L -> In (LOpt o) L ->
  spec Wired L (fun _ => True) (opt_step K o).
Proof.
  intros Hv Ho w r w' Hp E.
  unfold opt_step, bind, get, read_net, write_net, modify in E.
  rewrite (wired_group o _ Hp) in E. simpl in E. injection E as <- <-.
  split; [|auto].
  set (opt := get_optimizer o (self w)).
  set (m := get_net (net_of o) (self w)).
  set (r := adam_pass K (lr opt) (adam_state opt) (named_parameters m)).
  destruct (adam_pass_frame (lr opt) (adam_state opt) (named_parameters m))
    as [H1 H2]. fold r in H1, H2.
  set (w1 := mkWorld (set_net (net_of o) (set_parameters (snd r) m) (self w))
                     (env w)).
  apply (agree_trans L w w1).
  - apply (agree_write_net L (net_of o) (set_parameters (snd r) m) w).
    + apply mstatic_set_parameters. exact H1.
    + intro H. contradiction.
    + intros _. exact H2.
    + intros _. reflexivity.
  - apply (agree_set_optimizer L o
             (mkAdam (net_of o) (lr opt) (fst r)) w1); [|exact Ho].
    destruct Hp as [Hp1 Hp2].
    destruct o; unfold ostatic, w1, opt; simpl;
      [rewrite Hp1 | rewrite Hp2]; reflexivity.
Qed.
End Updates.

Section Updates2.
Variable K : Kernels.
Variable P : World -> Prop.
Hypothesis P_static :
  forall w w', static (self w) = static (self w') -> P w -> P w'.

Lemma agree_add_grad L g l a e :
  In (LGrads (fst l)) L -> agree L (mkWorld a e) (mkWorld (add_grad g l a) e).
Proof.
  intro Hin. unfold add_grad.
  destruct (alist_get (snd l) (named_parameters (get_net (fst l) a)))
    as [p|] eqn:Eg; [|apply agree_refl].
  apply (agree_write_net L (fst l) _ (mkWorld a e)).
  - apply mstatic_set_parameters. unfold pshapes.
    apply (map_alist_set _ _ _ p); [exact Eg | reflexivity].
  - intros _. unfold values. simpl.
    apply (map_alist_set _ _ _ p); [exact Eg | reflexivity].
  - intro H. contradiction.
  - intros _. reflexivity.
Qed.

Lemma agree_add_grads L (G : Leaf -> Tensor) leaves a e :
  (forall l, In l leaves -> In (LGrads (fst l)) L) ->
  agree L (mkWorld a e)
    (mkWorld (fold_left (fun a l => add_grad (G l) l a) leaves a) e).
Proof.
  revert a. induction leaves as [|l leaves IH]; intros a Hin; simpl.
  - apply agree_refl.
  - eapply agree_trans.
    + apply (agree_add_grad L (G l) l a e). apply Hin. left. reflexivity.
    + apply IH. intros l' Hl'. apply Hin. right. exact Hl'.
Qed.

Lemma spec_backward L nets batch loss :
  (forall n, In n nets -> In (LGrads n) L) -> tape_within nets loss ->
  spec P L (fun _ => True) (backward K batch loss).
Proof.
  intros Hin Ht w r w' _ E. unfold backward in E.
  destruct (negb (Z.eqb (numel (shape loss)) 1)).
  - injection E as <- <-. split; [apply agree_refl|]. intros; discriminate.
  - destruct (tape loss) as [|l0 ls] eqn:El.
    + injection E as <- <-. split; [apply agree_refl|]. intros; discriminate.
    + unfold modify in E. injection E as <- <-. split; [|auto].
      destruct w as [a e]. simpl.
      apply (agree_add_grads L
               (fun l => autograd_grad K a batch loss l) (l0 :: ls) a e).
      intros l Hl. apply Hin. apply Ht. rewrite El. exact Hl.
Qed.

Lemma spec_soft_update L tau live target :
  In (LValues target) L ->
  spec P L (fun _ => True) (soft_update K tau live target).
Proof.
  intros Hin w r w' _ E.
  unfold soft_update, bind, read_net, write_net, lift in E.
  destruct (soft_params_frame K tau
              (named_parameters (get_net live (self w)))
              (named_parameters (get_net target (self w)))) as [H1 H2].
  injection E as <- <-. split; [|auto].
  apply agree_write_net.
  - apply mstatic_set_parameters. exact H1.
  - intro H. contradiction.
  - intros _. exact H2.
  - intros _. reflexivity.
Qed.

Lemma spec_load_state_dict L who sd :
  In (LValues who) L -> In (LBuffers who) L ->
  spec P L (fun _ => True) (load_state_dict who sd).
Proof.
  intros Hv Hb w r w' _ E.
  unfold load_state_dict, bind, read_net, write_net in E.
  destruct (load_entries_frame sd (get_net who (self w))) as [H1 H2].
  assert (Ag : agree L w
                 (mkWorld (set_net who (load_entries sd (get_net who (self w)))
                             (self w)) (env w))).
  { apply agree_write_net; [exact H1 | | intros _; exact H2 |];
      intro H; contradiction. }
  destruct (strict_ok sd (get_net who (self w)));
    injection E as <- <-; (split; [exact Ag | auto]).
Qed.

Lemma spec_rb_sample L rb bs fl :
  In LCalls L -> spec P L (fun _ => True) (liftE (rb_sample rb bs fl)).
Proof.
  intros Hin w r w' _ E. unfold liftE, rb_sample in E.
  injection E as <- <-. split; [|auto].
  apply agree_env; simpl; try reflexivity. intro H. contradiction.
Qed.

Lemma spec_torch_save L sd path :
  In LDisk L -> spec P L (fun _ => True) (liftE (torch_save sd path)).
Proof.
  intros Hin w r w' _ E. unfold liftE, torch_save in E.
  destruct (writable (disk (env w)) path); injection E as <- <-;
    (split; [|auto]).
  - apply agree_env; simpl; try reflexivity. intro H. contradiction.
  - destruct w; apply agree_refl.
Qed.

Lemma spec_torch_load L path :
  spec P L (fun _ => True) (liftE (torch_load path)).
Proof.
  intros w r w' _ E. unfold liftE, torch_load in E.
  destruct (files (disk (env w)) path); injection E as <- <-;
    (split; [destruct w; apply agree_refl | auto]).
Qed.

(** *** predict, save and load *)

Lemma spec_predict L state dist angle only_pid :
  In (LBuffers Actor) L -> In LRng L ->
  spec P L (fun t => tape t = [])
    (predict K state dist angle only_pid).
Proof.
  intros Hb Hr. unfold predict.
  eapply spec_bind;
    [exact P_static | apply spec_lift with (Q := fun _ => True); auto |].
  intros c _. destruct (negb (Z.eqb c 3)); [apply spec_raise|].
  eapply spec_bind; [exact P_static | apply spec_get |]. intros w _.
  eapply spec_bind;
    [exact P_static
    | apply (spec_call K P P_static L Actor []); try assumption |].
  - intros t Ht. apply tape_within_nil.
    simpl in Ht. unfold state_tensor in Ht.
    destruct Ht as [H|[H|[H|[H|[]]]]]; try discriminate;
      injection H as <-; try reflexivity.
    destruct (flat (self w)); reflexivity.
  - intros out _. apply spec_ret. reflexivity.
Qed.

Lemma spec_save L filename directory :
  In LDisk L -> spec P L (fun _ => True) (save filename directory).
Proof.
  intro Hd. unfold save.
  eapply spec_bind; [exact P_static | apply spec_get |]. intros w _.
  eapply spec_bind;
    [exact P_static | apply spec_torch_save; exact Hd |]. intros _ _.
  eapply spec_bind; [exact P_static | apply spec_get |]. intros w1 _.
  apply spec_torch_save; exact Hd.
Qed.

Lemma spec_load filename directory :
  spec P load_footprint (fun _ => True) (load filename directory).
Proof.
  unfold load.
  eapply spec_bind; [exact P_static | apply spec_torch_load |]. intros sd _.
  eapply spec_bind;
    [exact P_static | apply spec_load_state_dict; simpl; auto |]. intros _ _.
  eapply spec_bind; [exact P_static | apply spec_torch_load |]. intros sd' _.
  apply spec_load_state_dict; simpl; auto.
Qed.

Lemma spec_bootstrap_target L next_state next_dist next_angle done reward
    discount :
  In (LBuffers ActorTarget) L -> In (LBuffers CriticTarget) L -> In LRng L ->
  tape next_state = [] -> tape next_dist = [] -> tape next_angle = [] ->
  tape reward = [] ->
  spec P L (fun t => tape t = [])
    (bootstrap_target K next_state next_dist next_angle done reward discount).
Proof.
  intros Ha Hc Hr T1 T2 T3 T4. unfold bootstrap_target.
  eapply spec_bind;
    [exact P_static
    | apply (spec_call K P P_static L ActorTarget []); try assumption |].
  { intros t Ht. apply tape_within_nil. simpl in Ht.
    destruct Ht as [H|[H|[H|[]]]]; injection H as <-; assumption. }
  intros a Hta.
  eapply spec_bind;
    [exact P_static
    | apply (spec_call K P P_static L CriticTarget [ActorTarget]);
      try assumption |].
  { intros t Ht. simpl in Ht.
    destruct Ht as [H|[H|[]]]; injection H as <-.
    - apply tape_within_nil. exact T1.
    - exact Hta. }
  intros q _.
  eapply spec_bind;
    [exact P_static | apply spec_lift with (Q := fun _ => True); auto |].
  intros d _. apply spec_lift. intros t E.
  apply binop_tape in E. rewrite E, T4. reflexivity.
Qed.

Lemma spec_soft_updates L tau :
  In (LValues CriticTarget) L -> In (LValues ActorTarget) L ->
  spec P L (fun _ => True) (soft_updates K tau).
Proof.
  intros H1 H2. unfold soft_updates.
  eapply spec_bind;
    [exact P_static | apply spec_soft_update; exact H1 |]. intros _ _.
  apply spec_soft_update; exact H2.
Qed.
End Updates2.

(** *** train *)

Section Train.
Variable K : Kernels.

Lemma spec_critic_update L sample state action target_Q :
  (forall l, In l critic_footprint -> In l L) ->
  tape state = [] -> tape action = [] -> tape target_Q = [] ->
  spec Wired L (fun _ => True) (critic_update K sample state action target_Q).
Proof.
  intros HL T1 T2 T3. unfold critic_update.
  eapply spec_bind;
    [exact Wired_static
    | apply (spec_call K Wired Wired_static L Critic []);
      try (apply HL; simpl; auto 10) |].
  { intros t Ht. apply tape_within_nil. simpl in Ht.
    destruct Ht as [H|[H|[]]]; injection H as <-; assumption. }
  intros current_Q Hq.
  eapply spec_bind;
    [exact Wired_static | apply spec_via with (nets := [Critic]) |].
  { intros x Hx. apply in_tape_union in Hx. rewrite T3 in Hx.
    destruct Hx as [Hx|[]]. apply Hq. exact Hx. }
  intros critic_loss Hl. unfold optimize.
  eapply spec_bind;
    [exact Wired_static | apply spec_zero_grad; apply HL; simpl; auto 10 |].
  intros _ _.
  eapply spec_bind;
    [exact Wired_static
    | apply (spec_backward K Wired L [Critic]); [|exact Hl] |].
  { intros n [<-|[]]. apply HL; simpl; auto 10. }
  intros _ _.
  apply spec_opt_step; apply HL; simpl; auto 10.
Qed.

Lemma spec_actor_update L sample state dist angle :
  (forall l, In l actor_footprint -> In l L) ->
  tape state = [] -> tape dist = [] -> tape angle = [] ->
  spec Wired L (fun _ => True) (actor_update K sample state dist angle).
Proof.
  intros HL T1 T2 T3. unfold actor_update.
  eapply spec_bind;
    [exact Wired_static
    | apply (spec_call K Wired Wired_static L Actor []);
      try (apply HL; simpl; auto 10) |].
  { intros t Ht. apply tape_within_nil. simpl in Ht.
    destruct Ht as [H|[H|[H|[]]]]; injection H as <-; assumption. }
  intros a Ha.
  eapply spec_bind;
    [exact Wired_static
    | apply (spec_call K Wired Wired_static L Critic [Actor]);
      try (apply HL; simpl; auto 10) |].
  { intros t Ht. simpl in Ht. destruct Ht as [H|[H|[]]]; injection H as <-.
    - apply tape_within_nil. exact T1.
    - exact Ha. }
  intros q Hq. unfold optimize.
  eapply spec_bind;
    [exact Wired_static | apply spec_zero_grad; apply HL; simpl; auto 10 |].
  intros _ _.
  eapply spec_bind;
    [exact Wired_static
    | apply (spec_backward K Wired L [Critic; Actor]) |].
  { intros n [<-|[<-|[]]]; apply HL; simpl; auto 10. }
  { intros l Hl. simpl in Hl. apply Hq. exact Hl. }
  intros _ _.
  apply spec_opt_step; apply HL; simpl; auto 10.
Qed.

Lemma spec_update_networks L sample discount :
  (forall l, In l (target_footprint ++ critic_footprint ++ actor_footprint) ->
             In l L) ->
  spec Wired L (fun _ => True) (update_networks K sample discount).
Proof.
  intros HL. unfold update_networks.
  eapply spec_bind;
    [exact Wired_static
    | apply (spec_bootstrap_target K Wired Wired_static L);
      try reflexivity; apply HL; simpl; auto 10 |].
  intros target_Q Ht.
  eapply spec_bind;
    [exact Wired_static
    | apply spec_critic_update; try reflexivity; try exact Ht |].
  { intros l Hl. apply HL.
    apply in_or_app. right. apply in_or_app. left. exact Hl. }
  intros _ _.
  apply spec_actor_update; try reflexivity.
  intros l Hl. apply HL.
  apply in_or_app. right. apply in_or_app. right. exact Hl.
Qed.

Lemma spec_gradient_steps L rb batch_size discount :
  (forall l, In l gradient_footprint -> In l L) ->
  spec Wired L (fun _ => True) (gradient_steps K rb batch_size discount).
Proof.
  intros HL. unfold gradient_steps.
  eapply spec_bind; [exact Wired_static | apply spec_get |]. intros w _.
  eapply spec_bind;
    [exact Wired_static | apply spec_rb_sample; apply HL; simpl; auto |].
  intros sample _.
  apply spec_update_networks.
  intros l Hl. apply HL. right. exact Hl.
Qed.

Lemma spec_train_iteration rb batch_size discount tau :
  spec Wired train_footprint (fun _ => True)
    (train_iteration K rb batch_size discount tau).
Proof.
  unfold train_iteration.
  eapply spec_bind;
    [exact Wired_static | apply spec_gradient_steps |].
  { intros l Hl. unfold train_footprint. apply in_or_app. left. exact Hl. }
  intros _ _.
  apply spec_soft_updates; [exact Wired_static | |];
    unfold train_footprint; apply in_or_app; right; simpl; auto.
Qed.

Lemma spec_train_loop n rb batch_size discount tau :
  spec Wired train_footprint (fun _ => True)
    (train_loop K n rb batch_size discount tau).
Proof.
  induction n as [|n IH]; simpl.
  - apply spec_ret. exact I.
  - eapply spec_bind;
      [exact Wired_static | apply spec_train_iteration |].
    intros _ _. exact IH.
Qed.

Lemma spec_train rb iterations batch_size discount tau :
  spec Wired train_footprint (fun _ => True)
    (train K rb iterations batch_size discount tau).
Proof. apply spec_train_loop. Qed.
End Train.

(** ** Running a method body step by step *)

Lemma bind_ok {S A B} (m : M S A) (f : A -> M S B) s b s' :
  bind m f s = (Ok b, s') ->
  exists a s1, m s = (Ok a, s1) /\ f a s1 = (Ok b, s').
Proof.
  unfold bind. destruct (m s) as [[a|e] s1]; [|discriminate].
  intro E. exists a, s1. split; [reflexivity | exact E].
Qed.

Lemma ret_ok {S A} (a b : A) (s s' : S) :
  ret a s = (Ok b, s') -> b = a /\ s' = s.
Proof. unfold ret. intro E. injection E as -> ->. split; reflexivity. Qed.

Lemma lift_ok {S A} (r : result A) (s : S) a s' :
  lift r s = (Ok a, s') -> r = Ok a /\ s' = s.
Proof. unfold lift. intro E. injection E as -> ->. split; reflexivity. Qed.

Lemma static_net who a a' :
  static a = static a' -> mstatic (get_net who a) = mstatic (get_net who a').
Proof. unfold static. intro E. destruct who; simpl; congruence. Qed.

Lemma mstatic_max_action m m' : mstatic m = mstatic m' -> max_action m = max_action m'.
Proof. unfold mstatic. intro E. congruence. Qed.

Lemma mstatic_cls m m' : mstatic m = mstatic m' -> cls m = cls m'.
Proof. unfold mstatic. intro E. congruence. Qed.

Lemma succeeded_value (r : result Tensor * World) :
  succeeded r = true -> r = (Ok (value_of r), snd r).
Proof.
  destruct r as [[t|e] w]; unfold succeeded, value_of; simpl;
    [reflexivity | discriminate].
Qed.

Lemma succeeded_unit {S} (r : result unit * S) :
  succeeded r = true -> r = (Ok tt, snd r).
Proof.
  destruct r as [[[]|e] w]; unfold succeeded; simpl;
    [reflexivity | discriminate].
Qed.

Lemma run_inj {A S} (a a' : A) (s s' : S) :
  (Ok a, s) = (Ok a', s') -> a = a' /\ s = s'.
Proof. intro E. injection E as -> ->. split; reflexivity. Qed.

Lemma run_snd {A S} (p : result A * S) r s : p = (r, s) -> snd p = s.
Proof. intros ->. reflexivity. Qed.

Lemma bind_run {S A B} (m : M S A) (f : A -> M S B) s r s' :
  bind m f s = (r, s') ->
  (exists a s1, m s = (Ok a, s1) /\ f a s1 = (r, s'))
  \/ (exists x, m s = (Raise x, s') /\ r = Raise x).
Proof.
  unfold bind. destruct (m s) as [[a|x] s1]; intro E.
  - left. exists a, s1. split; [reflexivity | exact E].
  - right. injection E as <- <-. exists x. split; reflexivity.
Qed.

Lemma append_inj_l (p a b : string) : (p ++ a = p ++ b)%string -> a = b.
Proof.
  induction p as [|c p IH]; simpl; intro E; [exact E|].
  injection E as E. apply IH. exact E.
Qed.


(** ** The action head of ActorCNN *)

Section Head.
Variable K : Kernels.

Lemma col_eq j x b a :
  shape x = [b; a] -> (0 <= j < a)%Z ->
  col j x = Ok (mkTensor [b] (fun r => data x (r * a + j)%Z) (tape x)).
Proof.
  intros Hs Hj. unfold col. rewrite Hs.
  replace ((0 <=? j) && (j <? a))%Z with true; [reflexivity|].
  symmetry. apply andb_true_iff. split; [apply Z.leb_le | apply Z.ltb_lt]; lia.
Qed.

Lemma set_col_eq j x v b a :
  shape x = [b; a] -> (0 <= j < a)%Z -> shape v = [b] ->
  set_col K j x v
  = Ok (mkTensor [b; a]
          (fun i => if Z.eqb (i mod a) j then data v (i / a)%Z else data x i)
          (tape_union (tape x) (tape v))).
Proof.
  intros Hs Hj Hv. unfold set_col, fit, rbind. rewrite Hs.
  replace ((0 <=? j) && (j <? a))%Z with true.
  - rewrite Hv, shape_eqb_refl. reflexivity.
  - symmetry. apply andb_true_iff.
    split; [apply Z.leb_le | apply Z.ltb_lt]; lia.
Qed.

(** Lines 92 and 93 on a matrix with at least two columns: the squashed
    matrix, column by column. *)
Lemma squash_total ma x b a :
  shape x = [b; a] -> (1 < a)%Z ->
  exists t,
    ActorCNN_squash K ma x = Ok t /\ shape t = [b; a]
    /\ (forall r, data t (r * a + 0)%Z
                  = round32
                      (1 / 2
                       + round32 (round32 ma
                                  * round32 (sigm (data x (r * a + 0)%Z)))))
    /\ (forall r, data t (r * a + 1)%Z
                  = round32 (tanh (data x (r * a + 1)%Z)))
    /\ (forall r j, (1 < j < a)%Z -> data t (r * a + j)%Z = data x (r * a + j)%Z).
Proof.
  intros Hs Ha. unfold ActorCNN_squash, rbind.
  rewrite (col_eq 0 x b a Hs) by lia.
  rewrite (set_col_eq 0 x _ b a Hs) by (try lia; reflexivity).
  set (x1 := mkTensor [b; a] _ _).
  rewrite (col_eq 1 x1 b a) by (try lia; reflexivity).
  rewrite (set_col_eq 1 x1 _ b a) by (try lia; reflexivity).
  eexists. split; [reflexivity|]. split; [reflexivity|].
  unfold x1, sadd32, smul32, sigmoid32, tanh32, tmap. cbn [data shape tape].
  split; [|split].
  - intro r. rewrite !entry_col by lia.
    destruct (Z.eqb_spec 0 1); [lia|]. rewrite Z.eqb_refl.
    rewrite entry_row by lia. rewrite (round32_id _ float32_half).
    reflexivity.
  - intro r. rewrite !entry_col by lia. rewrite Z.eqb_refl.
    rewrite !entry_row by lia. rewrite ?entry_col by lia.
    destruct (Z.eqb_spec 1 0); [lia|]. reflexivity.
  - intros r j Hj. rewrite !entry_col by lia.
    destruct (Z.eqb_spec j 1); [lia|]. destruct (Z.eqb_spec j 0); [lia|].
    reflexivity.
Qed.

Lemma squash_ok ma x t :
  ActorCNN_squash K ma x = Ok t ->
  exists b a, shape x = [b; a] /\ (1 < a)%Z.
Proof.
  unfold ActorCNN_squash, rbind.
  destruct (col 0 x) as [c0|] eqn:E0; [|discriminate].
  destruct (set_col K 0 x _) as [x1|] eqn:E1; [|discriminate].
  destruct (col 1 x1) as [c1|] eqn:E2; [|discriminate].
  intros _.
  apply set_col_ok in E1. destruct E1 as (b & a & v' & Hs & _ & _ & ->).
  apply col_ok in E2. destruct E2 as (b' & a' & Hs' & Hj & _).
  simpl in Hs'. injection Hs' as <- <-.
  exists b, a. split; [exact Hs | lia].
Qed.

(** The last statement of both actors on a matrix with at least two
    columns, when the controller returns one number per row. *)
Lemma add_angle_control_total x dist angle b a c :
  shape x = [b; a] -> (1 < a)%Z ->
  angle_control_commands K (detach (squeeze dist)) (detach (squeeze angle))
    (detach (mkTensor [b] (fun r => data x (r * a + 0)%Z) (tape x))) = Ok c ->
  shape c = [b] ->
  exists t,
    add_angle_control K x dist angle = Ok t /\ shape t = [b; a]
    /\ (forall r, data t (r * a + 1)%Z
                  = round32 (data x (r * a + 1)%Z + data c r))
    /\ (forall r j, (0 <= j < a)%Z -> j <> 1%Z ->
                    data t (r * a + j)%Z = data x (r * a + j)%Z).
Proof.
  intros Hs Ha Hc Hsc. unfold add_angle_control, rbind.
  rewrite (col_eq 1 x b a Hs) by lia.
  rewrite (col_eq 0 x b a Hs) by lia.
  rewrite Hc. unfold via, rbind, iadd, fit, rbind, retape.
  cbn [data shape tape]. rewrite Hsc, shape_eqb_refl.
  rewrite (set_col_eq 1 x _ b a Hs) by (try lia; reflexivity).
  eexists. split; [reflexivity|]. split; [reflexivity|].
  cbn [data shape tape]. split.
  - intro r. rewrite entry_col by lia. rewrite Z.eqb_refl.
    rewrite entry_row by lia. reflexivity.
  - intros r j Hj Hne. rewrite entry_col by lia.
    destruct (Z.eqb_spec j 1); [contradiction|]. reflexivity.
Qed.

Lemma add_angle_control_ok x dist angle t :
  add_angle_control K x dist angle = Ok t ->
  exists b a c c',
    shape x = [b; a] /\ (1 < a)%Z
    /\ angle_control_commands K (detach (squeeze dist))
         (detach (squeeze angle))
         (detach (mkTensor [b] (fun r => data x (r * a + 0)%Z) (tape x)))
       = Ok c
    /\ fit K [b] (retape (tapes3 dist angle
                            (mkTensor [b] (fun r => data x (r * a + 0)%Z)
                               (tape x))) c) = Ok c'
    /\ shape t = [b; a]
    /\ (forall r, data t (r * a + 1)%Z
                  = round32 (data x (r * a + 1)%Z + data c' r))
    /\ (forall r j, (0 <= j < a)%Z -> j <> 1%Z ->
                    data t (r * a + j)%Z = data x (r * a + j)%Z).
Proof.
  unfold add_angle_control, rbind.
  destruct (col 1 x) as [u|] eqn:Eu; [|discriminate].
  destruct (col 0 x) as [v|] eqn:Ev; [|discriminate].
  apply col_ok in Eu. destruct Eu as (b & a & Hs & Hj & ->).
  rewrite (col_eq 0 x b a Hs) in Ev by lia. injection Ev as <-.
  unfold via at 1, rbind.
  destruct (angle_control_commands K _ _ _) as [c|] eqn:Ec; [|discriminate].
  destruct (iadd K _ _) as [s|] eqn:Es; [|discriminate].
  apply iadd_ok in Es. simpl in Es. destruct Es as (c' & Hf & ->).
  rewrite (set_col_eq 1 x _ b a Hs) by (try lia; reflexivity).
  intro E. injection E as <-.
  exists b, a, c, c'. split; [exact Hs|]. split; [lia|].
  split; [exact Ec|]. split; [exact Hf|]. split; [reflexivity|].
  cbn [data shape tape]. split.
  - intro r. rewrite entry_col by lia. rewrite Z.eqb_refl.
    rewrite entry_row by lia. reflexivity.
  - intros r j Hj' Hne. rewrite entry_col by lia.
    destruct (Z.eqb_spec j 1); [contradiction|]. reflexivity.
Qed.
End Head.

(** ** One iteration of train, phase by phase *)

Section Phases.
Variable K : Kernels.

Lemma train_iteration_ok rb batch_size discount tau w w' :
  train_iteration K rb batch_size discount tau w = (Ok tt, w') ->
  exists w1,
    gradient_steps K rb batch_size discount w = (Ok tt, w1)
    /\ soft_updates K tau w1 = (Ok tt, w').
Proof.
  unfold train_iteration. intro E. apply bind_ok in E.
  destruct E as ([] & w1 & E1 & E2). exists w1. split; assumption.
Qed.

Lemma gradient_steps_ok rb batch_size discount w w3 :
  gradient_steps K rb batch_size discount w = (Ok tt, w3) ->
  exists sample target_Q w1 w2,
    rb ((batch_size, flat (self w)) :: sample_calls (env w)) = Ok sample
    /\ bootstrap_target K (detach (b_next_state sample))
         (detach (b_next_dist sample)) (detach (b_next_angle sample))
         (detach (rsub 1 (b_done sample))) (detach (b_reward sample))
         discount (sampled batch_size w) = (Ok target_Q, w1)
    /\ critic_update K sample (detach (b_state sample))
         (detach (b_action sample)) target_Q w1 = (Ok tt, w2)
    /\ actor_update K sample (detach (b_state sample))
         (detach (b_dist sample)) (detach (b_angle sample)) w2 = (Ok tt, w3).
Proof.
  unfold gradient_steps. intro E.
  apply bind_ok in E. destruct E as (w0 & w0' & Eg & E).
  unfold get in Eg. injection Eg as <- <-.
  apply bind_ok in E. destruct E as (sample & ws & Es & E).
  unfold liftE, rb_sample in Es. simpl in Es. injection Es as Es <-.
  unfold update_networks in E.
  apply bind_ok in E. destruct E as (target_Q & w1 & Et & E).
  apply bind_ok in E. destruct E as ([] & w2 & Ec & Ea).
  exists sample, target_Q, w1, w2.
  split; [exact Es|]. split; [exact Et|]. split; assumption.
Qed.

Lemma bootstrap_target_ok next_state next_dist next_angle done reward discount
    w target_Q w' :
  bootstrap_target K next_state next_dist next_angle done reward discount w
  = (Ok target_Q, w') ->
  exists a wa q,
    call K ActorTarget
      [PTensor next_state; PTensor next_dist; PTensor next_angle] w
    = (Ok a, wa)
    /\ call K CriticTarget [PTensor next_state; PTensor a] wa = (Ok q, w')
    /\ tape target_Q = tape_union (tape reward) []
    /\ (shape done = shape q -> shape reward = shape q ->
        shape target_Q = shape q
        /\ forall i, data target_Q i
                     = data reward i + data done i * discount * data q i).
Proof.
  unfold bootstrap_target. intro E.
  apply bind_ok in E. destruct E as (a & wa & Ea & E).
  apply bind_ok in E. destruct E as (q & wq & Eq & E).
  apply bind_ok in E. destruct E as (d & wd & Ed & E).
  apply lift_ok in Ed. destruct Ed as [Ed ->].
  apply lift_ok in E. destruct E as [E ->].
  exists a, wa, q. split; [exact Ea|]. split; [exact Eq|]. split.
  - apply binop_tape in E. exact E.
  - intros Hd Hr. unfold tmul in Ed.
    rewrite binop_same_shape in Ed by exact Hd. injection Ed as <-.
    unfold tadd in E. rewrite binop_same_shape in E by (simpl; congruence).
    injection E as <-. split; [exact Hr|]. intro i. reflexivity.
Qed.

Lemma optimize_ok o sample loss w w' :
  Wired w ->
  optimize K o sample loss w = (Ok tt, w') ->
  exists wz,
    zero_grad K o w = (Ok tt, wz)
    /\ Forall is_cleared (grads (get_net (net_of o) (self wz)))
    /\ bind (backward K sample loss) (fun _ => opt_step K o) wz = (Ok tt, w').
Proof.
  intros Hw E. unfold optimize in E.
  apply bind_ok in E. destruct E as ([] & wz & Ez & E).
  exists wz. split; [exact Ez|]. split; [|exact E].
  unfold zero_grad, bind, get, read_net, write_net in Ez.
  rewrite (wired_group o _ Hw) in Ez. injection Ez as <-.
  simpl self.
  assert (G : forall m, get_net (net_of o) (set_net (net_of o) m (self w)) = m)
    by (intro m; destruct o; reflexivity).
  rewrite G. unfold grads. simpl. rewrite map_map. apply Forall_map.
  apply Forall_forall. intros [n p] _. simpl. unfold cleared.
  destruct (grad p) as [g|]; simpl; [|exact I].
  destruct (grad_to_none K); simpl; [exact I | reflexivity].
Qed.

Lemma critic_update_ok sample state action target_Q w w' :
  critic_update K sample state action target_Q w = (Ok tt, w') ->
  exists current_Q critic_loss wf,
    call K Critic [PTensor state; PTensor action] w = (Ok current_Q, wf)
    /\ via (tape_union (tape current_Q) (tape target_Q))
         (mse_loss K (detach current_Q) (detach target_Q)) = Ok critic_loss
    /\ optimize K CriticOptimizer sample critic_loss wf = (Ok tt, w').
Proof.
  unfold critic_update. intro E.
  apply bind_ok in E. destruct E as (cq & wf & Ec & E).
  apply bind_ok in E. destruct E as (loss & wl & El & E).
  apply lift_ok in El. destruct El as [El ->].
  exists cq, loss, wf. split; [exact Ec|]. split; assumption.
Qed.
End Phases.

(** ** Weights from the static part and the values *)

Lemma pweights_ext ps ps' :
  pshapes ps = pshapes ps' -> pvalues ps = pvalues ps' ->
  pweights ps = pweights ps'.
Proof.
  revert ps'. induction ps as [|[n p] ps IH]; intros [|[n' p'] ps'];
    simpl; intros Hs Hv; try discriminate; [reflexivity|].
  injection Hs as -> Hsh Hs. injection Hv as Hd _ Hv.
  rewrite Hsh, Hd, (IH ps' Hs Hv). reflexivity.
Qed.

Lemma mstatic_pshapes m m' :
  mstatic m = mstatic m' ->
  pshapes (named_parameters m) = pshapes (named_parameters m').
Proof. unfold mstatic, pshapes. intro E. congruence. Qed.

Lemma mstatic_bshapes m m' : mstatic m = mstatic m' -> bshapes m = bshapes m'.
Proof. unfold mstatic, bshapes. intro E. congruence. Qed.

Lemma agree_weights L who w w' :
  agree L w w' -> ~ In (LValues who) L ->
  weights (get_net who (self w')) = weights (get_net who (self w)).
Proof.
  intros [S H] Hn. unfold weights. symmetry. apply pweights_ext.
  - apply mstatic_pshapes, static_net, S.
  - exact (H (LValues who) Hn).
Qed.

Lemma agree_grads L who w w' :
  agree L w w' -> ~ In (LGrads who) L ->
  grads (get_net who (self w')) = grads (get_net who (self w)).
Proof. intros [S H] Hn. symmetry. exact (H (LGrads who) Hn). Qed.

Lemma agree_layout L m t w w' :
  agree L w w' ->
  same_layout (get_net m (self w)) (get_net t (self w)) ->
  same_layout (get_net m (self w')) (get_net t (self w')).
Proof.
  intros [S _]. unfold same_layout.
  rewrite <- (mstatic_pshapes _ _ (static_net m _ _ S)).
  rewrite <- (mstatic_pshapes _ _ (static_net t _ _ S)). auto.
Qed.

(** ** The soft update, entry by entry *)

Section Soft.
Variable K : Kernels.

Lemma soft_value_same_shape tau p t :
  shape p = shape t ->
  soft_value K tau p t
  = Ok (mkTensor (shape p)
          (fun i => tau * data p i + (1 - tau) * data t i)
          (tape_union [] [])).
Proof.
  intro Hs. unfold soft_value, tadd, rbind.
  rewrite binop_same_shape by exact Hs.
  unfold fit. cbn [shape smul tmap detach]. rewrite Hs, shape_eqb_refl.
  reflexivity.
Qed.

Lemma soft_params_mix tau ps ts :
  pshapes ps = pshapes ts ->
  fst (soft_params K tau ps ts) = Ok tt
  /\ soft_mix tau (pweights ps) (pweights ts)
       (pweights (snd (soft_params K tau ps ts))).
Proof.
  revert ts. induction ps as [|[n p] ps IH]; intros [|[name t] ts] Hs;
    try discriminate.
  - simpl. split; [reflexivity|]. split; [reflexivity|].
    intros [|k] nm sh d H; discriminate.
  - simpl in Hs. injection Hs as -> Hsh Hs.
    destruct (IH ts Hs) as [Hok [Hlen Hmix]].
    cbn [soft_params]. rewrite (soft_value_same_shape tau _ _ Hsh).
    cbn [fst snd]. split; [exact Hok|]. split.
    + cbn [pweights map List.length]. unfold pweights in Hlen.
      rewrite Hlen. reflexivity.
    + intros [|k] nm sh d H.
      * cbn in H. injection H as <- <- <-.
        exists (data (pdata p)), (data (pdata t)). cbn.
        rewrite Hsh. repeat split; reflexivity.
      * cbn in H. cbn. apply Hmix. exact H.
Qed.

Lemma soft_update_run tau live target w r w' :
  soft_update K tau live target w = (r, w') ->
  r = fst (soft_params K tau (named_parameters (get_net live (self w)))
             (named_parameters (get_net target (self w))))
  /\ w' = mkWorld
            (set_net target
               (set_parameters
                  (snd (soft_params K tau
                          (named_parameters (get_net live (self w)))
                          (named_parameters (get_net target (self w)))))
                  (get_net target (self w)))
               (self w))
            (env w).
Proof.
  unfold soft_update, bind, read_net, write_net, lift.
  intro E. injection E as <- <-. split; reflexivity.
Qed.

Lemma soft_updates_mix tau w w' :
  same_layout (critic (self w)) (critic_target (self w)) ->
  same_layout (actor (self w)) (actor_target (self w)) ->
  soft_updates K tau w = (Ok tt, w') ->
  weights (critic (self w')) = weights (critic (self w))
  /\ weights (actor (self w')) = weights (actor (self w))
  /\ soft_mix tau (weights (critic (self w)))
       (weights (critic_target (self w))) (weights (critic_target (self w')))
  /\ soft_mix tau (weights (actor (self w)))
       (weights (actor_target (self w))) (weights (actor_target (self w'))).
Proof.
  intros Lc La E. unfold soft_updates in E.
  apply bind_ok in E. destruct E as ([] & w1 & E1 & E2).
  apply soft_update_run in E1. destruct E1 as [_ ->].
  apply soft_update_run in E2. destruct E2 as [_ ->].
  cbn [self get_net set_net actor critic actor_target critic_target
       set_parameters named_parameters].
  destruct (soft_params_mix tau _ _ Lc) as [_ Hc].
  destruct (soft_params_mix tau _ _ La) as [_ Ha].
  unfold weights. cbn [named_parameters].
  split; [reflexivity|]. split; [reflexivity|]. split; assumption.
Qed.
End Soft.

(** ** The constructors *)

Lemma rand_tensor_ok s e t e' :
  rand_tensor s e = (Ok t, e') -> shape t = s /\ tape t = [].
Proof.
  unfold rand_tensor. destruct (forallb _ s); [|discriminate].
  intro E. injection E as <- <-. split; reflexivity.
Qed.

Lemma pshapes_app ps qs : pshapes (ps ++ qs) = pshapes ps ++ pshapes qs.
Proof. unfold pshapes. apply map_app. Qed.

Lemma Conv2d_init_ok name cin cout k e ps e' :
  Conv2d_init name cin cout k e = (Ok ps, e') ->
  pshapes ps = conv_layout name cin cout k.
Proof.
  unfold Conv2d_init. intro E.
  apply bind_ok in E. destruct E as (w & e1 & Ew & E).
  apply bind_ok in E. destruct E as (b & e2 & Eb & E).
  unfold ret in E. injection E as <- <-.
  apply rand_tensor_ok in Ew. apply rand_tensor_ok in Eb.
  destruct Ew as [Hw _]. destruct Eb as [Hb _].
  unfold conv_layout. simpl. rewrite Hw, Hb. reflexivity.
Qed.

Lemma Linear_init_ok name fin fout e ps e' :
  Linear_init name fin fout e = (Ok ps, e') ->
  pshapes ps = linear_layout name fin fout.
Proof.
  unfold Linear_init. intro E.
  apply bind_ok in E. destruct E as (w & e1 & Ew & E).
  apply bind_ok in E. destruct E as (b & e2 & Eb & E).
  unfold ret in E. injection E as <- <-.
  apply rand_tensor_ok in Ew. apply rand_tensor_ok in Eb.
  destruct Ew as [Hw _]. destruct Eb as [Hb _].
  unfold linear_layout. simpl. rewrite Hw, Hb. reflexivity.
Qed.

Lemma conv_stack_ok e ps e' :
  conv_stack e = (Ok ps, e') -> pshapes ps = conv_stack_layout.
Proof.
  unfold conv_stack. intro E.
  apply bind_ok in E. destruct E as (c1 & e1 & E1 & E).
  apply bind_ok in E. destruct E as (c2 & e2 & E2 & E).
  apply bind_ok in E. destruct E as (c3 & e3 & E3 & E).
  apply bind_ok in E. destruct E as (c4 & e4 & E4 & E).
  unfold ret in E. injection E as <- <-.
  rewrite !pshapes_app.
  rewrite (Conv2d_init_ok _ _ _ _ _ _ _ E1), (Conv2d_init_ok _ _ _ _ _ _ _ E2),
    (Conv2d_init_ok _ _ _ _ _ _ _ E3), (Conv2d_init_ok _ _ _ _ _ _ _ E4).
  reflexivity.
Qed.

Lemma ActorPID_init_ok state_dim action_dim max_action e m e' :
  ActorPID_init state_dim action_dim max_action e = (Ok m, e') ->
  laid_out ActorPID (ActorPID_layout state_dim action_dim) [] m.
Proof.
  unfold ActorPID_init. intro E.
  apply bind_ok in E. destruct E as (l1 & e1 & E1 & E).
  apply bind_ok in E. destruct E as (l2 & e2 & E2 & E).
  apply bind_ok in E. destruct E as (l3 & e3 & E3 & E).
  apply ret_ok in E. destruct E as [-> ->].
  split; [reflexivity|]. split; [|reflexivity].
  cbv beta iota delta [named_parameters]. rewrite !pshapes_app.
  rewrite (Linear_init_ok _ _ _ _ _ _ E1), (Linear_init_ok _ _ _ _ _ _ E2),
    (Linear_init_ok _ _ _ _ _ _ E3).
  reflexivity.
Qed.

Lemma ActorCNN_init_ok action_dim max_action e m e' :
  ActorCNN_init action_dim max_action e = (Ok m, e') ->
  laid_out ActorCNN (ActorCNN_layout action_dim)
    (map (fun e => (fst e, shape (snd e))) bn_stack_buffers) m.
Proof.
  unfold ActorCNN_init. intro E.
  apply bind_ok in E. destruct E as (cs & e1 & E1 & E).
  apply bind_ok in E. destruct E as (l1 & e2 & E2 & E).
  apply bind_ok in E. destruct E as (l2 & e3 & E3 & E).
  apply ret_ok in E. destruct E as [-> ->].
  split; [reflexivity|]. split; [|reflexivity].
  cbv beta iota delta [named_parameters]. rewrite !pshapes_app.
  rewrite (conv_stack_ok _ _ _ E1), (Linear_init_ok _ _ _ _ _ _ E2),
    (Linear_init_ok _ _ _ _ _ _ E3).
  reflexivity.
Qed.

Lemma CriticCNN_init_ok action_dim e m e' :
  CriticCNN_init action_dim e = (Ok m, e') ->
  laid_out CriticCNN (CriticCNN_layout action_dim)
    (map (fun e => (fst e, shape (snd e))) bn_stack_buffers) m.
Proof.
  unfold CriticCNN_init. intro E.
  apply bind_ok in E. destruct E as (cs & e1 & E1 & E).
  apply bind_ok in E. destruct E as (l1 & e2 & E2 & E).
  apply bind_ok in E. destruct E as (l2 & e3 & E3 & E).
  apply bind_ok in E. destruct E as (l3 & e4 & E4 & E).
  apply ret_ok in E. destruct E as [-> ->].
  split; [reflexivity|]. split; [|reflexivity].
  cbv beta iota delta [named_parameters]. rewrite !pshapes_app.
  rewrite (conv_stack_ok _ _ _ E1), (Linear_init_ok _ _ _ _ _ _ E2),
    (Linear_init_ok _ _ _ _ _ _ E3), (Linear_init_ok _ _ _ _ _ _ E4).
  reflexivity.
Qed.

(** ** Loading the state dict of a module of the same layout *)

Lemma distinct_NoDup l : distinct l = true -> NoDup l.
Proof.
  induction l as [|k l IH]; simpl; intro H; [constructor|].
  apply andb_true_iff in H. destruct H as [H1 H2].
  constructor; [|apply IH; exact H2].
  intro Hin. apply negb_true_iff in H1.
  assert (existsb (String.eqb k) l = true); [|congruence].
  apply existsb_exists. exists k. split; [exact Hin | apply String.eqb_refl].
Qed.

Lemma alist_get_In {V} k (v : V) l :
  NoDup (keys l) -> In (k, v) l -> alist_get k l = Some v.
Proof.
  induction l as [|[k' v'] l IH]; simpl; intros Hnd Hin; [contradiction|].
  inversion Hnd as [|? ? Hni Hnd']; subst.
  destruct Hin as [H|H].
  - injection H as -> ->. rewrite String.eqb_refl. reflexivity.
  - destruct (String.eqb_spec k k') as [->|Hne].
    + exfalso. apply Hni. change k' with (fst (k', v)).
      apply in_map. exact H.
    + apply IH; assumption.
Qed.

Lemma has_key_In {V} k (l : list (string * V)) :
  In k (keys l) -> has_key k l = true.
Proof.
  unfold has_key. induction l as [|[k' v'] l IH]; simpl; [contradiction|].
  intros [H|H].
  - subst k'. rewrite String.eqb_refl. reflexivity.
  - destruct (String.eqb k k'); [reflexivity | apply IH; exact H].
Qed.

Lemma keys_pshapes ps : map fst (pshapes ps) = keys ps.
Proof. unfold pshapes, keys. rewrite map_map. reflexivity. Qed.

Lemma keys_bshapes m : map fst (bshapes m) = keys (named_buffers m).
Proof. unfold bshapes, keys. rewrite map_map. reflexivity. Qed.

Lemma keys_state_dict m :
  keys (state_dict m) = keys (named_parameters m) ++ keys (named_buffers m).
Proof.
  unfold state_dict, keys. rewrite map_app, !map_map. reflexivity.
Qed.

(** The parameters of [t] after its entries were loaded from [sd], when
    [sd] holds every parameter of the list [ps] under its name. *)
Lemma loaded_params sd ps ts :
  pshapes ts = pshapes ps ->
  (forall e, In e ps -> alist_get (fst e) sd = Some (detach (pdata (snd e)))) ->
  pweights (map (fun e => (fst e, mkParam (loaded sd (fst e) (pdata (snd e)))
                                          (grad (snd e)))) ts)
  = pweights ps
  /\ forallb (fun e => entry_ok sd (fst e) (pdata (snd e))) ts = true.
Proof.
  revert ps. induction ts as [|[n t] ts IH]; intros [|[n' p] ps] Hs Hsd;
    try discriminate; [split; reflexivity|].
  simpl in Hs. injection Hs as -> Hsh Hs.
  destruct (IH ps Hs) as [H1 H2].
  { intros e He. apply Hsd. right. exact He. }
  pose proof (Hsd (n', p) (or_introl eq_refl)) as Hg. simpl in Hg.
  assert (Hl : loaded sd n' (pdata t)
               = mkTensor (shape (pdata t)) (data (pdata p)) []).
  { unfold loaded. rewrite Hg. cbn [shape detach data].
    rewrite <- Hsh, shape_eqb_refl. reflexivity. }
  assert (Ho : entry_ok sd n' (pdata t) = true).
  { unfold entry_ok. rewrite Hg. cbn [shape detach].
    rewrite <- Hsh. apply shape_eqb_refl. }
  unfold pweights in *. cbn [map forallb fst snd pdata].
  rewrite Hl, Ho, H1, H2. cbn [shape data andb]. rewrite Hsh.
  split; reflexivity.
Qed.

Lemma loaded_buffers sd bs ts :
  map (fun e => (fst e, shape (snd e))) ts
  = map (fun e => (fst e, shape (snd e))) bs ->
  (forall e, In e bs -> alist_get (fst e) sd = Some (detach (snd e))) ->
  map (fun e => (fst e, shape (snd e), data (snd e)))
    (map (fun e => (fst e, loaded sd (fst e) (snd e))) ts)
  = map (fun e => (fst e, shape (snd e), data (snd e))) bs
  /\ forallb (fun e => entry_ok sd (fst e) (snd e)) ts = true.
Proof.
  revert bs. induction ts as [|[n t] ts IH]; intros [|[n' p] bs] Hs Hsd;
    try discriminate; [split; reflexivity|].
  simpl in Hs. injection Hs as -> Hsh Hs.
  destruct (IH bs Hs) as [H1 H2].
  { intros e He. apply Hsd. right. exact He. }
  pose proof (Hsd (n', p) (or_introl eq_refl)) as Hg. simpl in Hg.
  assert (Hl : loaded sd n' t = mkTensor (shape t) (data p) []).
  { unfold loaded. rewrite Hg. cbn [shape detach data].
    rewrite <- Hsh, shape_eqb_refl. reflexivity. }
  assert (Ho : entry_ok sd n' t = true).
  { unfold entry_ok. rewrite Hg. cbn [shape detach].
    rewrite <- Hsh. apply shape_eqb_refl. }
  cbn [map forallb fst snd].
  rewrite Hl, Ho, H1, H2. cbn [shape data andb]. rewrite Hsh.
  split; reflexivity.
Qed.

Lemma load_same_layout m t :
  pshapes (named_parameters t) = pshapes (named_parameters m) ->
  bshapes t = bshapes m ->
  NoDup (keys (state_dict m)) ->
  strict_ok (state_dict m) t = true
  /\ weights (load_entries (state_dict m) t) = weights m
  /\ bweights (load_entries (state_dict m) t) = bweights m.
Proof.
  intros Hp Hb Hnd.
  assert (Gp : forall e, In e (named_parameters m) ->
                 alist_get (fst e) (state_dict m)
                 = Some (detach (pdata (snd e)))).
  { intros e He. apply alist_get_In; [exact Hnd|].
    unfold state_dict. apply in_or_app. left.
    apply (in_map (fun e => (fst e, detach (pdata (snd e)))) _ _ He). }
  assert (Gb : forall e, In e (named_buffers m) ->
                 alist_get (fst e) (state_dict m) = Some (detach (snd e))).
  { intros e He. apply alist_get_In; [exact Hnd|].
    unfold state_dict. apply in_or_app. right.
    apply (in_map (fun e => (fst e, detach (snd e))) _ _ He). }
  destruct (loaded_params (state_dict m) _ _ Hp Gp) as [Wp Op].
  destruct (loaded_buffers (state_dict m) _ _ Hb Gb) as [Wb Ob].
  split; [|split; [exact Wp | exact Wb]].
  unfold strict_ok. rewrite Op, Ob. simpl.
  apply forallb_forall. intros [k v] Hin. simpl.
  apply orb_true_iff.
  assert (Hk : In k (keys (state_dict m)))
    by (change k with (fst (k, v)); apply in_map; exact Hin).
  rewrite keys_state_dict in Hk. apply in_app_or in Hk.
  destruct Hk as [Hk|Hk]; [left | right]; apply has_key_In.
  - rewrite <- keys_pshapes, Hp, keys_pshapes. exact Hk.
  - rewrite <- keys_bshapes, Hb, keys_bshapes. exact Hk.
Qed.

Lemma load_entries_layout c ps bs sd m :
  laid_out c ps bs m -> laid_out c ps bs (load_entries sd m).
Proof.
  intros (Hc & Hp & Hb). destruct (load_entries_frame sd m) as [S _].
  split; [rewrite (mstatic_cls _ _ S); exact Hc|].
  split; [rewrite (mstatic_pshapes _ _ S); exact Hp|].
  rewrite (mstatic_bshapes _ _ S). exact Hb.
Qed.

Lemma laid_out_NoDup c ps bs m :
  laid_out c ps bs m -> distinct (map fst ps ++ map fst bs) = true ->
  NoDup (keys (state_dict m)).
Proof.
  intros (_ & Hp & Hb) Hd. rewrite keys_state_dict.
  rewrite <- keys_pshapes, <- keys_bshapes, Hp, Hb.
  apply distinct_NoDup. exact Hd.
Qed.

Lemma load_state_dict_new_ok c ps bs m t sd' t' e e' :
  laid_out c ps bs m -> laid_out c ps bs t ->
  distinct (map fst ps ++ map fst bs) = true ->
  sd' = state_dict m ->
  load_state_dict_new t sd' e = (Ok t', e') ->
  weights t' = weights m /\ bweights t' = bweights m /\ laid_out c ps bs t'.
Proof.
  intros Hm Ht Hd -> E. unfold load_state_dict_new in E.
  destruct (load_same_layout m t) as (Hok & Hw & Hbw).
  - destruct Hm as (_ & -> & _). destruct Ht as (_ & -> & _). reflexivity.
  - destruct Hm as (_ & _ & ->). destruct Ht as (_ & _ & ->). reflexivity.
  - eapply laid_out_NoDup; eauto.
  - rewrite Hok in E. unfold ret in E. injection E as <- <-.
    split; [exact Hw|]. split; [exact Hbw|].
    apply load_entries_layout. exact Ht.
Qed.

(** ** The action of the visual policy *)

Lemma tape_within_self t : tape_within (map fst (tape t)) t.
Proof. intros l Hl. apply in_map. exact Hl. Qed.

Lemma ActorCNN_forward_full K who x dist angle w out w' :
  ActorCNN_forward K who x dist angle false w = (Ok out, w') ->
  exists raw w1 sq,
    ActorCNN_trunk K who x w = (Ok raw, w1)
    /\ ActorCNN_squash K (max_action (get_net who (self w))) raw = Ok sq
    /\ add_angle_control K sq dist angle = Ok out
    /\ w' = w1.
Proof.
  unfold ActorCNN_forward. simpl negb. cbv iota. intro E.
  apply bind_ok in E. destruct E as (sq & w2 & E1 & E2).
  apply bind_ok in E1. destruct E1 as (raw & w1 & Et & E1).
  apply bind_ok in E1. destruct E1 as (m & w3 & Em & E1).
  unfold read_net in Em. injection Em as <- <-.
  apply lift_ok in E1. destruct E1 as [Es ->].
  apply lift_ok in E2. destruct E2 as [Ea ->].
  exists raw, w1, sq. split; [exact Et|]. split; [|split; [exact Ea|reflexivity]].
  destruct (spec_ActorCNN_trunk K (fun _ => True) True_static
              [LBuffers who; LRng] who (map fst (tape x)) x)
    with (w := w) (r := Ok raw) (w' := w1)
    as [[S _] _]; simpl; auto using tape_within_self.
  rewrite (mstatic_max_action _ _ (static_net who _ _ S)). exact Es.
Qed.

Lemma ActorCNN_forward_run K who x dist angle w raw w1 sq out :
  ActorCNN_trunk K who x w = (Ok raw, w1) ->
  ActorCNN_squash K (max_action (get_net who (self w))) raw = Ok sq ->
  add_angle_control K sq dist angle = Ok out ->
  ActorCNN_forward K who x dist angle false w = (Ok out, w1).
Proof.
  intros Et Es Ea.
  destruct (spec_ActorCNN_trunk K (fun _ => True) True_static
              [LBuffers who; LRng] who (map fst (tape x)) x)
    with (w := w) (r := Ok raw) (w' := w1)
    as [[S _] _]; simpl; auto using tape_within_self.
  rewrite (mstatic_max_action _ _ (static_net who _ _ S)) in Es.
  unfold ActorCNN_forward. simpl negb. cbv iota.
  unfold bind at 1. unfold bind at 1. rewrite Et.
  unfold bind, read_net, lift. rewrite Es, Ea. reflexivity.
Qed.

(** The two columns of the action in full mode: the throttle, the answer of
    the controller for it, and the steering. *)
Lemma ActorCNN_forward_columns K who x dist angle w out w' :
  ActorCNN_forward K who x dist angle false w = (Ok out, w') ->
  exists raw b a throttle c c' l,
    ActorCNN_trunk K who x w = (Ok raw, w')
    /\ shape raw = [b; a] /\ shape out = [b; a] /\ shape throttle = [b]
    /\ (forall r, data throttle r
                  = round32
                      (1 / 2
                       + round32
                           (round32 (max_action (get_net who (self w)))
                            * round32 (sigm (data raw (r * a + 0)%Z)))))
    /\ (forall r, data out (r * a + 0)%Z = data throttle r)
    /\ angle_control_commands K (detach (squeeze dist))
         (detach (squeeze angle)) throttle = Ok c
    /\ fit K [b] (retape l c) = Ok c'
    /\ (forall r,
          data out (r * a + 1)%Z
          = round32 (round32 (tanh (data raw (r * a + 1)%Z)) + data c' r)).
Proof.
  intro E.
  apply ActorCNN_forward_full in E.
  destruct E as (raw & w1 & sq & Et & Es & Ea & ->).
  destruct (squash_ok K _ _ _ Es) as (b & a & Hs & Ha).
  destruct (squash_total K (max_action (get_net who (self w))) raw b a Hs Ha)
    as (sq' & Es' & Hsq & H0 & H1 & _).
  rewrite Es in Es'. injection Es' as <-.
  apply add_angle_control_ok in Ea.
  destruct Ea as (b' & a' & c & c' & Hs' & _ & Hc & Hf & Hso & Hst & Hrest).
  rewrite Hsq in Hs'. injection Hs' as <- <-.
  exists raw, b, a,
    (detach (mkTensor [b] (fun r => data sq (r * a + 0)%Z) (tape sq))), c, c'.
  eexists. split; [exact Et|]. split; [exact Hs|]. split; [exact Hso|].
  split; [reflexivity|]. split; [intro r; apply H0|].
  split; [intro r; apply (Hrest r 0%Z); lia|].
  split; [exact Hc|]. split; [exact Hf|].
  intro r. rewrite Hst, H1. reflexivity.
Qed.

(** A controller that answers one number per row has its answer added as
    it is. *)
Lemma fit_same K b l c c' :
  fit K [b] (retape l c) = Ok c' -> shape c = [b] ->
  forall r, data c' r = data c r.
Proof.
  intros Hf Hsc r. unfold fit in Hf. simpl in Hf.
  rewrite Hsc, shape_eqb_refl in Hf. injection Hf as <-. reflexivity.
Qed.

(** The float32 sum of a float32 number between -1 and 1 and another
    number: a float32 number that the other one exceeds by 1 is below the
    sum, and one that exceeds the other one by 1 is above it. *)
Lemma sum32_follows t c F :
  -1 <= t <= 1 -> float32 F -> Rabs c + 1 < overflow32 ->
  (F + 1 <= c -> F <= round32 (t + c))
  /\ (c <= F - 1 -> round32 (t + c) <= F).
Proof.
  intros Ht HF Hc.
  assert (Hx : Rabs (t + c) < overflow32).
  { revert Hc. unfold Rabs.
    destruct (Rcase_abs _), (Rcase_abs _); lra. }
  split; intro H.
  - apply round32_ge_float; [exact HF | exact Hx | lra].
  - apply round32_le_float; [exact HF | exact Hx | lra].
Qed.

(** C3. In full mode the throttle column of ActorCNN.forward is
    0.5 + max_action * sigmoid(throttle_raw) computed in float32, where
    throttle_raw is column 0 of the output of lin2: max_action is taken to
    float32, and the sigmoid, the product and the sum are each rounded.  For
    a max_action > 0 below the overflow of float32 the throttle lies between
    0.5 and the float32 sum of 0.5 and max_action, which is 1.5 for
    max_action = 1: it is never negative. *)
Theorem throttle_range K who x dist angle w out w' :
  0 < max_action (get_net who (self w)) < overflow32 ->
  ActorCNN_forward K who x dist angle false w = (Ok out, w') ->
  exists raw b a,
    ActorCNN_trunk K who x w = (Ok raw, w')
    /\ shape raw = [b; a] /\ shape out = [b; a]
    /\ (forall r,
          data out (r * a + 0)%Z
          = round32
              (1 / 2
               + round32
                   (round32 (max_action (get_net who (self w)))
                    * round32 (sigm (data raw (r * a + 0)%Z))))
          /\ 1 / 2 <= data out (r * a + 0)%Z
                   <= round32
                        (1 / 2 + round32 (max_action (get_net who (self w)))))
    /\ (max_action (get_net who (self w)) = 1 ->
        forall r, 1 / 2 <= data out (r * a + 0)%Z <= 3 / 2).
Proof.
  intros Hma E.
  destruct (ActorCNN_forward_columns K who x dist angle w out w' E)
    as (raw & b & a & th & c & c' & l & Et & Hs & Hso & _ & Hth & H0 & _).
  exists raw, b, a. split; [exact Et|]. split; [exact Hs|].
  split; [exact Hso|].
  assert (Hr : forall r,
             1 / 2 <= data out (r * a + 0)%Z
                   <= round32
                        (1 / 2 + round32 (max_action (get_net who (self w))))).
  { intro r. rewrite H0, Hth.
    exact (throttle32_range _ _ Hma (sigmoid32_range _)). }
  split.
  - intro r. split; [rewrite H0; apply Hth | apply Hr].
  - intros E1 r. pose proof (Hr r) as H. rewrite E1 in H.
    rewrite (round32_id 1 float32_1) in H.
    replace (1 / 2 + 1) with (3 / 2) in H by lra.
    rewrite (round32_id _ float32_3half) in H. exact H.
Qed.

Lemma throttle_range_witness :
  exists raw b a,
    ActorCNN_trunk demo_kernels Actor demo_obs (demo_world "cnn")
    = (Ok raw, snd demo_forward)
    /\ shape raw = [b; a] /\ shape (value_of demo_forward) = [b; a]
    /\ (forall r,
          data (value_of demo_forward) (r * a + 0)%Z
          = round32
              (1 / 2
               + round32
                   (round32
                      (max_action (get_net Actor (self (demo_world "cnn"))))
                    * round32 (sigm (data raw (r * a + 0)%Z))))
          /\ 1 / 2 <= data (value_of demo_forward) (r * a + 0)%Z
                   <= round32
                        (1 / 2
                         + round32
                             (max_action
                                (get_net Actor (self (demo_world "cnn"))))))
    /\ (max_action (get_net Actor (self (demo_world "cnn"))) = 1 ->
        forall r, 1 / 2 <= data (value_of demo_forward) (r * a + 0)%Z <= 3 / 2).
Proof.
  apply (throttle_range demo_kernels Actor demo_obs demo_dist demo_angle
           (demo_world "cnn") (value_of demo_forward) (snd demo_forward)).
  - assert (E : max_action (get_net Actor (self (demo_world "cnn"))) = 1)
      by (vm_compute; reflexivity).
    rewrite E. pose proof overflow32_gt. lra.
  - apply (succeeded_value demo_forward). vm_compute. reflexivity.
Defined.

(** The upper bound 0.5 + max_action fails in float32: on the agent built
    with max_action = 0.1, the output of lin2 for the demo observation is
    large enough for the float32 sigmoid to be 1, and the throttle is the
    float32 number 10066330 / 2^24 = 0.6000000238..., above 0.6. *)
Lemma throttle_exceeds_bound :
  succeeded demo_forward_tenth = true
  /\ max_action (get_net Actor (self demo_world_tenth)) = 1 / 10
  /\ shape (value_of demo_forward_tenth) = [1%Z; 2%Z]
  /\ data (value_of demo_forward_tenth) 0%Z = 10066330 / 16777216
  /\ 1 / 2 + max_action (get_net Actor (self demo_world_tenth))
     < data (value_of demo_forward_tenth) 0%Z.
Proof.
  assert (S : succeeded demo_forward_tenth = true)
    by (vm_compute; reflexivity).
  assert (Em : max_action (get_net Actor (self demo_world_tenth)) = 1 / 10)
    by (vm_compute; reflexivity).
  destruct (ActorCNN_forward_columns demo_kernels Actor demo_obs demo_dist
              demo_angle demo_world_tenth (value_of demo_forward_tenth)
              (snd demo_forward_tenth) (succeeded_value demo_forward_tenth S))
    as (raw & b & a & th & c & c' & l & Et & Hs & Hso & _ & Hth & H0 & _).
  assert (St : succeeded demo_trunk_tenth = true)
    by (vm_compute; reflexivity).
  destruct (run_inj _ _ _ _
              (eq_trans (eq_sym Et) (succeeded_value demo_trunk_tenth St)))
    as [Hraw _].
  assert (Hsh : shape (value_of demo_forward_tenth) = [1%Z; 2%Z])
    by (vm_compute; reflexivity).
  rewrite Hso in Hsh. injection Hsh as -> ->.
  assert (Hv : data (value_of demo_forward_tenth) 0%Z = 10066330 / 16777216).
  { pose proof (H0 0%Z) as H. change (0 * 2 + 0)%Z with 0%Z in H.
    rewrite H, Hth, Em, Hraw. change (0 * 2 + 0)%Z with 0%Z.
    rewrite sigmoid32_saturates by (vm_compute; lra).
    rewrite Rmult_1_r. rewrite (round32_id (round32 (1 / 10))).
    - rewrite round32_tenth. apply round32_half_tenth.
    - apply round32_float. apply small_below_overflow.
      rewrite Rabs_pos_eq; lra. }
  split; [exact S|]. split; [exact Em|]. split; [exact Hso|].
  split; [exact Hv|]. rewrite Hv, Em. lra.
Qed.




(** ** Construction *)

Lemma torch_load_ok path e sd e' :
  torch_load path e = (Ok sd, e') -> files (disk e) path = Some sd /\ e' = e.
Proof.
  unfold torch_load. destruct (files (disk e) path) as [s|]; [|discriminate].
  intro E. injection E as <- <-. split; reflexivity.
Qed.

Lemma disk_stable_bind {A B} (m : M Env A) (f : A -> M Env B) :
  disk_stable m -> (forall a, disk_stable (f a)) -> disk_stable (bind m f).
Proof.
  intros Hm Hf e r e' E. unfold bind in E.
  destruct (m e) as [[a|x] e1] eqn:Em.
  - rewrite (Hf a _ _ _ E). apply (Hm _ _ _ Em).
  - injection E as <- <-. apply (Hm _ _ _ Em).
Qed.

Lemma disk_stable_ret {A} (a : A) : disk_stable (ret a).
Proof. intros e r e' E. injection E as <- <-. reflexivity. Qed.

Lemma disk_stable_rand s : disk_stable (rand_tensor s).
Proof.
  intros e r e' E. unfold rand_tensor in E.
  destruct (forallb _ s); injection E as <- <-; reflexivity.
Qed.

Lemma disk_stable_Conv2d name cin cout k :
  disk_stable (Conv2d_init name cin cout k).
Proof.
  unfold Conv2d_init.
  repeat (apply disk_stable_bind; [apply disk_stable_rand | intro]).
  apply disk_stable_ret.
Qed.

Lemma disk_stable_Linear name fin fout :
  disk_stable (Linear_init name fin fout).
Proof.
  unfold Linear_init.
  repeat (apply disk_stable_bind; [apply disk_stable_rand | intro]).
  apply disk_stable_ret.
Qed.

Lemma disk_stable_conv_stack : disk_stable conv_stack.
Proof.
  unfold conv_stack.
  repeat (apply disk_stable_bind; [apply disk_stable_Conv2d | intro]).
  apply disk_stable_ret.
Qed.

Lemma disk_stable_ActorPID sd ad ma : disk_stable (ActorPID_init sd ad ma).
Proof.
  unfold ActorPID_init.
  repeat (apply disk_stable_bind; [apply disk_stable_Linear | intro]).
  apply disk_stable_ret.
Qed.

Lemma disk_stable_ActorCNN ad ma : disk_stable (ActorCNN_init ad ma).
Proof.
  unfold ActorCNN_init.
  apply disk_stable_bind; [apply disk_stable_conv_stack | intro].
  repeat (apply disk_stable_bind; [apply disk_stable_Linear | intro]).
  apply disk_stable_ret.
Qed.

Lemma disk_stable_CriticCNN ad : disk_stable (CriticCNN_init ad).
Proof.
  unfold CriticCNN_init.
  apply disk_stable_bind; [apply disk_stable_conv_stack | intro].
  repeat (apply disk_stable_bind; [apply disk_stable_Linear | intro]).
  apply disk_stable_ret.
Qed.

Lemma disk_stable_load m sd : disk_stable (load_state_dict_new m sd).
Proof.
  intros e r e' E. unfold load_state_dict_new in E.
  destruct (strict_ok sd m); injection E as <- <-; reflexivity.
Qed.

Lemma load_entries_from sd m :
  strict_ok sd m = true ->
  forall name sh d,
    In (name, sh, d) (weights (load_entries sd m)) ->
    exists t, alist_get name sd = Some t /\ shape t = sh /\ data t = d.
Proof.
  intros Hok name sh d Hin. unfold strict_ok in Hok.
  apply andb_true_iff in Hok. destruct Hok as [Hok _].
  apply andb_true_iff in Hok. destruct Hok as [Hok _].
  unfold weights, pweights, load_entries in Hin. cbn [named_parameters] in Hin.
  rewrite map_map in Hin. apply in_map_iff in Hin.
  destruct Hin as ([n p] & E & Hin). cbn [fst snd pdata] in E.
  rewrite forallb_forall in Hok. specialize (Hok _ Hin). cbn [fst snd] in Hok.
  unfold entry_ok in Hok. unfold loaded in E.
  destruct (alist_get n sd) as [t|] eqn:Eg; [|discriminate].
  rewrite Hok in E. cbn [shape data] in E. injection E as <- <- <-.
  exists t. split; [exact Eg|]. split; [|reflexivity].
  apply shape_eqb_eq. exact Hok.
Qed.

(** The two actors __init__ builds, with the flat flag of their branch. *)
Lemma init_actors state_dim action_dim max_action net_type e fl a t e' :
  (if String.eqb net_type "pid" then
     bind (ActorPID_init state_dim action_dim max_action) (fun a =>
     bind (ActorPID_init state_dim action_dim max_action) (fun t =>
     ret (false, a, t)))
   else
     bind (ActorCNN_init action_dim max_action) (fun a =>
     bind (ActorCNN_init action_dim max_action) (fun t =>
     ret (false, a, t)))) e = (Ok (fl, a, t), e') ->
  fl = false /\ disk e' = disk e
  /\ exists ps bs,
       laid_out (actor_class net_type) ps bs a
       /\ laid_out (actor_class net_type) ps bs t
       /\ distinct (map fst ps ++ map fst bs) = true.
Proof.
  unfold actor_class. destruct (String.eqb net_type "pid"); intro E.
  - pose proof E as E'.
    apply bind_ok in E. destruct E as (a0 & e1 & Ea & E).
    apply bind_ok in E. destruct E as (t0 & e2 & Et & E).
    apply ret_ok in E. destruct E as [E ->]. injection E as -> -> ->.
    split; [reflexivity|]. split.
    + rewrite (disk_stable_ActorPID _ _ _ _ _ _ Et).
      apply (disk_stable_ActorPID _ _ _ _ _ _ Ea).
    + exists (ActorPID_layout state_dim action_dim), [].
      split; [exact (ActorPID_init_ok _ _ _ _ _ _ Ea)|].
      split; [exact (ActorPID_init_ok _ _ _ _ _ _ Et)|].
      vm_compute. reflexivity.
  - apply bind_ok in E. destruct E as (a0 & e1 & Ea & E).
    apply bind_ok in E. destruct E as (t0 & e2 & Et & E).
    apply ret_ok in E. destruct E as [E ->]. injection E as -> -> ->.
    split; [reflexivity|]. split.
    + rewrite (disk_stable_ActorCNN _ _ _ _ _ Et).
      apply (disk_stable_ActorCNN _ _ _ _ _ Ea).
    + exists (ActorCNN_layout action_dim),
        (map (fun e => (fst e, shape (snd e))) bn_stack_buffers).
      split; [exact (ActorCNN_init_ok _ _ _ _ _ Ea)|].
      split; [exact (ActorCNN_init_ok _ _ _ _ _ Et)|].
      vm_compute. reflexivity.
Qed.

Lemma CriticCNN_distinct action_dim :
  distinct
    (map fst (CriticCNN_layout action_dim)
     ++ map fst (map (fun e => (fst e, shape (snd e))) bn_stack_buffers))
  = true.
Proof. vm_compute. reflexivity. Qed.

(** What __init__ returns. *)
Lemma DDPG_init_ok state_dim action_dim max_action net_type critic_chkp e a e' :
  DDPG_init state_dim action_dim max_action net_type critic_chkp e
  = (Ok a, e') ->
  Inv net_type a
  /\ weights (actor_target a) = weights (actor a)
  /\ bweights (actor_target a) = bweights (actor a)
  /\ weights (critic_target a) = weights (critic a)
  /\ bweights (critic_target a) = bweights (critic a)
  /\ match critic_chkp with
     | Some path =>
         if String.eqb path "" then True
         else exists sd,
                files (disk e) path = Some sd
                /\ forall name sh d,
                     In (name, sh, d) (weights (critic a)) ->
                     exists t, alist_get name sd = Some t
                               /\ shape t = sh /\ data t = d
     | None => True
     end.
Proof.
  unfold DDPG_init.
  destruct (negb (existsb (String.eqb net_type) ["cnn"; "pid"]));
    [discriminate|].
  intro E.
  apply bind_ok in E. destruct E as ([[fl a0] t0] & e1 & En & E).
  apply init_actors in En.
  destruct En as (-> & Hd1 & ps & bs & La & Lt & Hdist).
  cbn [fst snd] in E.
  apply bind_ok in E. destruct E as (at' & e2 & Eat & E).
  pose proof (disk_stable_load _ _ _ _ _ Eat) as Hd2.
  destruct (load_state_dict_new_ok _ _ _ _ _ _ _ _ _ La Lt Hdist eq_refl Eat)
    as (Wa & Ba & Lat).
  apply bind_ok in E. destruct E as (c0 & e3 & Ec0 & E).
  pose proof (disk_stable_CriticCNN _ _ _ _ Ec0) as Hd3.
  pose proof (CriticCNN_init_ok _ _ _ _ Ec0) as Lc0.
  apply bind_ok in E. destruct E as (c & e4 & Ec & E).
  apply bind_ok in E. destruct E as (ct0 & e5 & Ect0 & E).
  pose proof (CriticCNN_init_ok _ _ _ _ Ect0) as Lct0.
  apply bind_ok in E. destruct E as (ct & e6 & Ect & E).
  apply ret_ok in E. destruct E as [-> ->].
  assert (Hc : laid_out CriticCNN (CriticCNN_layout action_dim)
                 (map (fun e => (fst e, shape (snd e))) bn_stack_buffers) c
               /\ match critic_chkp with
                  | Some path =>
                      if String.eqb path "" then True
                      else exists sd,
                             files (disk e) path = Some sd
                             /\ forall name sh d,
                                  In (name, sh, d) (weights c) ->
                                  exists t, alist_get name sd = Some t
                                            /\ shape t = sh /\ data t = d
                  | None => True
                  end).
  { destruct critic_chkp as [path|].
    - destruct (String.eqb path "").
      + apply ret_ok in Ec. destruct Ec as [-> _]. split; [exact Lc0 | exact I].
      + apply bind_ok in Ec. destruct Ec as (sd & e3' & El & Ec).
        apply torch_load_ok in El. destruct El as [Hf ->].
        unfold load_state_dict_new in Ec.
        destruct (strict_ok sd c0) eqn:Hok; [|discriminate].
        apply ret_ok in Ec. destruct Ec as [-> _].
        split; [apply load_entries_layout; exact Lc0|].
        exists sd. split.
        * rewrite <- Hd1, <- Hd2, <- Hd3. exact Hf.
        * apply load_entries_from. exact Hok.
    - apply ret_ok in Ec. destruct Ec as [-> _]. split; [exact Lc0 | exact I]. }
  destruct Hc as [Lc Hchk].
  destruct (load_state_dict_new_ok _ _ _ _ _ _ _ _ _ Lc Lct0
              (CriticCNN_distinct action_dim) eq_refl Ect)
    as (Wc & Bc & Lct).
  split.
  { unfold Inv, wired, same_layout. cbn.
    split; [split; reflexivity|]. split; [reflexivity|].
    split; [apply La|]. split.
    - destruct La as (_ & -> & _). destruct Lat as (_ & -> & _). reflexivity.
    - destruct Lc as (_ & -> & _). destruct Lct as (_ & -> & _). reflexivity. }
  cbn [actor actor_target critic critic_target].
  split; [exact Wa|]. split; [exact Ba|]. split; [exact Wc|].
  split; [exact Bc | exact Hchk].
Qed.

(** C5. After DDPG.__init__ has returned, for either net_type and with or
    without a critic checkpoint, every parameter of actor_target equals the
    parameter of actor of the same name and place, and every parameter of
    critic_target equals that of critic; with a checkpoint, the parameters of
    critic (hence of critic_target) are the tensors stored in the
    checkpoint under their names. *)
Theorem target_initialization state_dim action_dim max_action net_type
    critic_chkp e a e' :
  DDPG_init state_dim action_dim max_action net_type critic_chkp e
  = (Ok a, e') ->
  weights (actor_target a) = weights (actor a)
  /\ weights (critic_target a) = weights (critic a)
  /\ match critic_chkp with
     | Some path =>
         if String.eqb path "" then True
         else exists sd,
                files (disk e) path = Some sd
                /\ forall name sh d,
                     In (name, sh, d) (weights (critic a)) ->
                     exists t, alist_get name sd = Some t
                               /\ shape t = sh /\ data t = d
     | None => True
     end.
Proof.
  intro E. apply DDPG_init_ok in E.
  destruct E as (_ & Wa & _ & Wc & _ & Hchk).
  split; [exact Wa|]. split; [exact Wc | exact Hchk].
Qed.

Lemma succeeded_init (r : result DDPG * Env) :
  succeeded r = true -> r = (Ok (self (world_of r)), env (world_of r)).
Proof.
  destruct r as [[a|x] e]; unfold succeeded; simpl;
    [reflexivity | discriminate].
Qed.

Lemma target_initialization_witness :
  weights (actor_target (self (world_of demo_init_chkp)))
  = weights (actor (self (world_of demo_init_chkp)))
  /\ weights (critic_target (self (world_of demo_init_chkp)))
     = weights (critic (self (world_of demo_init_chkp)))
  /\ exists sd,
       files (disk demo_saved_env) "models/ddpg_critic.pth" = Some sd
       /\ forall name sh d,
            In (name, sh, d) (weights (critic (self (world_of demo_init_chkp)))) ->
            exists t, alist_get name sd = Some t /\ shape t = sh /\ data t = d.
Proof.
  apply (target_initialization [3; 120; 160]%Z 2 1 "cnn"
           (Some "models/ddpg_critic.pth") demo_saved_env
           (self (world_of demo_init_chkp)) (env (world_of demo_init_chkp))).
  apply (succeeded_init demo_init_chkp). vm_compute. reflexivity.
Defined.

(** ** The states an agent can reach *)

Lemma Inv_static net_type a a' :
  static a = static a' -> Inv net_type a -> Inv net_type a'.
Proof.
  intros S (Hw & Hf & Hc & La & Lc).
  assert (Hw' : Wired (mkWorld a' (mkEnv (mkRng (fun _ => 0) 0%Z)
                                     (mkDisk (fun _ => None) (fun _ => true)) [])))
    by (apply (Wired_static (mkWorld a (mkEnv (mkRng (fun _ => 0) 0%Z)
                                     (mkDisk (fun _ => None) (fun _ => true)) [])));
        [exact S | exact Hw]).
  split; [exact Hw'|]. split.
  { unfold static in S. congruence. }
  split.
  { pose proof (mstatic_cls _ _ (static_net Actor _ _ S)) as Hx.
    simpl in Hx. congruence. }
  pose proof (mstatic_pshapes _ _ (static_net Actor _ _ S)) as P1.
  pose proof (mstatic_pshapes _ _ (static_net ActorTarget _ _ S)) as P2.
  pose proof (mstatic_pshapes _ _ (static_net Critic _ _ S)) as P3.
  pose proof (mstatic_pshapes _ _ (static_net CriticTarget _ _ S)) as P4.
  simpl in P1, P2, P3, P4. unfold same_layout in *.
  split; congruence.
Qed.

Lemma run_pair {A S} (m : M S A) (s : S) : m s = (fst (m s), snd (m s)).
Proof. apply surjective_pairing. Qed.

Lemma reachable_Inv K net_type w : reachable K net_type w -> Inv net_type (self w).
Proof.
  induction 1 as [sd ad ma chk e a e' E
                 | w st d an o _ IH
                 | w rb it bs disc tau _ IH
                 | w f d _ IH
                 | w f d _ IH
                 | w e _ IH].
  - apply DDPG_init_ok in E. apply E.
  - destruct (spec_predict K (fun _ => True) True_static
                [LBuffers Actor; LRng] st d an o)
      with (w := w) (r := fst (predict K st d an o w))
           (w' := snd (predict K st d an o w)) as [[S _] _];
      simpl; auto using run_pair.
    exact (Inv_static _ _ _ S IH).
  - destruct (spec_train K rb it bs disc tau)
      with (w := w) (r := fst (train K rb it bs disc tau w))
           (w' := snd (train K rb it bs disc tau w)) as [[S _] _];
      auto using run_pair.
    + apply IH.
    + exact (Inv_static _ _ _ S IH).
  - destruct (spec_save (fun _ => True) True_static [LDisk] f d)
      with (w := w) (r := fst (save f d w)) (w' := snd (save f d w))
      as [[S _] _]; simpl; auto using run_pair.
    exact (Inv_static _ _ _ S IH).
  - destruct (spec_load (fun _ => True) True_static f d)
      with (w := w) (r := fst (load f d w)) (w' := snd (load f d w))
      as [[S _] _]; simpl; auto using run_pair.
    exact (Inv_static _ _ _ S IH).
  - exact IH.
Qed.

(** C9. For an agent built with net_type "pid", predict never returns an
    action: it passes four arguments to ActorPID.forward, which takes three,
    so a call whose state has three channels ends in a TypeError (and a
    call with another state fails earlier); the agent is left as it was. *)
Theorem pid_predict_raises K w state dist angle only_pid :
  reachable K "pid" w ->
  exists x,
    predict K state dist angle only_pid w = (Raise x, w)
    /\ (shape0 state = Ok 3%Z -> x = TypeError).
Proof.
  intro Hr. apply reachable_Inv in Hr. destruct Hr as (_ & _ & Hc & _).
  unfold actor_class in Hc. simpl in Hc.
  unfold predict, bind, lift.
  destruct (shape0 state) as [c|x] eqn:Es.
  - destruct (Z.eqb_spec c 3) as [->|Hne]; simpl.
    + unfold call, bind, read_net, get. simpl. rewrite Hc.
      exists TypeError. split; [reflexivity | auto].
    + exists AssertionError. split; [reflexivity|].
      intro H. injection H as ->. contradiction.
  - exists x. split; [reflexivity|]. intro H. discriminate.
Qed.

Lemma demo_reachable net_type :
  succeeded (DDPG_init [3; 120; 160]%Z 2 1 net_type None demo_env) = true ->
  reachable demo_kernels net_type (demo_world net_type).
Proof.
  intro Hs. unfold demo_world.
  pose proof (succeeded_init _ Hs) as E.
  assert (Hw : world_of (DDPG_init [3; 120; 160]%Z 2 1 net_type None demo_env)
               = mkWorld
                   (self (world_of (DDPG_init [3; 120; 160]%Z 2 1 net_type None
                                      demo_env)))
                   (env (world_of (DDPG_init [3; 120; 160]%Z 2 1 net_type None
                                     demo_env))))
    by (destruct (world_of _); reflexivity).
  rewrite Hw. eapply reach_init. exact E.
Qed.

Lemma pid_predict_raises_witness :
  exists x,
    predict demo_kernels demo_state demo_dist demo_angle false
      (demo_world "pid") = (Raise x, demo_world "pid")
    /\ (shape0 demo_state = Ok 3%Z -> x = TypeError).
Proof.
  apply (pid_predict_raises demo_kernels (demo_world "pid") demo_state
           demo_dist demo_angle false).
  apply demo_reachable. vm_compute. reflexivity.
Defined.

(** ** One iteration of train *)






(** C6. In an iteration of train that returns, from its start [w]: the
    batch is sampled, the target Q value is computed from it, and the critic
    is updated (steps 1 to 3, ending in [wc]); over these three steps the
    values and the gradients of the actor's parameters stay as they were at
    [w].  The actor's optimization step that follows (step 4, from [wc] to
    [wa]) leaves the values of the critic's parameters as they were at [wc],
    and so do the soft updates that end the iteration.  The critic's
    optimization step starts by clearing every gradient held by the
    critic's parameters (at [wz], before its loss is back-propagated), so
    what the actor step of an earlier iteration has accumulated there does
    not enter a critic update. *)
Theorem gradient_isolation K net_type rb batch_size discount tau w w' :
  Inv net_type (self w) ->
  train_iteration K rb batch_size discount tau w = (Ok tt, w') ->
  exists sample target_Q wq current_Q critic_loss wf wz wc wa,
    rb ((batch_size, flat (self w)) :: sample_calls (env w)) = Ok sample
    /\ bootstrap_target K (detach (b_next_state sample))
         (detach (b_next_dist sample)) (detach (b_next_angle sample))
         (detach (rsub 1 (b_done sample))) (detach (b_reward sample))
         discount (sampled batch_size w) = (Ok target_Q, wq)
    /\ critic_update K sample (detach (b_state sample))
         (detach (b_action sample)) target_Q wq = (Ok tt, wc)
    /\ actor_update K sample (detach (b_state sample))
         (detach (b_dist sample)) (detach (b_angle sample)) wc = (Ok tt, wa)
    /\ soft_updates K tau wa = (Ok tt, w')
    /\ weights (actor (self wq)) = weights (actor (self w))
    /\ grads (actor (self wq)) = grads (actor (self w))
    /\ weights (actor (self wc)) = weights (actor (self w))
    /\ grads (actor (self wc)) = grads (actor (self w))
    /\ weights (critic (self wa)) = weights (critic (self wc))
    /\ weights (critic (self w')) = weights (critic (self wc))
    /\ call K Critic
         [PTensor (detach (b_state sample)); PTensor (detach (b_action sample))]
         wq = (Ok current_Q, wf)
    /\ via (tape_union (tape current_Q) (tape target_Q))
         (mse_loss K (detach current_Q) (detach target_Q)) = Ok critic_loss
    /\ zero_grad K CriticOptimizer wf = (Ok tt, wz)
    /\ Forall is_cleared (grads (critic (self wz)))
    /\ bind (backward K sample critic_loss)
         (fun _ => opt_step K CriticOptimizer) wz = (Ok tt, wc).
Proof.
  intros (Hw & _ & _ & La & Lc) E.
  apply train_iteration_ok in E. destruct E as (wa & Eg & Es).
  apply gradient_steps_ok in Eg.
  destruct Eg as (sample & target_Q & wq & wc & Er & Et & Ec & Ea).
  destruct (spec_bootstrap_target K Wired Wired_static target_footprint
              (detach (b_next_state sample)) (detach (b_next_dist sample))
              (detach (b_next_angle sample))
              (detach (rsub 1 (b_done sample))) (detach (b_reward sample))
              discount)
    with (w := sampled batch_size w) (r := Ok target_Q) (w' := wq)
    as [Agt _]; simpl; auto.
  assert (Hwq : Wired wq)
    by (apply (Wired_static (sampled batch_size w)); [apply Agt | exact Hw]).
  assert (Htq : tape target_Q = []).
  { destruct (bootstrap_target_ok K _ _ _ _ _ _ _ _ _ Et)
      as (_ & _ & _ & _ & _ & Htape & _). exact Htape. }
  destruct (spec_critic_update K critic_footprint sample
              (detach (b_state sample)) (detach (b_action sample)) target_Q)
    with (w := wq) (r := Ok tt) (w' := wc) as [Agc _];
    try reflexivity; auto.
  assert (Hwc : Wired wc)
    by (apply (Wired_static wq); [apply Agc | exact Hwq]).
  destruct (spec_actor_update K actor_footprint sample
              (detach (b_state sample)) (detach (b_dist sample))
              (detach (b_angle sample)))
    with (w := wc) (r := Ok tt) (w' := wa) as [Aga _];
    try reflexivity; auto.
  assert (Lwa : same_layout (critic (self wa)) (critic_target (self wa))
                /\ same_layout (actor (self wa)) (actor_target (self wa))).
  { assert (Ag : agree (target_footprint ++ critic_footprint ++ actor_footprint)
                   (sampled batch_size w) wa).
    { apply (agree_trans _ _ wq);
        [apply (agree_weaken target_footprint); [|exact Agt]|].
      - intros l Hl. apply in_or_app. left. exact Hl.
      - apply (agree_trans _ _ wc).
        + apply (agree_weaken critic_footprint); [|exact Agc].
          intros l Hl. apply in_or_app. right. apply in_or_app. left. exact Hl.
        + apply (agree_weaken actor_footprint); [|exact Aga].
          intros l Hl. apply in_or_app. right. apply in_or_app. right.
          exact Hl. }
    split.
    - exact (agree_layout _ Critic CriticTarget _ _ Ag Lc).
    - exact (agree_layout _ Actor ActorTarget _ _ Ag La). }
  destruct Lwa as [Lc' La'].
  destruct (soft_updates_mix K tau wa w' Lc' La' Es) as (Hsc & _).
  pose proof Ec as Ec'.
  apply critic_update_ok in Ec'.
  destruct Ec' as (current_Q & critic_loss & wf & Ef & El & Eo).
  assert (Hwf : Wired wf).
  { destruct (spec_call K Wired Wired_static [LBuffers Critic; LRng] Critic []
                [PTensor (detach (b_state sample));
                 PTensor (detach (b_action sample))])
      with (w := wq) (r := Ok current_Q) (w' := wf) as [[S _] _];
      simpl; auto.
    - intros t [H|[H|[]]]; injection H as <-; apply tape_within_nil;
        reflexivity.
    - apply (Wired_static wq); [exact S | exact Hwq]. }
  destruct (optimize_ok K CriticOptimizer sample critic_loss wf wc Hwf Eo)
    as (wz & Ez & Hcl & Erest).
  assert (Wq : weights (actor (self wq)) = weights (actor (self w))).
  { apply (agree_weights target_footprint Actor (sampled batch_size w) wq Agt).
    simpl. intuition discriminate. }
  assert (Gq : grads (actor (self wq)) = grads (actor (self w))).
  { apply (agree_grads target_footprint Actor (sampled batch_size w) wq Agt).
    simpl. intuition discriminate. }
  assert (Wc : weights (actor (self wc)) = weights (actor (self wq))).
  { apply (agree_weights critic_footprint Actor wq wc Agc).
    simpl. intuition discriminate. }
  assert (Gc : grads (actor (self wc)) = grads (actor (self wq))).
  { apply (agree_grads critic_footprint Actor wq wc Agc).
    simpl. intuition discriminate. }
  assert (Wa : weights (critic (self wa)) = weights (critic (self wc))).
  { apply (agree_weights actor_footprint Critic wc wa Aga).
    simpl. intuition discriminate. }
  exists sample, target_Q, wq, current_Q, critic_loss, wf, wz, wc, wa.
  split; [exact Er|]. split; [exact Et|].
  split; [exact Ec|]. split; [exact Ea|]. split; [exact Es|].
  split; [exact Wq|]. split; [exact Gq|].
  split; [rewrite Wc; exact Wq|]. split; [rewrite Gc; exact Gq|].
  split; [exact Wa|]. split; [rewrite Hsc; exact Wa|].
  split; [exact Ef|]. split; [exact El|].
  split; [exact Ez|]. split; [exact Hcl | exact Erest].
Qed.

Lemma gradient_isolation_witness :
  exists sample target_Q wq current_Q critic_loss wf wz wc wa,
    demo_buffer
      ((2%Z, flat (self (demo_world "cnn")))
         :: sample_calls (env (demo_world "cnn"))) = Ok sample
    /\ bootstrap_target demo_kernels (detach (b_next_state sample))
         (detach (b_next_dist sample)) (detach (b_next_angle sample))
         (detach (rsub 1 (b_done sample))) (detach (b_reward sample))
         (99 / 100) (sampled 2 (demo_world "cnn")) = (Ok target_Q, wq)
    /\ critic_update demo_kernels sample (detach (b_state sample))
         (detach (b_action sample)) target_Q wq = (Ok tt, wc)
    /\ actor_update demo_kernels sample (detach (b_state sample))
         (detach (b_dist sample)) (detach (b_angle sample)) wc = (Ok tt, wa)
    /\ soft_updates demo_kernels (1 / 1000) wa = (Ok tt, snd demo_iteration)
    /\ weights (actor (self wq)) = weights (actor (self (demo_world "cnn")))
    /\ grads (actor (self wq)) = grads (actor (self (demo_world "cnn")))
    /\ weights (actor (self wc)) = weights (actor (self (demo_world "cnn")))
    /\ grads (actor (self wc)) = grads (actor (self (demo_world "cnn")))
    /\ weights (critic (self wa)) = weights (critic (self wc))
    /\ weights (critic (self (snd demo_iteration))) = weights (critic (self wc))
    /\ call demo_kernels Critic
         [PTensor (detach (b_state sample)); PTensor (detach (b_action sample))]
         wq = (Ok current_Q, wf)
    /\ via (tape_union (tape current_Q) (tape target_Q))
         (mse_loss demo_kernels (detach current_Q) (detach target_Q))
       = Ok critic_loss
    /\ zero_grad demo_kernels CriticOptimizer wf = (Ok tt, wz)
    /\ Forall is_cleared (grads (critic (self wz)))
    /\ bind (backward demo_kernels sample critic_loss)
         (fun _ => opt_step demo_kernels CriticOptimizer) wz = (Ok tt, wc).
Proof.
  apply (gradient_isolation demo_kernels "cnn" demo_buffer 2 (99 / 100)
           (1 / 1000) (demo_world "cnn") (snd demo_iteration)).
  - apply (reachable_Inv demo_kernels), demo_reachable.
    vm_compute. reflexivity.
  - apply (succeeded_unit demo_iteration). vm_compute. reflexivity.
Defined.

(** ** What the forward pass of a BatchNorm2d layer writes *)

Section BatchNorm.
Variable K : Kernels.

Lemma param_run who name w r w' : param who name w = (r, w') -> w' = w.
Proof.
  unfold param, bind, read_net.
  destruct (alist_get name _); intro E; injection E as _ <-; reflexivity.
Qed.

Lemma buffer_run who name w r w' : buffer who name w = (r, w') -> w' = w.
Proof.
  unfold buffer, bind, read_net.
  destruct (alist_get name _); intro E; injection E as _ <-; reflexivity.
Qed.

Lemma buffer_ok who name w t w' :
  buffer who name w = (Ok t, w') ->
  exists old, alist_get name (named_buffers (get_net who (self w))) = Some old
              /\ t = detach old.
Proof.
  unfold buffer, bind, read_net.
  destruct (alist_get name _) as [old|]; [|discriminate].
  intro E. injection E as <- _. exists old. split; reflexivity.
Qed.

Lemma Conv2d_run who name stride x w r w' :
  Conv2d_forward K who name stride x w = (r, w') -> w' = w.
Proof.
  unfold Conv2d_forward. intro E.
  apply bind_run in E. destruct E as [(a & w1 & E1 & E)|(e & E1 & _)];
    [|exact (param_run _ _ _ _ _ E1)].
  apply param_run in E1. subst w1.
  apply bind_run in E. destruct E as [(b & w1 & E1 & E)|(e & E1 & _)];
    [|exact (param_run _ _ _ _ _ E1)].
  apply param_run in E1. subst w1.
  unfold lift in E. injection E as _ <-. reflexivity.
Qed.

Lemma Linear_run who name x w r w' :
  Linear_forward K who name x w = (r, w') -> w' = w.
Proof.
  unfold Linear_forward. intro E.
  apply bind_run in E. destruct E as [(a & w1 & E1 & E)|(e & E1 & _)];
    [|exact (param_run _ _ _ _ _ E1)].
  apply param_run in E1. subst w1.
  apply bind_run in E. destruct E as [(b & w1 & E1 & E)|(e & E1 & _)];
    [|exact (param_run _ _ _ _ _ E1)].
  apply param_run in E1. subst w1.
  unfold lift in E. injection E as _ <-. reflexivity.
Qed.

Lemma Dropout_run who x w r w' :
  Dropout_forward who x w = (r, w') -> self w' = self w.
Proof.
  unfold Dropout_forward, bind, read_net.
  destruct (training (get_net who (self w))).
  - unfold liftE, draw_mask. intro E. injection E as _ <-. reflexivity.
  - unfold ret. intro E. injection E as _ <-. reflexivity.
Qed.

Lemma get_set_net who m a : get_net who (set_net who m a) = m.
Proof. destruct who; reflexivity. Qed.

Lemma set_buffer_ok who name t w w' :
  set_buffer who name t w = (Ok tt, w') ->
  exists old,
    alist_get name (named_buffers (get_net who (self w))) = Some old
    /\ named_buffers (get_net who (self w'))
       = alist_set name (mkTensor (shape old) (data t) [])
           (named_buffers (get_net who (self w)))
    /\ training (get_net who (self w')) = training (get_net who (self w)).
Proof.
  unfold set_buffer, bind, read_net, write_net.
  destruct (alist_get name _) as [old|]; [|discriminate].
  intro E. injection E as <-. exists old. cbn [self].
  rewrite get_set_net. repeat split; reflexivity.
Qed.

(** In training mode the layer [name] adds one to its counter and writes its
    two running statistics; it leaves every other buffer as it was. *)
Lemma BatchNorm2d_run who name x w y w' :
  training (get_net who (self w)) = true ->
  BatchNorm2d_forward K who name x w = (Ok y, w') ->
  training (get_net who (self w')) = true
  /\ incremented (num_batches_tracked name (get_net who (self w)))
       (num_batches_tracked name (get_net who (self w')))
  /\ forall key,
       key <> (name ++ ".running_mean")%string ->
       key <> (name ++ ".running_var")%string ->
       key <> (name ++ ".num_batches_tracked")%string ->
       alist_get key (named_buffers (get_net who (self w')))
       = alist_get key (named_buffers (get_net who (self w))).
Proof.
  intros Ht E. unfold BatchNorm2d_forward in E.
  apply bind_ok in E. destruct E as (m & w0 & Em & E).
  unfold read_net in Em. injection Em as <- <-.
  apply bind_ok in E. destruct E as (wt & w0 & E0 & E).
  apply param_run in E0. subst w0.
  apply bind_ok in E. destruct E as (b & w0 & E0 & E).
  apply param_run in E0. subst w0.
  apply bind_ok in E. destruct E as (rm & w0 & E0 & E).
  apply buffer_run in E0. subst w0.
  apply bind_ok in E. destruct E as (rv & w0 & E0 & E).
  apply buffer_run in E0. subst w0.
  rewrite Ht in E.
  apply bind_ok in E. destruct E as (n & w0 & En & E).
  pose proof (buffer_run _ _ _ _ _ En). subst w0.
  apply buffer_ok in En. destruct En as (old & Hold & ->).
  apply bind_ok in E. destruct E as ([] & w1 & E1 & E).
  apply set_buffer_ok in E1. destruct E1 as (old1 & Ho1 & B1 & T1).
  rewrite Hold in Ho1. injection Ho1 as <-.
  apply bind_ok in E. destruct E as (r & w1' & El & E).
  apply lift_ok in El. destruct El as [_ ->].
  apply bind_ok in E. destruct E as ([] & w2 & E2 & E).
  apply set_buffer_ok in E2. destruct E2 as (old2 & Ho2 & B2 & T2).
  apply bind_ok in E. destruct E as ([] & w3 & E3 & E).
  apply set_buffer_ok in E3. destruct E3 as (old3 & Ho3 & B3 & T3).
  apply ret_ok in E. destruct E as [_ ->].
  assert (N1 : (name ++ ".running_mean")%string
               <> (name ++ ".num_batches_tracked")%string)
    by (intro H; apply append_inj_l in H; discriminate).
  assert (N2 : (name ++ ".running_var")%string
               <> (name ++ ".num_batches_tracked")%string)
    by (intro H; apply append_inj_l in H; discriminate).
  split; [congruence|]. split.
  - unfold num_batches_tracked, incremented. rewrite Hold, B3, B2, B1.
    rewrite (alist_get_set_other _ _ _ _ N2), (alist_get_set_other _ _ _ _ N1).
    rewrite (alist_get_set_same _ _ _ (has_key_get _ _ _ Hold)).
    cbn [shape data sadd tmap detach]. split; [reflexivity|].
    intro i. reflexivity.
  - intros key K1 K2 K3. rewrite B3, B2, B1.
    rewrite !alist_get_set_other by congruence. reflexivity.
Qed.
End BatchNorm.


(** The other layers leave a counter as it is. *)
Lemma counter_kept K who name other x w y w' :
  training (get_net who (self w)) = true ->
  BatchNorm2d_forward K who other x w = (Ok y, w') ->
  (name ++ ".num_batches_tracked")%string <> (other ++ ".running_mean")%string ->
  (name ++ ".num_batches_tracked")%string <> (other ++ ".running_var")%string ->
  (name ++ ".num_batches_tracked")%string
  <> (other ++ ".num_batches_tracked")%string ->
  num_batches_tracked name (get_net who (self w'))
  = num_batches_tracked name (get_net who (self w)).
Proof.
  intros Ht E N1 N2 N3.
  destruct (BatchNorm2d_run K who other x w y w' Ht E) as (_ & _ & Hk).
  unfold num_batches_tracked. apply Hk; assumption.
Qed.

(** The trunk of ActorCNN in training mode: each of its four BatchNorm2d
    layers has counted one more batch. *)
Lemma trunk_counters K who x w raw w' :
  training (get_net who (self w)) = true ->
  ActorCNN_trunk K who x w = (Ok raw, w') ->
  forall name, In name ["bn1"; "bn2"; "bn3"; "bn4"] ->
    incremented (num_batches_tracked name (get_net who (self w)))
      (num_batches_tracked name (get_net who (self w'))).
Proof.
  intros Ht E. unfold ActorCNN_trunk in E.
  apply bind_ok in E. destruct E as (x1 & v & Ec & E).
  apply Conv2d_run in Ec. subst v.
  apply bind_ok in E. destruct E as (y1 & w1 & B1 & E).
  apply bind_ok in E. destruct E as (x2 & v & Ec & E).
  apply Conv2d_run in Ec. subst v.
  apply bind_ok in E. destruct E as (y2 & w2 & B2 & E).
  apply bind_ok in E. destruct E as (x3 & v & Ec & E).
  apply Conv2d_run in Ec. subst v.
  apply bind_ok in E. destruct E as (y3 & w3 & B3 & E).
  apply bind_ok in E. destruct E as (x4 & v & Ec & E).
  apply Conv2d_run in Ec. subst v.
  apply bind_ok in E. destruct E as (y4 & w4 & B4 & E).
  apply bind_ok in E. destruct E as (x5 & v & Ev & E).
  apply lift_ok in Ev. destruct Ev as [_ ->].
  apply bind_ok in E. destruct E as (x6 & w5 & Ed & E).
  apply Dropout_run in Ed.
  apply bind_ok in E. destruct E as (x7 & v & El & E).
  apply Linear_run in El. subst v.
  apply Linear_run in E. subst w'. rewrite Ed.
  destruct (BatchNorm2d_run K who "bn1" _ w y1 w1 Ht B1) as (T1 & I1 & _).
  destruct (BatchNorm2d_run K who "bn2" _ w1 y2 w2 T1 B2) as (T2 & I2 & _).
  destruct (BatchNorm2d_run K who "bn3" _ w2 y3 w3 T2 B3) as (T3 & I3 & _).
  destruct (BatchNorm2d_run K who "bn4" _ w3 y4 w4 T3 B4) as (_ & I4 & _).
  intros name [<-|[<-|[<-|[<-|[]]]]].
  - rewrite (counter_kept K who "bn1" "bn4" _ w3 y4 w4 T3 B4) by names_differ.
    rewrite (counter_kept K who "bn1" "bn3" _ w2 y3 w3 T2 B3) by names_differ.
    rewrite (counter_kept K who "bn1" "bn2" _ w1 y2 w2 T1 B2) by names_differ.
    exact I1.
  - rewrite (counter_kept K who "bn2" "bn4" _ w3 y4 w4 T3 B4) by names_differ.
    rewrite (counter_kept K who "bn2" "bn3" _ w2 y3 w3 T2 B3) by names_differ.
    rewrite <- (counter_kept K who "bn2" "bn1" _ w y1 w1 Ht B1) by names_differ.
    exact I2.
  - rewrite (counter_kept K who "bn3" "bn4" _ w3 y4 w4 T3 B4) by names_differ.
    rewrite <- (counter_kept K who "bn3" "bn1" _ w y1 w1 Ht B1) by names_differ.
    rewrite <- (counter_kept K who "bn3" "bn2" _ w1 y2 w2 T1 B2) by names_differ.
    exact I3.
  - rewrite <- (counter_kept K who "bn4" "bn1" _ w y1 w1 Ht B1) by names_differ.
    rewrite <- (counter_kept K who "bn4" "bn2" _ w1 y2 w2 T1 B2) by names_differ.
    rewrite <- (counter_kept K who "bn4" "bn3" _ w2 y3 w3 T2 B3) by names_differ.
    exact I4.
Qed.

(** ** predict *)

Lemma predict_ok K state dist angle only_pid w out w' :
  predict K state dist angle only_pid w = (Ok out, w') ->
  shape0 state = Ok 3%Z
  /\ exists a,
       call K Actor
         [PTensor (state_tensor (flat (self w)) state); PTensor (detach dist);
          PTensor (detach angle); PBool only_pid] w = (Ok a, w')
       /\ out = flatten (detach a).
Proof.
  unfold predict. intro E.
  apply bind_ok in E. destruct E as (c & w0 & Ec & E).
  apply lift_ok in Ec. destruct Ec as [Ec ->].
  destruct (Z.eqb_spec c 3) as [->|Hne]; simpl in E; [|discriminate].
  apply bind_ok in E. destruct E as (w1 & w1' & Eg & E).
  unfold get in Eg. injection Eg as <- <-.
  apply bind_ok in E. destruct E as (a & w2 & Ea & E).
  apply ret_ok in E. destruct E as [-> ->].
  split; [exact Ec|]. exists a. split; [exact Ea | reflexivity].
Qed.

(** C7, as the code has it.  predict asserts that the state has three
    channels, calls the live actor and returns its action, detached and
    flattened to one axis.  It changes no parameter and no gradient of any
    network, no buffer of the critic or of the targets, no optimizer and no
    file.  It does not switch the actor to evaluation mode and does not
    disable gradient tracking: an actor of class ActorCNN that is in training
    mode, called in full mode, counts one more batch in each of its four
    BatchNorm2d layers. *)
Theorem predict_frame K state dist angle only_pid w out w' :
  predict K state dist angle only_pid w = (Ok out, w') ->
  shape0 state = Ok 3%Z
  /\ (exists a,
        call K Actor
          [PTensor (state_tensor (flat (self w)) state); PTensor (detach dist);
           PTensor (detach angle); PBool only_pid] w = (Ok a, w')
        /\ out = flatten (detach a))
  /\ tape out = [] /\ (exists n, shape out = [n])
  /\ agree [LBuffers Actor; LRng] w w'
  /\ (forall who, weights (get_net who (self w'))
                  = weights (get_net who (self w))
                  /\ grads (get_net who (self w'))
                     = grads (get_net who (self w)))
  /\ (cls (actor (self w)) = ActorCNN -> training (actor (self w)) = true ->
      only_pid = false ->
      forall name, In name ["bn1"; "bn2"; "bn3"; "bn4"] ->
        incremented (num_batches_tracked name (actor (self w)))
          (num_batches_tracked name (actor (self w')))).
Proof.
  intro E.
  destruct (spec_predict K (fun _ => True) True_static [LBuffers Actor; LRng]
              state dist angle only_pid)
    with (w := w) (r := Ok out) (w' := w') as [Ag Hq]; simpl; auto.
  destruct (predict_ok K _ _ _ _ _ _ _ E) as (Hc & a & Ea & ->).
  split; [exact Hc|]. split; [exists a; split; [exact Ea | reflexivity]|].
  split; [reflexivity|]. split; [eexists; reflexivity|].
  split; [exact Ag|]. split.
  - intro who. split.
    + apply (agree_weights _ who w w' Ag). simpl. intuition discriminate.
    + apply (agree_grads _ who w w' Ag). simpl. intuition discriminate.
  - intros Hcls Htr -> name Hin.
    unfold call in Ea. apply bind_ok in Ea. destruct Ea as (m & w0 & Em & Ea).
    unfold read_net in Em. injection Em as <- <-.
    cbn [get_net] in Ea. rewrite Hcls in Ea.
    apply ActorCNN_forward_full in Ea.
    destruct Ea as (raw & w1 & sq & Et & _ & _ & ->).
    exact (trunk_counters K Actor _ w raw w1 Htr Et name Hin).
Qed.

Lemma predict_frame_witness :
  shape0 demo_state = Ok 3%Z
  /\ (exists a,
        call demo_kernels Actor
          [PTensor (state_tensor (flat (self (demo_world "cnn"))) demo_state);
           PTensor (detach demo_dist); PTensor (detach demo_angle);
           PBool false] (demo_world "cnn") = (Ok a, snd demo_predict)
        /\ value_of demo_predict = flatten (detach a))
  /\ tape (value_of demo_predict) = []
  /\ (exists n, shape (value_of demo_predict) = [n])
  /\ agree [LBuffers Actor; LRng] (demo_world "cnn") (snd demo_predict)
  /\ (forall who, weights (get_net who (self (snd demo_predict)))
                  = weights (get_net who (self (demo_world "cnn")))
                  /\ grads (get_net who (self (snd demo_predict)))
                     = grads (get_net who (self (demo_world "cnn"))))
  /\ (cls (actor (self (demo_world "cnn"))) = ActorCNN ->
      training (actor (self (demo_world "cnn"))) = true ->
      false = false ->
      forall name, In name ["bn1"; "bn2"; "bn3"; "bn4"] ->
        incremented
          (num_batches_tracked name (actor (self (demo_world "cnn"))))
          (num_batches_tracked name (actor (self (snd demo_predict))))).
Proof.
  apply (predict_frame demo_kernels demo_state demo_dist demo_angle false
           (demo_world "cnn") (value_of demo_predict) (snd demo_predict)).
  apply (succeeded_value demo_predict). vm_compute. reflexivity.
Defined.

(** C7 as the claim words it fails: on the demo agent, as __init__ leaves
    it, a call of predict with a three-channel state returns, the actor is in
    training mode, the action it computes carries an autograd tape, and the
    buffers of the actor are not what they were (the counter of bn1 went
    from 0 to 1). *)
Lemma predict_mutates_buffers :
  succeeded demo_predict = true
  /\ shape0 demo_state = Ok 3%Z
  /\ training (actor (self (demo_world "cnn"))) = true
  /\ tape (value_of
             (call demo_kernels Actor
                [PTensor (state_tensor false demo_state);
                 PTensor (detach demo_dist); PTensor (detach demo_angle);
                 PBool false] (demo_world "cnn"))) <> []
  /\ buffer_entry 2 (buffer_values (actor (self (demo_world "cnn")))) = 0
  /\ buffer_entry 2 (buffer_values (actor (self (snd demo_predict)))) = 1
  /\ buffer_values (actor (self (snd demo_predict)))
     <> buffer_values (actor (self (demo_world "cnn"))).
Proof.
  assert (B0 : buffer_entry 2 (buffer_values (actor (self (demo_world "cnn"))))
               = 0) by (vm_compute; reflexivity).
  assert (B1 : buffer_entry 2 (buffer_values (actor (self (snd demo_predict))))
               = 1) by (vm_compute; lra).
  split; [vm_compute; reflexivity|]. split; [reflexivity|].
  split; [vm_compute; reflexivity|]. split; [names_differ|].
  split; [exact B0|]. split; [exact B1|].
  intro H. rewrite H in B1. rewrite B0 in B1. lra.
Qed.

(** ** The flat flag *)


Lemma gradient_steps_calls K rb bs discount w r w' :
  Wired w ->
  gradient_steps K rb bs discount w = (r, w') ->
  agree update_footprint (sampled bs w) w'.
Proof.
  intros Hw E. unfold gradient_steps in E.
  unfold bind at 1 in E. unfold get in E.
  unfold bind at 1 in E. unfold liftE, rb_sample in E. cbn [env self] in E.
  destruct (rb ((bs, flat (self w)) :: sample_calls (env w))) as [sample|x].
  - fold (sampled bs w) in E.
    destruct (spec_update_networks K update_footprint sample discount)
      with (w := sampled bs w) (r := r) (w' := w') as [Ag _]; auto.
    intros l Hl. unfold update_footprint.
    apply in_app_or in Hl. apply in_or_app. destruct Hl as [Hl|Hl]; [left; exact Hl|].
    right. apply in_app_or in Hl. apply in_or_app.
    destruct Hl as [Hl|Hl]; [left; exact Hl|].
    right. apply in_or_app. left. exact Hl.
  - injection E as <- <-. apply agree_refl.
Qed.

Lemma train_iteration_calls K rb bs discount tau w r w' :
  Wired w ->
  train_iteration K rb bs discount tau w = (r, w') ->
  sample_calls (env w') = (bs, flat (self w)) :: sample_calls (env w)
  /\ static (self w') = static (self w).
Proof.
  intros Hw E. unfold train_iteration in E.
  assert (Ag : agree update_footprint (sampled bs w) w').
  { apply bind_run in E. destruct E as [(a & w1 & Eg & Es)|(x & Eg & _)].
    - pose proof (gradient_steps_calls K rb bs discount w _ _ Hw Eg) as Ag1.
      assert (Hw1 : Wired w1).
      { apply (Wired_static (sampled bs w)); [apply Ag1 | exact Hw]. }
      destruct (spec_soft_updates K Wired Wired_static update_footprint tau)
        with (w := w1) (r := r) (w' := w') as [Ag2 _]; auto.
      + unfold update_footprint. apply in_or_app. right. apply in_or_app.
        right. apply in_or_app. right. simpl. auto.
      + unfold update_footprint. apply in_or_app. right. apply in_or_app.
        right. apply in_or_app. right. simpl. auto.
      + eapply agree_trans; eauto.
    - exact (gradient_steps_calls K rb bs discount w _ _ Hw Eg). }
  destruct Ag as [S H]. split.
  - symmetry. apply (H LCalls). unfold update_footprint. simpl.
    intuition discriminate.
  - symmetry. exact S.
Qed.

Lemma static_flat a a' : static a = static a' -> flat a = flat a'.
Proof. unfold static. intro E. congruence. Qed.

Lemma train_loop_calls K n rb bs discount tau w r w' :
  Wired w -> flat (self w) = false ->
  train_loop K n rb bs discount tau w = (r, w') ->
  exists calls,
    sample_calls (env w') = calls ++ sample_calls (env w)
    /\ Forall (fun c => c = (bs, false)) calls.
Proof.
  revert w r w'. induction n as [|n IH]; intros w r w' Hw Hf E.
  - simpl in E. injection E as <- <-. exists []. split; [reflexivity|constructor].
  - simpl in E. apply bind_run in E.
    destruct E as [(a & w1 & Ei & El)|(x & Ei & _)].
    + destruct (train_iteration_calls K rb bs discount tau w _ _ Hw Ei)
        as [Hc S].
      assert (Hw1 : Wired w1)
        by (apply (Wired_static w); [symmetry; exact S | exact Hw]).
      assert (Hf1 : flat (self w1) = false)
        by (rewrite (static_flat _ _ S); exact Hf).
      destruct (IH w1 r w' Hw1 Hf1 El) as (calls & Hc' & Hall).
      exists (calls ++ [(bs, false)]). split.
      * rewrite Hc', Hc, Hf, <- app_assoc. reflexivity.
      * apply Forall_app. split; [exact Hall|]. repeat constructor.
    + destruct (train_iteration_calls K rb bs discount tau w _ _ Hw Ei)
        as [Hc _].
      exists [(bs, false)]. split.
      * rewrite Hc, Hf. reflexivity.
      * repeat constructor.
Qed.

(** C10. The flat flag of an agent is False after __init__, in either
    branch, and no method changes it: predict hands the actor the state with
    one axis added in front (the reshaping branch is not taken), and every
    call of replay_buffer.sample made by train passes flat=False, with the
    batch size train was given. *)
Theorem flat_never_set K net_type w :
  reachable K net_type w ->
  flat (self w) = false
  /\ (forall state,
        state_tensor (flat (self w)) state = detach (expand_dims0 state))
  /\ (forall rb iterations batch_size discount tau,
        exists calls,
          sample_calls
            (env (snd (train K rb iterations batch_size discount tau w)))
          = calls ++ sample_calls (env w)
          /\ Forall (fun c => c = (batch_size, false)) calls).
Proof.
  intro Hr. apply reachable_Inv in Hr. destruct Hr as (Hw & Hf & _).
  split; [exact Hf|]. split.
  - intro state. rewrite Hf. reflexivity.
  - intros rb iterations batch_size discount tau.
    apply (train_loop_calls K (Z.to_nat iterations) rb batch_size discount tau
             w (fst (train K rb iterations batch_size discount tau w)));
      [exact Hw | exact Hf | apply run_pair].
Qed.

Lemma flat_never_set_witness :
  flat (self (demo_world "cnn")) = false
  /\ (forall state,
        state_tensor (flat (self (demo_world "cnn"))) state
        = detach (expand_dims0 state))
  /\ (forall rb iterations batch_size discount tau,
        exists calls,
          sample_calls
            (env (snd (train demo_kernels rb iterations batch_size discount tau
                         (demo_world "cnn"))))
          = calls ++ sample_calls (env (demo_world "cnn"))
          /\ Forall (fun c => c = (batch_size, false)) calls).
Proof.
  apply (flat_never_set demo_kernels "cnn" (demo_world "cnn")).
  apply demo_reachable. vm_compute. reflexivity.
Defined.

(** ** Checkpoints *)


Lemma paths_differ filename directory :
  actor_path filename directory <> critic_path filename directory.
Proof.
  unfold actor_path, critic_path. intro E.
  apply append_inj_l in E. apply append_inj_l in E. apply append_inj_l in E.
  discriminate.
Qed.

Lemma torch_save_run sd path e r e' :
  torch_save sd path e = (r, e') ->
  (r = Ok tt
   /\ files (disk e') path = Some sd
   /\ forall p, p <> path -> files (disk e') p = files (disk e) p)
  \/ (exists x, r = Raise x /\ e' = e).
Proof.
  unfold torch_save. destruct (writable (disk e) path); intro E;
    injection E as <- <-.
  - left. split; [reflexivity|]. cbn [disk files]. split.
    + rewrite String.eqb_refl. reflexivity.
    + intros p Hp. destruct (String.eqb_spec p path); [contradiction|].
      reflexivity.
  - right. exists FileNotFoundError. split; reflexivity.
Qed.

Lemma save_ok filename directory w w' :
  save filename directory w = (Ok tt, w') ->
  files (disk (env w')) (actor_path filename directory)
  = Some (state_dict (actor (self w)))
  /\ files (disk (env w')) (critic_path filename directory)
     = Some (state_dict (critic (self w)))
  /\ (forall p, p <> actor_path filename directory ->
                p <> critic_path filename directory ->
                files (disk (env w')) p = files (disk (env w)) p)
  /\ self w' = self w.
Proof.
  unfold save. intro E.
  apply bind_ok in E. destruct E as (w0 & w0' & Eg & E).
  unfold get in Eg. injection Eg as <- <-.
  apply bind_ok in E. destruct E as ([] & w1 & E1 & E).
  apply bind_ok in E. destruct E as (w2 & w2' & Eg & E).
  unfold get in Eg. injection Eg as <- <-.
  unfold liftE in E1, E.
  destruct (torch_save _ _ (env w)) as [r1 e1] eqn:T1.
  injection E1 as -> <-.
  cbn [env self] in E.
  destruct (torch_save _ _ e1) as [r2 e2] eqn:T2.
  injection E as -> <-. cbn [env self].
  apply torch_save_run in T1. apply torch_save_run in T2.
  destruct T1 as [(_ & F1 & O1)|(x & Hx & _)]; [|discriminate].
  destruct T2 as [(_ & F2 & O2)|(x & Hx & _)]; [|discriminate].
  split; [|split; [|split]].
  - rewrite O2 by apply paths_differ. exact F1.
  - exact F2.
  - intros p Ha Hc. rewrite O2 by exact Hc. apply O1. exact Ha.
  - reflexivity.
Qed.

Lemma load_state_dict_ok who sd w w' :
  load_state_dict who sd w = (Ok tt, w') ->
  strict_ok sd (get_net who (self w)) = true
  /\ w' = mkWorld (set_net who (load_entries sd (get_net who (self w))) (self w))
            (env w).
Proof.
  unfold load_state_dict, bind, read_net, write_net.
  destruct (strict_ok sd (get_net who (self w))); [|discriminate].
  intro E. injection E as <-. split; reflexivity.
Qed.

Lemma load_ok filename directory w w' :
  load filename directory w = (Ok tt, w') ->
  exists sda sdc,
    files (disk (env w)) (actor_path filename directory) = Some sda
    /\ files (disk (env w)) (critic_path filename directory) = Some sdc
    /\ strict_ok sda (actor (self w)) = true
    /\ strict_ok sdc (critic (self w)) = true
    /\ actor (self w') = load_entries sda (actor (self w))
    /\ critic (self w') = load_entries sdc (critic (self w))
    /\ actor_target (self w') = actor_target (self w)
    /\ critic_target (self w') = critic_target (self w)
    /\ actor_optimizer (self w') = actor_optimizer (self w)
    /\ critic_optimizer (self w') = critic_optimizer (self w)
    /\ env w' = env w.
Proof.
  unfold load. intro E.
  apply bind_ok in E. destruct E as (sda & w1 & E1 & E).
  unfold liftE in E1.
  destruct (torch_load _ (env w)) as [r1 e1] eqn:T1. injection E1 as -> <-.
  apply torch_load_ok in T1. destruct T1 as [Fa ->].
  apply bind_ok in E. destruct E as ([] & w2 & E2 & E).
  apply load_state_dict_ok in E2. cbn [self env] in E2.
  destruct E2 as [Sa ->].
  apply bind_ok in E. destruct E as (sdc & w3 & E3 & E).
  unfold liftE in E3. cbn [self env] in E3.
  destruct (torch_load _ (env w)) as [r3 e3] eqn:T3. injection E3 as -> <-.
  apply torch_load_ok in T3. destruct T3 as [Fc ->].
  apply load_state_dict_ok in E. cbn [self env get_net set_net critic] in E.
  destruct E as [Sc ->].
  exists sda, sdc.
  cbn [self env actor critic actor_target critic_target actor_optimizer
       critic_optimizer set_net].
  repeat split; assumption.
Qed.

(** C8, as the code has it.  save writes two files and no other,
    [directory/filename_actor.pth] and [directory/filename_critic.pth], which
    hold the state dict of the live actor and of the live critic, and it
    leaves the agent as it was.  load reads these two files into the live
    actor and the live critic, entry by entry under the names of the state
    dict, and leaves actor_target, critic_target, both optimizers and the
    gradients as they were. *)
Theorem checkpoint_files filename directory w w' v v' :
  save filename directory w = (Ok tt, w') ->
  load filename directory v = (Ok tt, v') ->
  actor_path filename directory
  = (directory ++ "/" ++ filename ++ "_actor.pth")%string
  /\ critic_path filename directory
     = (directory ++ "/" ++ filename ++ "_critic.pth")%string
  /\ actor_path filename directory <> critic_path filename directory
  /\ files (disk (env w')) (actor_path filename directory)
     = Some (state_dict (actor (self w)))
  /\ files (disk (env w')) (critic_path filename directory)
     = Some (state_dict (critic (self w)))
  /\ (forall p, p <> actor_path filename directory ->
                p <> critic_path filename directory ->
                files (disk (env w')) p = files (disk (env w)) p)
  /\ self w' = self w
  /\ (exists sda sdc,
        files (disk (env v)) (actor_path filename directory) = Some sda
        /\ files (disk (env v)) (critic_path filename directory) = Some sdc
        /\ strict_ok sda (actor (self v)) = true
        /\ strict_ok sdc (critic (self v)) = true
        /\ actor (self v') = load_entries sda (actor (self v))
        /\ critic (self v') = load_entries sdc (critic (self v)))
  /\ actor_target (self v') = actor_target (self v)
  /\ critic_target (self v') = critic_target (self v)
  /\ actor_optimizer (self v') = actor_optimizer (self v)
  /\ critic_optimizer (self v') = critic_optimizer (self v)
  /\ grads (actor (self v')) = grads (actor (self v))
  /\ grads (critic (self v')) = grads (critic (self v))
  /\ env v' = env v.
Proof.
  intros Es El.
  destruct (save_ok _ _ _ _ Es) as (Fa & Fc & Fo & Hs).
  destruct (load_ok _ _ _ _ El)
    as (sda & sdc & Ga & Gc & Sa & Sc & Ha & Hc & Hat & Hct & Hao & Hco & He).
  split; [reflexivity|]. split; [reflexivity|].
  split; [apply paths_differ|].
  split; [exact Fa|]. split; [exact Fc|]. split; [exact Fo|].
  split; [exact Hs|].
  split; [exists sda, sdc; repeat split; assumption|].
  split; [exact Hat|]. split; [exact Hct|]. split; [exact Hao|].
  split; [exact Hco|].
  split; [rewrite Ha; apply load_entries_frame|].
  split; [rewrite Hc; apply load_entries_frame | exact He].
Qed.

Lemma checkpoint_files_witness :
  actor_path "ddpg" "models" = ("models" ++ "/" ++ "ddpg" ++ "_actor.pth")%string
  /\ critic_path "ddpg" "models"
     = ("models" ++ "/" ++ "ddpg" ++ "_critic.pth")%string
  /\ actor_path "ddpg" "models" <> critic_path "ddpg" "models"
  /\ files (disk (env (snd demo_save))) (actor_path "ddpg" "models")
     = Some (state_dict (actor (self (demo_world "cnn"))))
  /\ files (disk (env (snd demo_save))) (critic_path "ddpg" "models")
     = Some (state_dict (critic (self (demo_world "cnn"))))
  /\ (forall p, p <> actor_path "ddpg" "models" ->
                p <> critic_path "ddpg" "models" ->
                files (disk (env (snd demo_save))) p
                = files (disk (env (demo_world "cnn"))) p)
  /\ self (snd demo_save) = self (demo_world "cnn")
  /\ (exists sda sdc,
        files (disk (env (snd demo_save))) (actor_path "ddpg" "models")
        = Some sda
        /\ files (disk (env (snd demo_save))) (critic_path "ddpg" "models")
           = Some sdc
        /\ strict_ok sda (actor (self (snd demo_save))) = true
        /\ strict_ok sdc (critic (self (snd demo_save))) = true
        /\ actor (self (snd demo_load))
           = load_entries sda (actor (self (snd demo_save)))
        /\ critic (self (snd demo_load))
           = load_entries sdc (critic (self (snd demo_save))))
  /\ actor_target (self (snd demo_load)) = actor_target (self (snd demo_save))
  /\ critic_target (self (snd demo_load))
     = critic_target (self (snd demo_save))
  /\ actor_optimizer (self (snd demo_load))
     = actor_optimizer (self (snd demo_save))
  /\ critic_optimizer (self (snd demo_load))
     = critic_optimizer (self (snd demo_save))
  /\ grads (actor (self (snd demo_load))) = grads (actor (self (snd demo_save)))
  /\ grads (critic (self (snd demo_load)))
     = grads (critic (self (snd demo_save)))
  /\ env (snd demo_load) = env (snd demo_save).
Proof.
  apply (checkpoint_files "ddpg" "models" (demo_world "cnn") (snd demo_save)
           (snd demo_save) (snd demo_load)).
  - apply (succeeded_unit demo_save). vm_compute. reflexivity.
  - apply (succeeded_unit demo_load). vm_compute. reflexivity.
Defined.

(** C8 as the claim words it fails: after a save that returned, no file
    named [models/ddpg_actor] or [models/ddpg_critic] exists; the two files
    are [models/ddpg_actor.pth] and [models/ddpg_critic.pth].  The actor's
    file does not hold parameters only: it has the entry bn1.running_mean,
    which is a buffer of the actor and not one of its parameters. *)
Lemma save_names_counterexample :
  succeeded demo_save = true
  /\ files (disk (env (demo_world "cnn"))) "models/ddpg_actor" = None
  /\ files (disk (env (snd demo_save))) "models/ddpg_actor" = None
  /\ files (disk (env (snd demo_save))) "models/ddpg_critic" = None
  /\ files (disk (env (snd demo_save))) "models/ddpg_actor.pth" <> None
  /\ files (disk (env (snd demo_save))) "models/ddpg_critic.pth" <> None
  /\ (exists sd,
        files (disk (env (snd demo_save))) "models/ddpg_actor.pth" = Some sd
        /\ has_key "bn1.running_mean" sd = true)
  /\ has_key "bn1.running_mean"
       (named_parameters (actor (self (demo_world "cnn")))) = false
  /\ has_key "bn1.running_mean"
       (named_buffers (actor (self (demo_world "cnn")))) = true.
Proof.
  assert (Es : demo_save = (Ok tt, snd demo_save))
    by (apply (succeeded_unit demo_save); vm_compute; reflexivity).
  destruct (save_ok _ _ _ _ Es) as (Fa & Fc & Fo & _).
  split; [vm_compute; reflexivity|].
  split; [reflexivity|].
  split; [rewrite Fo; [reflexivity | names_differ | names_differ]|].
  split; [rewrite Fo; [reflexivity | names_differ | names_differ]|].
  split.
  { change "models/ddpg_actor.pth" with (actor_path "ddpg" "models").
    rewrite Fa. discriminate. }
  split.
  { change "models/ddpg_critic.pth" with (critic_path "ddpg" "models").
    rewrite Fc. discriminate. }
  split.
  { exists (state_dict (actor (self (demo_world "cnn")))).
    split; [exact Fa | vm_compute; reflexivity]. }
  split; vm_compute; reflexivity.
Qed.

(** * Further properties of the constructor and of the methods *)

Lemma bind_eq {S A B} (m : M S A) (f : A -> M S B) s a s1 :
  m s = (Ok a, s1) -> bind m f s = f a s1.
Proof. intro E. unfold bind. rewrite E. reflexivity. Qed.

Lemma bind_raise {S A B} (m : M S A) (f : A -> M S B) s x s1 :
  m s = (Raise x, s1) -> bind m f s = (Raise x, s1).
Proof. intro E. unfold bind. rewrite E. reflexivity. Qed.

Lemma returns_ret {S A} (Q : A -> Prop) (a : A) :
  Q a -> returns (S := S) Q (ret a).
Proof. intros H s. exists a, s. split; [reflexivity | exact H]. Qed.

Lemma returns_bind {S A B} (Q1 : A -> Prop) (Q : B -> Prop)
    (m : M S A) (f : A -> M S B) :
  returns Q1 m -> (forall a, Q1 a -> returns Q (f a)) -> returns Q (bind m f).
Proof.
  intros Hm Hf s.
  destruct (Hm s) as (a & s1 & E & Qa).
  destruct (Hf a Qa s1) as (b & s2 & E2 & Qb).
  exists b, s2. split; [|exact Qb].
  rewrite (bind_eq _ _ _ _ _ E). exact E2.
Qed.

Lemma returns_weaken {S A} (Q Q' : A -> Prop) (m : M S A) :
  (forall a, Q a -> Q' a) -> returns Q m -> returns Q' m.
Proof.
  intros H Hm s. destruct (Hm s) as (a & s' & E & Qa).
  exists a, s'. split; [exact E | apply H; exact Qa].
Qed.

Lemma raises_only_ret {S A} x (a : A) : raises_only (S := S) x (ret a).
Proof. intros s e s' E. discriminate E. Qed.

Lemma raises_only_bind {S A B} x (m : M S A) (f : A -> M S B) :
  raises_only x m -> (forall a, raises_only x (f a)) ->
  raises_only x (bind m f).
Proof.
  intros Hm Hf s e s' E.
  apply bind_run in E. destruct E as [(a & s1 & _ & E) | (y & E & Hy)].
  - exact (Hf a _ _ _ E).
  - injection Hy as ->. exact (Hm _ _ _ E).
Qed.

(** ** The constructors return, and raise RuntimeError only *)

Lemma rand_tensor_returns s :
  forallb (fun n => (0 <=? n)%Z) s = true ->
  returns (fun _ => True) (rand_tensor s).
Proof.
  intros H e. unfold rand_tensor. rewrite H.
  eexists. eexists. split; [reflexivity | exact I].
Qed.

Lemma rand_tensor_raises s : raises_only RuntimeError (rand_tensor s).
Proof.
  intros e x e'. unfold rand_tensor.
  destruct (forallb _ s); intro E; [discriminate E|].
  injection E as <- _. reflexivity.
Qed.

Lemma Conv2d_init_returns name cin cout k :
  (0 <= cin)%Z -> (0 <= cout)%Z -> (0 <= k)%Z ->
  returns (fun _ => True) (Conv2d_init name cin cout k).
Proof.
  intros H1 H2 H3. unfold Conv2d_init.
  apply returns_bind with (Q1 := fun _ => True).
  { apply rand_tensor_returns. simpl.
    rewrite !andb_true_r, !andb_true_iff, !Z.leb_le. tauto. }
  intros w _. apply returns_bind with (Q1 := fun _ => True).
  { apply rand_tensor_returns. simpl.
    rewrite andb_true_r, Z.leb_le. exact H2. }
  intros b _. apply returns_ret. exact I.
Qed.

Lemma Linear_init_returns name fin fout :
  (0 <= fin)%Z -> (0 <= fout)%Z ->
  returns (fun _ => True) (Linear_init name fin fout).
Proof.
  intros H1 H2. unfold Linear_init.
  apply returns_bind with (Q1 := fun _ => True).
  { apply rand_tensor_returns. simpl.
    rewrite !andb_true_r, !andb_true_iff, !Z.leb_le. tauto. }
  intros w _. apply returns_bind with (Q1 := fun _ => True).
  { apply rand_tensor_returns. simpl.
    rewrite andb_true_r, Z.leb_le. exact H2. }
  intros b _. apply returns_ret. exact I.
Qed.

Lemma Conv2d_init_raises name cin cout k :
  raises_only RuntimeError (Conv2d_init name cin cout k).
Proof.
  unfold Conv2d_init.
  apply raises_only_bind; [apply rand_tensor_raises|]. intro w.
  apply raises_only_bind; [apply rand_tensor_raises|]. intro b.
  apply raises_only_ret.
Qed.

Lemma Linear_init_raises name fin fout :
  raises_only RuntimeError (Linear_init name fin fout).
Proof.
  unfold Linear_init.
  apply raises_only_bind; [apply rand_tensor_raises|]. intro w.
  apply raises_only_bind; [apply rand_tensor_raises|]. intro b.
  apply raises_only_ret.
Qed.

Lemma conv_stack_returns : returns (fun _ => True) conv_stack.
Proof.
  unfold conv_stack.
  apply returns_bind with (Q1 := fun _ => True);
    [apply Conv2d_init_returns; lia|]. intros c1 _.
  apply returns_bind with (Q1 := fun _ => True);
    [apply Conv2d_init_returns; lia|]. intros c2 _.
  apply returns_bind with (Q1 := fun _ => True);
    [apply Conv2d_init_returns; lia|]. intros c3 _.
  apply returns_bind with (Q1 := fun _ => True);
    [apply Conv2d_init_returns; lia|]. intros c4 _.
  apply returns_ret. exact I.
Qed.

Lemma conv_stack_raises : raises_only RuntimeError conv_stack.
Proof.
  unfold conv_stack.
  repeat (apply raises_only_bind; [apply Conv2d_init_raises|]; intro).
  apply raises_only_ret.
Qed.

Lemma ActorPID_init_returns state_dim action_dim max_action :
  (0 <= action_dim)%Z -> (0 <= fold_left Z.mul state_dim 1)%Z ->
  returns (fun _ => True) (ActorPID_init state_dim action_dim max_action).
Proof.
  intros H1 H2. unfold ActorPID_init.
  apply returns_bind with (Q1 := fun _ => True);
    [apply Linear_init_returns; lia|]. intros l1 _.
  apply returns_bind with (Q1 := fun _ => True);
    [apply Linear_init_returns; lia|]. intros l2 _.
  apply returns_bind with (Q1 := fun _ => True);
    [apply Linear_init_returns; lia|]. intros l3 _.
  apply returns_ret. exact I.
Qed.

Lemma ActorPID_init_raises state_dim action_dim max_action :
  raises_only RuntimeError (ActorPID_init state_dim action_dim max_action).
Proof.
  unfold ActorPID_init.
  repeat (apply raises_only_bind; [apply Linear_init_raises|]; intro).
  apply raises_only_ret.
Qed.

Lemma ActorCNN_init_returns action_dim max_action :
  (0 <= action_dim)%Z ->
  returns (fun _ => True) (ActorCNN_init action_dim max_action).
Proof.
  intros H1. unfold ActorCNN_init.
  apply returns_bind with (Q1 := fun _ => True);
    [apply conv_stack_returns|]. intros cs _.
  apply returns_bind with (Q1 := fun _ => True);
    [apply Linear_init_returns; unfold flat_size; lia|]. intros l1 _.
  apply returns_bind with (Q1 := fun _ => True);
    [apply Linear_init_returns; lia|]. intros l2 _.
  apply returns_ret. exact I.
Qed.

Lemma ActorCNN_init_raises action_dim max_action :
  raises_only RuntimeError (ActorCNN_init action_dim max_action).
Proof.
  unfold ActorCNN_init.
  apply raises_only_bind; [apply conv_stack_raises|]. intro.
  repeat (apply raises_only_bind; [apply Linear_init_raises|]; intro).
  apply raises_only_ret.
Qed.

Lemma CriticCNN_init_returns action_dim :
  (0 <= action_dim)%Z -> returns (fun _ => True) (CriticCNN_init action_dim).
Proof.
  intros H1. unfold CriticCNN_init.
  apply returns_bind with (Q1 := fun _ => True);
    [apply conv_stack_returns|]. intros cs _.
  apply returns_bind with (Q1 := fun _ => True);
    [apply Linear_init_returns; unfold flat_size; lia|]. intros l1 _.
  apply returns_bind with (Q1 := fun _ => True);
    [apply Linear_init_returns; lia|]. intros l2 _.
  apply returns_bind with (Q1 := fun _ => True);
    [apply Linear_init_returns; lia|]. intros l3 _.
  apply returns_ret. exact I.
Qed.

Lemma CriticCNN_init_raises action_dim :
  raises_only RuntimeError (CriticCNN_init action_dim).
Proof.
  unfold CriticCNN_init.
  apply raises_only_bind; [apply conv_stack_raises|]. intro.
  repeat (apply raises_only_bind; [apply Linear_init_raises|]; intro).
  apply raises_only_ret.
Qed.

Lemma load_state_dict_new_raises m sd :
  raises_only RuntimeError (load_state_dict_new m sd).
Proof.
  intros e x e'. unfold load_state_dict_new.
  destruct (strict_ok sd m); intro E; [discriminate E|].
  injection E as <- _. reflexivity.
Qed.

(** ** What the constructors build *)

Lemma no_grad_app (ps qs : list (string * Param)) :
  forallb (fun e => match grad (snd e) with None => true | Some _ => false end)
    (ps ++ qs)
  = forallb (fun e => match grad (snd e) with None => true | Some _ => false end)
      ps
    && forallb
         (fun e => match grad (snd e) with None => true | Some _ => false end)
         qs.
Proof. apply forallb_app. Qed.

Lemma Conv2d_init_fresh name cin cout k e ps e' :
  Conv2d_init name cin cout k e = (Ok ps, e') ->
  forallb (fun e => match grad (snd e) with None => true | Some _ => false end)
    ps = true.
Proof.
  unfold Conv2d_init. intro E.
  apply bind_ok in E. destruct E as (w & e1 & Ew & E).
  apply bind_ok in E. destruct E as (b & e2 & Eb & E).
  apply ret_ok in E. destruct E as [-> _]. reflexivity.
Qed.

Lemma Linear_init_fresh name fin fout e ps e' :
  Linear_init name fin fout e = (Ok ps, e') ->
  forallb (fun e => match grad (snd e) with None => true | Some _ => false end)
    ps = true.
Proof.
  unfold Linear_init. intro E.
  apply bind_ok in E. destruct E as (w & e1 & Ew & E).
  apply bind_ok in E. destruct E as (b & e2 & Eb & E).
  apply ret_ok in E. destruct E as [-> _]. reflexivity.
Qed.

Lemma conv_stack_fresh e ps e' :
  conv_stack e = (Ok ps, e') ->
  forallb (fun e => match grad (snd e) with None => true | Some _ => false end)
    ps = true.
Proof.
  unfold conv_stack. intro E.
  apply bind_ok in E. destruct E as (c1 & e1 & E1 & E).
  apply bind_ok in E. destruct E as (c2 & e2 & E2 & E).
  apply bind_ok in E. destruct E as (c3 & e3 & E3 & E).
  apply bind_ok in E. destruct E as (c4 & e4 & E4 & E).
  apply ret_ok in E. destruct E as [-> _].
  rewrite !no_grad_app.
  rewrite (Conv2d_init_fresh _ _ _ _ _ _ _ E1),
    (Conv2d_init_fresh _ _ _ _ _ _ _ E2),
    (Conv2d_init_fresh _ _ _ _ _ _ _ E3),
    (Conv2d_init_fresh _ _ _ _ _ _ _ E4).
  reflexivity.
Qed.

Lemma mstatic_laid_out c ps bs m ma :
  laid_out c ps bs m -> training m = true -> max_action m = ma ->
  mstatic m = (c, true, ma, ps, bs).
Proof.
  intros (Hc & Hp & Hb) Ht Hm. unfold mstatic.
  rewrite Hc, Ht, Hm. unfold pshapes in Hp. unfold bshapes in Hb.
  rewrite Hp, Hb. reflexivity.
Qed.

Lemma ActorPID_init_fresh state_dim action_dim max_action e m e' :
  ActorPID_init state_dim action_dim max_action e = (Ok m, e') ->
  mstatic m = (ActorPID, true, max_action,
               ActorPID_layout state_dim action_dim, [])
  /\ no_grads m = true.
Proof.
  intro E. pose proof (ActorPID_init_ok _ _ _ _ _ _ E) as L.
  revert E. unfold ActorPID_init. intro E.
  apply bind_ok in E. destruct E as (l1 & e1 & E1 & E).
  apply bind_ok in E. destruct E as (l2 & e2 & E2 & E).
  apply bind_ok in E. destruct E as (l3 & e3 & E3 & E).
  apply ret_ok in E. destruct E as [-> _].
  split; [apply mstatic_laid_out; [exact L | reflexivity | reflexivity]|].
  unfold no_grads. cbv beta iota delta [named_parameters].
  rewrite !no_grad_app.
  rewrite (Linear_init_fresh _ _ _ _ _ _ E1), (Linear_init_fresh _ _ _ _ _ _ E2),
    (Linear_init_fresh _ _ _ _ _ _ E3).
  reflexivity.
Qed.

Lemma ActorCNN_init_fresh action_dim max_action e m e' :
  ActorCNN_init action_dim max_action e = (Ok m, e') ->
  mstatic m = (ActorCNN, true, max_action, ActorCNN_layout action_dim,
               bn_layout)
  /\ no_grads m = true.
Proof.
  intro E. pose proof (ActorCNN_init_ok _ _ _ _ _ E) as L.
  revert E. unfold ActorCNN_init. intro E.
  apply bind_ok in E. destruct E as (cs & e1 & E1 & E).
  apply bind_ok in E. destruct E as (l1 & e2 & E2 & E).
  apply bind_ok in E. destruct E as (l2 & e3 & E3 & E).
  apply ret_ok in E. destruct E as [-> _].
  split; [apply mstatic_laid_out; [exact L | reflexivity | reflexivity]|].
  unfold no_grads. cbv beta iota delta [named_parameters].
  rewrite !no_grad_app.
  rewrite (conv_stack_fresh _ _ _ E1), (Linear_init_fresh _ _ _ _ _ _ E2),
    (Linear_init_fresh _ _ _ _ _ _ E3).
  reflexivity.
Qed.

Lemma CriticCNN_init_fresh action_dim e m e' :
  CriticCNN_init action_dim e = (Ok m, e') ->
  mstatic m = (CriticCNN, true, 0, CriticCNN_layout action_dim, bn_layout)
  /\ no_grads m = true.
Proof.
  intro E. pose proof (CriticCNN_init_ok _ _ _ _ E) as L.
  revert E. unfold CriticCNN_init. intro E.
  apply bind_ok in E. destruct E as (cs & e1 & E1 & E).
  apply bind_ok in E. destruct E as (l1 & e2 & E2 & E).
  apply bind_ok in E. destruct E as (l2 & e3 & E3 & E).
  apply bind_ok in E. destruct E as (l3 & e4 & E4 & E).
  apply ret_ok in E. destruct E as [-> _].
  split; [apply mstatic_laid_out; [exact L | reflexivity | reflexivity]|].
  unfold no_grads. cbv beta iota delta [named_parameters].
  rewrite !no_grad_app.
  rewrite (conv_stack_fresh _ _ _ E1), (Linear_init_fresh _ _ _ _ _ _ E2),
    (Linear_init_fresh _ _ _ _ _ _ E3), (Linear_init_fresh _ _ _ _ _ _ E4).
  reflexivity.
Qed.

Lemma no_grads_load sd m : no_grads (load_entries sd m) = no_grads m.
Proof.
  destruct m as [c ps bs tr ma]. unfold no_grads, load_entries.
  cbv beta iota delta [named_parameters].
  induction ps as [|[k p] l IH]; [reflexivity|].
  simpl. rewrite IH. reflexivity.
Qed.

Lemma load_state_dict_new_run m sd e r e' :
  load_state_dict_new m sd e = (r, e') ->
  e' = e
  /\ (strict_ok sd m = true /\ r = Ok (load_entries sd m)
      \/ strict_ok sd m = false /\ r = Raise RuntimeError).
Proof.
  unfold load_state_dict_new. destruct (strict_ok sd m); intro E.
  - unfold ret in E. injection E as <- <-. split; [reflexivity|]. left. auto.
  - unfold raise in E. injection E as <- <-. split; [reflexivity|]. right. auto.
Qed.

Lemma mstatic_laid c ps bs m tr ma :
  mstatic m = (c, tr, ma, ps, bs) -> laid_out c ps bs m.
Proof.
  unfold mstatic, laid_out, pshapes, bshapes. intro E.
  injection E as -> _ _ <- <-. repeat split; reflexivity.
Qed.

(** The layouts __init__ uses have no name twice. *)
Lemma actor_layout_distinct net_type state_dim action_dim :
  distinct (map fst (actor_layout net_type state_dim action_dim)
            ++ map fst (actor_buffers net_type)) = true.
Proof.
  unfold actor_layout, actor_buffers.
  destruct (String.eqb net_type "pid"); vm_compute; reflexivity.
Qed.

(** Loading the state dict of a module of the same static part succeeds. *)
Lemma strict_ok_same c tr ma ps bs m t :
  mstatic m = (c, tr, ma, ps, bs) -> mstatic t = (c, tr, ma, ps, bs) ->
  distinct (map fst ps ++ map fst bs) = true ->
  strict_ok (state_dict m) t = true.
Proof.
  intros Hm Ht Hd.
  pose proof (mstatic_laid _ _ _ _ _ _ Hm) as Lm.
  pose proof (mstatic_laid _ _ _ _ _ _ Ht) as Lt.
  apply (load_same_layout m t).
  - destruct Lm as (_ & -> & _). destruct Lt as (_ & -> & _). reflexivity.
  - destruct Lm as (_ & _ & ->). destruct Lt as (_ & _ & ->). reflexivity.
  - exact (laid_out_NoDup _ _ _ _ Lm Hd).
Qed.

(** ** __init__, phase by phase *)

Lemma valid_net_type net_type :
  existsb (String.eqb net_type) ["cnn"; "pid"] = true
  <-> net_type = "cnn" \/ net_type = "pid".
Proof.
  simpl. rewrite !orb_true_iff, !String.eqb_eq. intuition discriminate.
Qed.

Lemma load_state_dict_new_same c tr ma ps bs m t e :
  mstatic m = (c, tr, ma, ps, bs) -> mstatic t = (c, tr, ma, ps, bs) ->
  distinct (map fst ps ++ map fst bs) = true ->
  load_state_dict_new t (state_dict m) e
  = (Ok (load_entries (state_dict m) t), e).
Proof.
  intros Hm Ht Hd. unfold load_state_dict_new.
  rewrite (strict_ok_same _ _ _ _ _ _ _ Hm Ht Hd). reflexivity.
Qed.

Lemma mstatic_load sd m : mstatic (load_entries sd m) = mstatic m.
Proof. apply load_entries_frame. Qed.

(** The two actors are built. *)
Lemma init_actors_returns state_dim action_dim max_action net_type e :
  valid_dims state_dim action_dim net_type ->
  exists a t e1,
    (if String.eqb net_type "pid" then
       bind (ActorPID_init state_dim action_dim max_action) (fun a =>
       bind (ActorPID_init state_dim action_dim max_action) (fun t =>
       ret (false, a, t)))
     else
       bind (ActorCNN_init action_dim max_action) (fun a =>
       bind (ActorCNN_init action_dim max_action) (fun t =>
       ret (false, a, t)))) e = (Ok (false, a, t), e1)
    /\ disk e1 = disk e
    /\ mstatic a = actor_static state_dim action_dim max_action net_type
    /\ mstatic t = actor_static state_dim action_dim max_action net_type
    /\ no_grads a = true /\ no_grads t = true.
Proof.
  intros [Ha Hs]. unfold actor_static, actor_class, actor_layout, actor_buffers.
  destruct (String.eqb net_type "pid") eqn:N.
  - apply String.eqb_eq in N. specialize (Hs N).
    destruct (ActorPID_init_returns state_dim action_dim max_action Ha Hs e)
      as (a & e1 & Ea & _).
    destruct (ActorPID_init_returns state_dim action_dim max_action Ha Hs e1)
      as (t & e2 & Et & _).
    exists a, t, e2.
    rewrite (bind_eq _ _ _ _ _ Ea), (bind_eq _ _ _ _ _ Et).
    split; [reflexivity|]. split.
    { rewrite (disk_stable_ActorPID _ _ _ _ _ _ Et).
      apply (disk_stable_ActorPID _ _ _ _ _ _ Ea). }
    destruct (ActorPID_init_fresh _ _ _ _ _ _ Ea) as [S1 G1].
    destruct (ActorPID_init_fresh _ _ _ _ _ _ Et) as [S2 G2].
    repeat split; assumption.
  - destruct (ActorCNN_init_returns action_dim max_action Ha e)
      as (a & e1 & Ea & _).
    destruct (ActorCNN_init_returns action_dim max_action Ha e1)
      as (t & e2 & Et & _).
    exists a, t, e2.
    rewrite (bind_eq _ _ _ _ _ Ea), (bind_eq _ _ _ _ _ Et).
    split; [reflexivity|]. split.
    { rewrite (disk_stable_ActorCNN _ _ _ _ _ Et).
      apply (disk_stable_ActorCNN _ _ _ _ _ Ea). }
    destruct (ActorCNN_init_fresh _ _ _ _ _ Ea) as [S1 G1].
    destruct (ActorCNN_init_fresh _ _ _ _ _ Et) as [S2 G2].
    repeat split; assumption.
Qed.

(** With valid arguments __init__ reaches line 179 with the two actors
    built and the target loaded, and goes on with the critics. *)
Lemma init_to_critic state_dim action_dim max_action net_type e :
  net_type = "cnn" \/ net_type = "pid" ->
  valid_dims state_dim action_dim net_type ->
  exists a t c e3,
    disk e3 = disk e
    /\ mstatic a = actor_static state_dim action_dim max_action net_type
    /\ mstatic t = actor_static state_dim action_dim max_action net_type
    /\ mstatic c = critic_static action_dim
    /\ no_grads a = true /\ no_grads t = true /\ no_grads c = true
    /\ forall critic_chkp,
         DDPG_init state_dim action_dim max_action net_type critic_chkp e
         = init_critics state_dim action_dim critic_chkp a
             (load_entries (state_dict a) t) c e3.
Proof.
  intros Hn Hv.
  destruct (init_actors_returns state_dim action_dim max_action net_type e Hv)
    as (a & t & e1 & En & Hd1 & Sa & St & Ga & Gt).
  destruct Hv as [Ha _].
  destruct (CriticCNN_init_returns action_dim Ha e1) as (c & e3 & Ec & _).
  exists a, t, c, e3.
  destruct (CriticCNN_init_fresh _ _ _ _ Ec) as [Sc Gc].
  split.
  { rewrite (disk_stable_CriticCNN _ _ _ _ Ec). exact Hd1. }
  split; [exact Sa|]. split; [exact St|]. split; [exact Sc|].
  split; [exact Ga|]. split; [exact Gt|]. split; [exact Gc|].
  intro critic_chkp. unfold DDPG_init.
  apply valid_net_type in Hn. rewrite Hn. cbn [negb].
  rewrite (bind_eq _ _ _ _ _ En). cbn [fst snd].
  rewrite (bind_eq _ _ _ _ _
             (load_state_dict_new_same _ _ _ _ _ _ _ e1 Sa St
                (actor_layout_distinct net_type state_dim action_dim))).
  rewrite (bind_eq _ _ _ _ _ Ec).
  reflexivity.
Qed.

(** From a critic of the right layout on, __init__ returns. *)
Lemma init_finish state_dim action_dim actor actor_target critic e :
  (0 <= action_dim)%Z ->
  mstatic critic = critic_static action_dim ->
  exists ct e5,
    CriticCNN_init action_dim e = (Ok ct, e5)
    /\ disk e5 = disk e
    /\ mstatic ct = critic_static action_dim
    /\ no_grads ct = true
    /\ bind (CriticCNN_init action_dim) (fun critic_target =>
       bind (load_state_dict_new critic_target (state_dict critic))
         (fun critic_target =>
       ret (mkDDPG state_dim false actor actor_target
              (mkAdam Actor (1 / 10000) []) critic critic_target
              (mkAdam Critic (1 / 1000) [])))) e
       = (Ok (mkDDPG state_dim false actor actor_target
                (mkAdam Actor (1 / 10000) []) critic
                (load_entries (state_dict critic) ct)
                (mkAdam Critic (1 / 1000) [])), e5).
Proof.
  intros Ha Sc.
  destruct (CriticCNN_init_returns action_dim Ha e) as (ct & e5 & Ect & _).
  destruct (CriticCNN_init_fresh _ _ _ _ Ect) as [Sct Gct].
  exists ct, e5. split; [exact Ect|].
  split; [exact (disk_stable_CriticCNN _ _ _ _ Ect)|].
  split; [exact Sct|]. split; [exact Gct|].
  rewrite (bind_eq _ _ _ _ _ Ect).
  rewrite (bind_eq _ _ _ _ _
             (load_state_dict_new_same _ _ _ _ _ _ _ e5 Sc Sct
                (CriticCNN_distinct action_dim))).
  reflexivity.
Qed.

(** An agent that __init__ returned was built with valid arguments. *)
Lemma rand_tensor_dims s e t e' :
  rand_tensor s e = (Ok t, e') -> forallb (fun n => (0 <=? n)%Z) s = true.
Proof.
  unfold rand_tensor. destruct (forallb _ s); [reflexivity | discriminate].
Qed.

Lemma Linear_init_dims name fin fout e ps e' :
  Linear_init name fin fout e = (Ok ps, e') -> (0 <= fin)%Z /\ (0 <= fout)%Z.
Proof.
  unfold Linear_init. intro E.
  apply bind_ok in E. destruct E as (w & e1 & Ew & _).
  apply rand_tensor_dims in Ew. simpl in Ew.
  rewrite !andb_true_iff, !Z.leb_le in Ew. tauto.
Qed.

Lemma ActorPID_init_dims state_dim action_dim max_action e m e' :
  ActorPID_init state_dim action_dim max_action e = (Ok m, e') ->
  (0 <= action_dim)%Z /\ (0 <= fold_left Z.mul state_dim 1)%Z.
Proof.
  unfold ActorPID_init. intro E.
  apply bind_ok in E. destruct E as (l1 & e1 & E1 & E).
  apply bind_ok in E. destruct E as (l2 & e2 & E2 & E).
  apply bind_ok in E. destruct E as (l3 & e3 & E3 & E).
  apply Linear_init_dims in E1. apply Linear_init_dims in E3. tauto.
Qed.

Lemma ActorCNN_init_dims action_dim max_action e m e' :
  ActorCNN_init action_dim max_action e = (Ok m, e') -> (0 <= action_dim)%Z.
Proof.
  unfold ActorCNN_init. intro E.
  apply bind_ok in E. destruct E as (cs & e1 & E1 & E).
  apply bind_ok in E. destruct E as (l1 & e2 & E2 & E).
  apply bind_ok in E. destruct E as (l2 & e3 & E3 & E).
  apply Linear_init_dims in E3. tauto.
Qed.

Lemma DDPG_init_valid state_dim action_dim max_action net_type critic_chkp e a
    e' :
  DDPG_init state_dim action_dim max_action net_type critic_chkp e
  = (Ok a, e') ->
  (net_type = "cnn" \/ net_type = "pid")
  /\ valid_dims state_dim action_dim net_type.
Proof.
  unfold DDPG_init.
  destruct (existsb (String.eqb net_type) ["cnn"; "pid"]) eqn:V;
    [|discriminate].
  cbn [negb]. intro E. split; [apply valid_net_type; exact V|].
  apply bind_ok in E. destruct E as ([[fl a0] t0] & e1 & En & _).
  unfold valid_dims.
  destruct (String.eqb net_type "pid") eqn:N.
  - apply bind_ok in En. destruct En as (a1 & e2 & Ea & _).
    apply ActorPID_init_dims in Ea. tauto.
  - apply bind_ok in En. destruct En as (a1 & e2 & Ea & _).
    apply ActorCNN_init_dims in Ea. split; [exact Ea|].
    intro H. apply String.eqb_eq in H. congruence.
Qed.

Lemma disk_stable_torch_load path : disk_stable (torch_load path).
Proof.
  intros e r e'. unfold torch_load.
  destruct (files (disk e) path); intro E; injection E as _ <-; reflexivity.
Qed.

Lemma disk_stable_raise {A} x : disk_stable (raise (A := A) x).
Proof. intros e r e' E. injection E as _ <-. reflexivity. Qed.

Lemma disk_stable_init state_dim action_dim max_action net_type critic_chkp :
  disk_stable
    (DDPG_init state_dim action_dim max_action net_type critic_chkp).
Proof.
  unfold DDPG_init.
  destruct (negb (existsb (String.eqb net_type) ["cnn"; "pid"]));
    [apply disk_stable_raise|].
  apply disk_stable_bind.
  { destruct (String.eqb net_type "pid").
    - apply disk_stable_bind; [apply disk_stable_ActorPID|]. intro.
      apply disk_stable_bind; [apply disk_stable_ActorPID|]. intro.
      apply disk_stable_ret.
    - apply disk_stable_bind; [apply disk_stable_ActorCNN|]. intro.
      apply disk_stable_bind; [apply disk_stable_ActorCNN|]. intro.
      apply disk_stable_ret. }
  intro n. apply disk_stable_bind; [apply disk_stable_load|]. intro.
  apply disk_stable_bind; [apply disk_stable_CriticCNN|]. intro.
  apply disk_stable_bind.
  { destruct critic_chkp as [path|]; [|apply disk_stable_ret].
    destruct (String.eqb path ""); [apply disk_stable_ret|].
    apply disk_stable_bind; [apply disk_stable_torch_load|]. intro.
    apply disk_stable_load. }
  intro. apply disk_stable_bind; [apply disk_stable_CriticCNN|]. intro.
  apply disk_stable_bind; [apply disk_stable_load|]. intro.
  apply disk_stable_ret.
Qed.

(** ** The critics of __init__ *)

Lemma init_critics_plain state_dim action_dim critic_chkp a t c e :
  (0 <= action_dim)%Z ->
  mstatic c = critic_static action_dim ->
  critic_chkp = None \/ critic_chkp = Some "" ->
  exists ct e5,
    disk e5 = disk e /\ mstatic ct = critic_static action_dim
    /\ no_grads ct = true
    /\ init_critics state_dim action_dim critic_chkp a t c e
       = (Ok (mkDDPG state_dim false a t (mkAdam Actor (1 / 10000) []) c
                (load_entries (state_dict c) ct)
                (mkAdam Critic (1 / 1000) [])), e5).
Proof.
  intros Ha Sc Hk.
  destruct (init_finish state_dim action_dim a t c e Ha Sc)
    as (ct & e5 & _ & Hd & Sct & Gct & E).
  exists ct, e5. split; [exact Hd|]. split; [exact Sct|]. split; [exact Gct|].
  unfold init_critics.
  destruct Hk as [-> | ->]; cbn [String.eqb];
    rewrite (bind_eq (ret c) _ e c e eq_refl); exact E.
Qed.

Lemma init_critics_missing state_dim action_dim path a t c e :
  path <> "" -> files (disk e) path = None ->
  init_critics state_dim action_dim (Some path) a t c e
  = (Raise FileNotFoundError, e).
Proof.
  intros Hp Hf. unfold init_critics.
  apply String.eqb_neq in Hp. rewrite Hp.
  apply bind_raise. apply bind_raise. unfold torch_load. rewrite Hf.
  reflexivity.
Qed.

Lemma init_critics_file state_dim action_dim path a t c e sd :
  (0 <= action_dim)%Z ->
  mstatic c = critic_static action_dim ->
  path <> "" -> files (disk e) path = Some sd ->
  (strict_ok sd c = true ->
   exists ct e5,
     disk e5 = disk e /\ mstatic ct = critic_static action_dim
     /\ no_grads ct = true
     /\ init_critics state_dim action_dim (Some path) a t c e
        = (Ok (mkDDPG state_dim false a t (mkAdam Actor (1 / 10000) [])
                 (load_entries sd c)
                 (load_entries (state_dict (load_entries sd c)) ct)
                 (mkAdam Critic (1 / 1000) [])), e5))
  /\ (strict_ok sd c = false ->
      init_critics state_dim action_dim (Some path) a t c e
      = (Raise RuntimeError, e)).
Proof.
  intros Ha Sc Hp Hf. apply String.eqb_neq in Hp.
  assert (El : torch_load path e = (Ok sd, e))
    by (unfold torch_load; rewrite Hf; reflexivity).
  split; intro Hok.
  - assert (Sc' : mstatic (load_entries sd c) = critic_static action_dim)
      by (rewrite mstatic_load; exact Sc).
    destruct (init_finish state_dim action_dim a t (load_entries sd c) e Ha Sc')
      as (ct & e5 & _ & Hd & Sct & Gct & E).
    exists ct, e5. split; [exact Hd|]. split; [exact Sct|].
    split; [exact Gct|].
    unfold init_critics. rewrite Hp.
    assert (Ec : bind (torch_load path)
                   (fun sd0 => load_state_dict_new c sd0) e
                 = (Ok (load_entries sd c), e)).
    { rewrite (bind_eq _ _ _ _ _ El). unfold load_state_dict_new.
      rewrite Hok. reflexivity. }
    rewrite (bind_eq _ _ _ _ _ Ec). exact E.
  - unfold init_critics. rewrite Hp.
    apply bind_raise. rewrite (bind_eq _ _ _ _ _ El).
    unfold load_state_dict_new. rewrite Hok. reflexivity.
Qed.

(** The strict check, from the layout of the module. *)
Lemma has_key_map {V B} (f : V -> B) k (l : list (string * V)) :
  has_key k (map (fun e => (fst e, f (snd e))) l) = has_key k l.
Proof.
  unfold has_key. induction l as [|[k' v] l IH]; [reflexivity|].
  simpl. destruct (String.eqb k k'); [reflexivity | exact IH].
Qed.

Lemma forallb_over_map {A B} (f : B -> bool) (g : A -> B) (l : list A) :
  forallb f (map g l) = forallb (fun a => f (g a)) l.
Proof.
  induction l as [|a l IH]; [reflexivity|]. simpl. rewrite IH. reflexivity.
Qed.

Lemma forallb_same {A} (f g : A -> bool) (l : list A) :
  (forall a, f a = g a) -> forallb f l = forallb g l.
Proof.
  intro H. induction l as [|a l IH]; [reflexivity|].
  simpl. rewrite H, IH. reflexivity.
Qed.

Lemma strict_ok_layout c ps bs sd m :
  laid_out c ps bs m -> strict_ok sd m = fits_layout sd ps bs.
Proof.
  intros (_ & Hp & Hb). unfold strict_ok, fits_layout.
  subst ps bs. unfold pshapes, bshapes.
  rewrite !forallb_over_map.
  apply (f_equal2 andb); [apply (f_equal2 andb)|]; apply forallb_same;
    intros [k v]; cbn [fst snd]; try reflexivity.
  rewrite (has_key_map (fun p => shape (pdata p))).
  rewrite (has_key_map (fun b : Tensor => shape b)). reflexivity.
Qed.

(** The exceptions of __init__. *)
Lemma init_actors_raises state_dim action_dim max_action net_type :
  raises_only RuntimeError
    (if String.eqb net_type "pid" then
       bind (ActorPID_init state_dim action_dim max_action) (fun a =>
       bind (ActorPID_init state_dim action_dim max_action) (fun t =>
       ret (false, a, t)))
     else
       bind (ActorCNN_init action_dim max_action) (fun a =>
       bind (ActorCNN_init action_dim max_action) (fun t =>
       ret (false, a, t)))).
Proof.
  destruct (String.eqb net_type "pid").
  - apply raises_only_bind; [apply ActorPID_init_raises|]. intro.
    apply raises_only_bind; [apply ActorPID_init_raises|]. intro.
    apply raises_only_ret.
  - apply raises_only_bind; [apply ActorCNN_init_raises|]. intro.
    apply raises_only_bind; [apply ActorCNN_init_raises|]. intro.
    apply raises_only_ret.
Qed.

Lemma DDPG_init_raise state_dim action_dim max_action net_type critic_chkp e x
    e' :
  DDPG_init state_dim action_dim max_action net_type critic_chkp e
  = (Raise x, e') ->
  (x = AssertionError /\ net_type <> "cnn" /\ net_type <> "pid" /\ e' = e)
  \/ ((net_type = "cnn" \/ net_type = "pid")
      /\ (x = RuntimeError
          \/ (x = FileNotFoundError
              /\ exists path, critic_chkp = Some path /\ path <> ""
                              /\ files (disk e) path = None))).
Proof.
  unfold DDPG_init.
  destruct (existsb (String.eqb net_type) ["cnn"; "pid"]) eqn:V; cbn [negb].
  - intro E. right. split; [apply valid_net_type; exact V|].
    apply bind_run in E. destruct E as [(n & e1 & En & E) | (y & En & Hy)].
    2: { left. injection Hy as ->.
         exact (init_actors_raises _ _ _ _ _ _ _ En). }
    assert (D1 : disk e1 = disk e).
    { revert En. destruct (String.eqb net_type "pid"); intro En.
      - apply bind_ok in En. destruct En as (a1 & e01 & Ea & En).
        apply bind_ok in En. destruct En as (t1 & e02 & Et & En).
        apply ret_ok in En. destruct En as [_ ->].
        rewrite (disk_stable_ActorPID _ _ _ _ _ _ Et).
        apply (disk_stable_ActorPID _ _ _ _ _ _ Ea).
      - apply bind_ok in En. destruct En as (a1 & e01 & Ea & En).
        apply bind_ok in En. destruct En as (t1 & e02 & Et & En).
        apply ret_ok in En. destruct En as [_ ->].
        rewrite (disk_stable_ActorCNN _ _ _ _ _ Et).
        apply (disk_stable_ActorCNN _ _ _ _ _ Ea). }
    apply bind_run in E. destruct E as [(t & e2 & Et & E) | (y & Et & Hy)].
    2: { left. injection Hy as ->.
         exact (load_state_dict_new_raises _ _ _ _ _ Et). }
    pose proof (disk_stable_load _ _ _ _ _ Et) as D2.
    apply bind_run in E. destruct E as [(c & e3 & Ec & E) | (y & Ec & Hy)].
    2: { left. injection Hy as ->. exact (CriticCNN_init_raises _ _ _ _ Ec). }
    pose proof (disk_stable_CriticCNN _ _ _ _ Ec) as D3.
    apply bind_run in E. destruct E as [(c' & e4 & Ec' & E) | (y & Ec' & Hy)].
    2: { injection Hy as ->. destruct critic_chkp as [path|];
           [|discriminate Ec'].
         destruct (String.eqb path "") eqn:Hp; [discriminate Ec'|].
         apply bind_run in Ec'.
         destruct Ec' as [(sd & e5 & El & Ec') | (z & El & Hz)].
         - left. exact (load_state_dict_new_raises _ _ _ _ _ Ec').
         - right. injection Hz as ->. revert El. unfold torch_load.
           destruct (files (disk e3) path) eqn:Hf; [discriminate|].
           intro El. injection El as <- _.
           split; [reflexivity|]. exists path.
           split; [reflexivity|]. split.
           + apply String.eqb_neq. exact Hp.
           + rewrite <- D1, <- D2, <- D3. exact Hf. }
    apply bind_run in E. destruct E as [(ct & e5 & Ect & E) | (y & Ect & Hy)].
    2: { left. injection Hy as ->. exact (CriticCNN_init_raises _ _ _ _ Ect). }
    apply bind_run in E. destruct E as [(ct' & e6 & Ect' & E) | (y & Ect' & Hy)].
    2: { left. injection Hy as ->.
         exact (load_state_dict_new_raises _ _ _ _ _ Ect'). }
    discriminate E.
  - intro E. injection E as <- <-. left.
    split; [reflexivity|].
    assert (H : ~ (net_type = "cnn" \/ net_type = "pid")).
    { intro H. apply valid_net_type in H. congruence. }
    tauto.
Qed.

(** What __init__ returns. *)
Lemma DDPG_init_post dims action_dim max_action net_type
    critic_chkp e a e' :
  DDPG_init dims action_dim max_action net_type critic_chkp e
  = (Ok a, e') ->
  (net_type = "cnn" \/ net_type = "pid")
  /\ static a = static_of dims action_dim max_action net_type
  /\ adam_state (actor_optimizer a) = []
  /\ adam_state (critic_optimizer a) = []
  /\ (forall who, no_grads (get_net who a) = true)
  /\ disk e' = disk e.
Proof.
  intro E.
  destruct (DDPG_init_valid _ _ _ _ _ _ _ _ E) as [Hn Hv].
  split; [exact Hn|].
  pose proof (disk_stable_init _ _ _ _ _ _ _ _ E) as Hd.
  destruct (init_to_critic dims action_dim max_action net_type e Hn Hv)
    as (a0 & t0 & c0 & e3 & _ & Sa & St & Sc & Ga & Gt & Gc & H).
  revert E. rewrite (H critic_chkp). unfold init_critics. intro E.
  apply bind_ok in E. destruct E as (c & e4 & Ec & E).
  assert (Hc : mstatic c = critic_static action_dim /\ no_grads c = true).
  { destruct critic_chkp as [path|].
    - destruct (String.eqb path "").
      + apply ret_ok in Ec. destruct Ec as [-> _]. auto.
      + apply bind_ok in Ec. destruct Ec as (sd & e3' & El & Ec).
        apply load_state_dict_new_run in Ec.
        destruct Ec as [_ [[_ Ec] | [_ Ec]]]; [|discriminate Ec].
        injection Ec as ->. rewrite mstatic_load, no_grads_load. auto.
    - apply ret_ok in Ec. destruct Ec as [-> _]. auto. }
  destruct Hc as [Sc' Gc'].
  apply bind_ok in E. destruct E as (ct & e5 & Ect & E).
  destruct (CriticCNN_init_fresh _ _ _ _ Ect) as [Sct Gct].
  apply bind_ok in E. destruct E as (ct' & e6 & Ect' & E).
  apply load_state_dict_new_run in Ect'.
  destruct Ect' as [_ [[_ Ect'] | [_ Ect']]]; [|discriminate Ect'].
  injection Ect' as ->.
  apply ret_ok in E. destruct E as [-> _].
  split.
  { unfold static, static_of.
    cbn [state_dim flat actor actor_target critic critic_target
         actor_optimizer critic_optimizer].
    rewrite !mstatic_load, Sa, St, Sc', Sct. reflexivity. }
  split; [reflexivity|]. split; [reflexivity|]. split; [|exact Hd].
  intros [| | |]; cbn [get_net actor actor_target critic critic_target];
    rewrite ?no_grads_load; assumption.
Qed.

(** ** Construction *)

(** X1. DDPG.__init__ raises AssertionError exactly when net_type is neither
    "cnn" nor "pid"; nothing has been built then (the generator and the
    files are as before), and no other failure of __init__ is an
    AssertionError. *)
Theorem init_rejects_net_type state_dim action_dim max_action net_type
    critic_chkp e :
  (net_type <> "cnn" /\ net_type <> "pid" ->
   DDPG_init state_dim action_dim max_action net_type critic_chkp e
   = (Raise AssertionError, e))
  /\ (forall e',
        DDPG_init state_dim action_dim max_action net_type critic_chkp e
        = (Raise AssertionError, e') ->
        net_type <> "cnn" /\ net_type <> "pid" /\ e' = e).
Proof.
  split.
  - intros [H1 H2]. unfold DDPG_init.
    destruct (existsb (String.eqb net_type) ["cnn"; "pid"]) eqn:V;
      [|reflexivity].
    apply valid_net_type in V. tauto.
  - intros e' E. apply DDPG_init_raise in E.
    destruct E as [(_ & H1 & H2 & H3) | (_ & [H | (H & _)])];
      [tauto | discriminate H | discriminate H].
Qed.

(** X2. The agent DDPG.__init__ returns: net_type was "cnn" or "pid"; the
    actor and its target have the class net_type selects, the critic and its
    target are CriticCNN; all four networks are in training mode and have
    the names and shapes of parameters and buffers that their constructors
    register for action_dim (and state_dim); the actor's optimizer has the
    learning rate 1e-4 and the critic's 1e-3; flat is False; no parameter
    has a gradient and no optimizer has state yet; no file was written. *)
Theorem init_postcondition state_dim action_dim max_action net_type
    critic_chkp e a e' :
  DDPG_init state_dim action_dim max_action net_type critic_chkp e
  = (Ok a, e') ->
  (net_type = "cnn" \/ net_type = "pid")
  /\ static a = static_of state_dim action_dim max_action net_type
  /\ adam_state (actor_optimizer a) = []
  /\ adam_state (critic_optimizer a) = []
  /\ (forall who, no_grads (get_net who a) = true)
  /\ disk e' = disk e.
Proof. apply DDPG_init_post. Qed.

Lemma init_postcondition_witness :
  ("cnn" = "cnn" \/ "cnn" = "pid")
  /\ static (self (demo_world "cnn")) = static_of [3; 120; 160]%Z 2 1 "cnn"
  /\ adam_state (actor_optimizer (self (demo_world "cnn"))) = []
  /\ adam_state (critic_optimizer (self (demo_world "cnn"))) = []
  /\ (forall who, no_grads (get_net who (self (demo_world "cnn"))) = true)
  /\ disk (env (demo_world "cnn")) = disk demo_env.
Proof.
  apply (init_postcondition [3; 120; 160]%Z 2 1 "cnn" None demo_env
           (self (demo_world "cnn")) (env (demo_world "cnn"))).
  apply (succeeded_init (DDPG_init [3; 120; 160]%Z 2 1 "cnn" None demo_env)).
  vm_compute. reflexivity.
Defined.

(** X3. With net_type "cnn" or "pid", an action_dim that is not negative
    (and, for "pid", a state_dim whose product is not negative) and no
    critic checkpoint (None, or the empty string, which Python takes as
    false), DDPG.__init__ returns. *)
Theorem init_returns state_dim action_dim max_action net_type critic_chkp e :
  net_type = "cnn" \/ net_type = "pid" ->
  valid_dims state_dim action_dim net_type ->
  critic_chkp = None \/ critic_chkp = Some "" ->
  exists a e',
    DDPG_init state_dim action_dim max_action net_type critic_chkp e
    = (Ok a, e').
Proof.
  intros Hn Hv Hk.
  destruct (init_to_critic state_dim action_dim max_action net_type e Hn Hv)
    as (a0 & t0 & c0 & e3 & _ & _ & _ & Sc & _ & _ & _ & H).
  destruct Hv as [Ha _].
  destruct (init_critics_plain state_dim action_dim critic_chkp a0
              (load_entries (state_dict a0) t0) c0 e3 Ha Sc Hk)
    as (ct & e5 & _ & _ & _ & E).
  eexists. exists e5. rewrite (H critic_chkp). exact E.
Qed.

Lemma init_returns_witness :
  exists a e', DDPG_init [3; 4]%Z 2 1 "pid" (Some "") demo_env = (Ok a, e').
Proof.
  apply (init_returns [3; 4]%Z 2 1 "pid" (Some "") demo_env).
  - right. reflexivity.
  - split; [lia | intros _; simpl; lia].
  - right. reflexivity.
Defined.

(** X4. With valid arguments and a critic checkpoint path under which there
    is no file, DDPG.__init__ raises FileNotFoundError, and writes no
    file. *)
Theorem init_missing_checkpoint state_dim action_dim max_action net_type path
    e :
  net_type = "cnn" \/ net_type = "pid" ->
  valid_dims state_dim action_dim net_type ->
  path <> "" -> files (disk e) path = None ->
  exists e',
    DDPG_init state_dim action_dim max_action net_type (Some path) e
    = (Raise FileNotFoundError, e')
    /\ disk e' = disk e.
Proof.
  intros Hn Hv Hp Hf.
  destruct (init_to_critic state_dim action_dim max_action net_type e Hn Hv)
    as (a0 & t0 & c0 & e3 & Hd & _ & _ & _ & _ & _ & _ & H).
  exists e3. split; [|exact Hd].
  rewrite (H (Some path)). apply init_critics_missing; [exact Hp|].
  rewrite Hd. exact Hf.
Qed.

Lemma init_missing_checkpoint_witness :
  exists e',
    DDPG_init [3; 120; 160]%Z 2 1 "cnn" (Some "models/none.pth") demo_env
    = (Raise FileNotFoundError, e')
    /\ disk e' = disk demo_env.
Proof.
  apply (init_missing_checkpoint [3; 120; 160]%Z 2 1 "cnn" "models/none.pth"
           demo_env).
  - left. reflexivity.
  - split; [lia | discriminate].
  - discriminate.
  - reflexivity.
Defined.

(** X5. With valid arguments and a critic checkpoint file, DDPG.__init__
    returns when the file holds, under the names of the parameters and
    buffers of CriticCNN(action_dim), tensors of their shapes and nothing
    else; it raises RuntimeError otherwise (a missing or an unexpected key,
    or a tensor of another shape, as in the checkpoint of an actor). *)
Theorem init_checks_checkpoint state_dim action_dim max_action net_type path
    e sd :
  net_type = "cnn" \/ net_type = "pid" ->
  valid_dims state_dim action_dim net_type ->
  path <> "" -> files (disk e) path = Some sd ->
  if fits_layout sd (CriticCNN_layout action_dim) bn_layout then
    exists a e',
      DDPG_init state_dim action_dim max_action net_type (Some path) e
      = (Ok a, e')
  else
    exists e',
      DDPG_init state_dim action_dim max_action net_type (Some path) e
      = (Raise RuntimeError, e').
Proof.
  intros Hn Hv Hp Hf.
  destruct (init_to_critic state_dim action_dim max_action net_type e Hn Hv)
    as (a0 & t0 & c0 & e3 & Hd & _ & _ & Sc & _ & _ & _ & H).
  destruct Hv as [Ha _].
  rewrite <- Hd in Hf.
  destruct (init_critics_file state_dim action_dim path a0
              (load_entries (state_dict a0) t0) c0 e3 sd Ha Sc Hp Hf)
    as [Hok Hbad].
  rewrite <- (strict_ok_layout CriticCNN _ _ sd c0
                (mstatic_laid _ _ _ _ _ _ Sc)).
  destruct (strict_ok sd c0).
  - destruct (Hok eq_refl) as (ct & e5 & _ & _ & _ & E).
    eexists. exists e5. rewrite (H (Some path)). exact E.
  - exists e3. rewrite (H (Some path)). exact (Hbad eq_refl).
Qed.

(** ** What no method changes *)

(** The methods keep the static part, whether they return or raise. *)
Lemma predict_static K state dist angle only_pid w :
  static (self (snd (predict K state dist angle only_pid w))) = static (self w).
Proof.
  destruct (spec_predict K (fun _ => True) True_static
              [LBuffers Actor; LRng] state dist angle only_pid)
    with (w := w) (r := fst (predict K state dist angle only_pid w))
         (w' := snd (predict K state dist angle only_pid w)) as [[S _] _];
    simpl; auto using run_pair.
Qed.

Lemma train_static K rb iterations batch_size discount tau w :
  Wired w ->
  static (self (snd (train K rb iterations batch_size discount tau w)))
  = static (self w).
Proof.
  intro Hw.
  destruct (spec_train K rb iterations batch_size discount tau)
    with (w := w) (r := fst (train K rb iterations batch_size discount tau w))
         (w' := snd (train K rb iterations batch_size discount tau w))
    as [[S _] _]; auto using run_pair.
Qed.

Lemma save_static filename directory w :
  static (self (snd (save filename directory w))) = static (self w).
Proof.
  destruct (spec_save (fun _ => True) True_static [LDisk] filename directory)
    with (w := w) (r := fst (save filename directory w))
         (w' := snd (save filename directory w)) as [[S _] _];
    simpl; auto using run_pair.
Qed.

Lemma load_static filename directory w :
  static (self (snd (load filename directory w))) = static (self w).
Proof.
  destruct (spec_load (fun _ => True) True_static filename directory)
    with (w := w) (r := fst (load filename directory w))
         (w' := snd (load filename directory w)) as [[S _] _];
    simpl; auto using run_pair.
Qed.

(** Every state an agent reaches has the static part of its construction. *)
Lemma reachable_built K net_type w :
  reachable K net_type w ->
  (net_type = "cnn" \/ net_type = "pid")
  /\ exists state_dim action_dim max_action,
       static (self w) = static_of state_dim action_dim max_action net_type.
Proof.
  intro Hr.
  induction Hr as [sd ad ma chk e a e' E
                  | w st d an o Hr IH
                  | w rb it bs disc tau Hr IH
                  | w f d Hr IH
                  | w f d Hr IH
                  | w e Hr IH].
  - destruct (DDPG_init_post _ _ _ _ _ _ _ _ E) as (Hn & S & _).
    split; [exact Hn|]. exists sd, ad, ma. exact S.
  - destruct IH as (Hn & sd & ad & ma & S).
    split; [exact Hn|]. exists sd, ad, ma.
    rewrite <- S. apply predict_static.
  - destruct IH as (Hn & sd & ad & ma & S).
    split; [exact Hn|]. exists sd, ad, ma.
    rewrite <- S. apply train_static. apply (reachable_Inv _ _ _ Hr).
  - destruct IH as (Hn & sd & ad & ma & S).
    split; [exact Hn|]. exists sd, ad, ma.
    rewrite <- S. apply save_static.
  - destruct IH as (Hn & sd & ad & ma & S).
    split; [exact Hn|]. exists sd, ad, ma.
    rewrite <- S. apply load_static.
  - destruct IH as (Hn & sd & ad & ma & S).
    split; [exact Hn|]. exists sd, ad, ma. exact S.
Qed.

Lemma static_of_net state_dim action_dim max_action net_type a who :
  static a = static_of state_dim action_dim max_action net_type ->
  mstatic (get_net who a)
  = match who with
    | Actor | ActorTarget =>
        actor_static state_dim action_dim max_action net_type
    | Critic | CriticTarget => critic_static action_dim
    end.
Proof.
  intro S. destruct who.
  - exact (f_equal (fun s => fst (snd (fst (fst s)))) S).
  - exact (f_equal (fun s => snd (snd (fst (fst s)))) S).
  - exact (f_equal (fun s => fst (snd (fst s))) S).
  - exact (f_equal (fun s => snd (snd (fst s))) S).
Qed.

Lemma mstatic_training m c tr ma ps bs :
  mstatic m = (c, tr, ma, ps, bs) -> training m = tr.
Proof. unfold mstatic. intro E. injection E as _ E _ _ _. exact E. Qed.

Lemma reachable_training K net_type w who :
  reachable K net_type w -> training (get_net who (self w)) = true.
Proof.
  intro Hr. destruct (reachable_built _ _ _ Hr) as (_ & sd & ad & ma & S).
  pose proof (static_of_net _ _ _ _ _ who S) as Hm.
  destruct who; exact (mstatic_training _ _ _ _ _ _ Hm).
Qed.



(** ** The control-only action *)

Lemma demo_expands : expands_constants demo_kernels.
Proof.
  intros s sh c t H i. cbn [broadcast_to demo_kernels] in H.
  unfold demo_broadcast_to in H. cbn [shape data] in H.
  destruct (expands_rev (rev s) (rev sh)); [|discriminate H].
  injection H as <-. reflexivity.
Qed.

Lemma fit_const K s sh c v' :
  expands_constants K ->
  fit K s (mkTensor sh (fun _ => c) []) = Ok v' ->
  tape v' = [] /\ forall i, data v' i = c.
Proof.
  intros HK. unfold fit. cbn [shape tape detach data].
  destruct (shape_eqb sh s).
  - intro E. injection E as <-. split; reflexivity.
  - unfold via, rbind.
    destruct (broadcast_to K s _) as [y|] eqn:Eb; [|discriminate].
    intro E. injection E as <-. split; [reflexivity|].
    intro i. exact (HK _ _ _ _ Eb i).
Qed.

Lemma pid_action_ok K x dist t :
  pid_action K x dist = Ok t ->
  exists b v',
    shape0 x = Ok b
    /\ fit K [b] (mkTensor (shape (squeeze dist)) (fun _ => 1 / 2 * 1) [])
       = Ok v'
    /\ t = mkTensor [b; 2%Z]
             (fun i => if Z.eqb (i mod 2) 0 then data v' (i / 2)%Z else 0)
             (tape_union [] []).
Proof.
  unfold pid_action, rbind. destruct (shape0 x) as [b|]; [|discriminate].
  intro E. apply set_col_ok in E.
  destruct E as (b0 & a & v' & Hs & _ & Hf & ->).
  cbn [shape zeros] in Hs. injection Hs as <- <-.
  exists b, v'. split; [reflexivity|]. split; [exact Hf | reflexivity].
Qed.

(** The two actors share the control-only path. *)
Lemma only_PID_forward K who x dist angle w :
  ActorCNN_forward K who x dist angle true w
  = ActorPID_forward K who x dist angle w.
Proof. reflexivity. Qed.

Lemma ActorPID_forward_ok K who x dist angle w out w' :
  ActorPID_forward K who x dist angle w = (Ok out, w') ->
  w' = w
  /\ exists x0,
       pid_action K x dist = Ok x0
       /\ add_angle_control K x0 dist angle = Ok out.
Proof.
  unfold ActorPID_forward. intro E.
  apply bind_ok in E. destruct E as (x0 & w1 & E0 & E).
  apply lift_ok in E0. destruct E0 as [E0 ->].
  apply lift_ok in E. destruct E as [E ->].
  split; [reflexivity|]. exists x0. split; assumption.
Qed.

Lemma tape_within_none t : tape_within [] t -> tape t = [].
Proof.
  unfold tape_within. destruct (tape t) as [|l ls]; [reflexivity|].
  intro H. destruct (H l (or_introl eq_refl)).
Qed.

(** The action of the control-only path, entry by entry. *)
Lemma pid_head K x dist angle out :
  expands_constants K ->
  (exists x0,
     pid_action K x dist = Ok x0
     /\ add_angle_control K x0 dist angle = Ok out) ->
  exists b throttle c c' l,
    shape0 x = Ok b /\ shape out = [b; 2%Z]
    /\ (forall r, data out (r * 2 + 0)%Z = 1 / 2)
    /\ shape throttle = [b] /\ tape throttle = []
    /\ (forall r, data throttle r = 1 / 2)
    /\ angle_control_commands K (detach (squeeze dist))
         (detach (squeeze angle)) throttle = Ok c
    /\ fit K [b] (retape l c) = Ok c'
    /\ (forall r, data out (r * 2 + 1)%Z = round32 (data c' r))
    /\ (tape dist = [] -> tape angle = [] -> tape out = []).
Proof.
  intros HK (x0 & E0 & E).
  assert (Ht : tape dist = [] -> tape angle = [] -> tape out = []).
  { intros Hd Ha. apply tape_within_none.
    apply (within_add_angle_control K [] x0 dist angle out);
      [|apply tape_within_nil; exact Hd|apply tape_within_nil; exact Ha
       |exact E].
    exact (within_pid_action K [] x dist x0 E0). }
  apply pid_action_ok in E0. destruct E0 as (b & v' & Hb & Hf & ->).
  apply (fit_const K) in Hf; [|exact HK]. destruct Hf as [_ Hv].
  apply add_angle_control_ok in E.
  destruct E as (b0 & a & c & c' & Hs & _ & Ec & Hf' & Hso & H1 & H0).
  cbn [shape] in Hs. injection Hs as <- <-.
  cbn [data tape] in Ec, Hf', H1, H0.
  assert (Hthr : forall r : Z,
             (if Z.eqb ((r * 2 + 0) mod 2) 0 then data v' ((r * 2 + 0) / 2)%Z
              else 0) = 1 / 2).
  { intro r. rewrite entry_col by lia. rewrite Z.eqb_refl. rewrite Hv. lra. }
  exists b,
    (detach
       (mkTensor [b]
          (fun r : Z =>
             if Z.eqb ((r * 2 + 0) mod 2) 0 then data v' ((r * 2 + 0) / 2)%Z
             else 0)
          (tape_union [] []))), c, c'.
  eexists.
  split; [exact Hb|]. split; [exact Hso|].
  split.
  { intro r. rewrite (H0 r 0%Z) by lia. apply Hthr. }
  split; [reflexivity|]. split; [reflexivity|].
  split; [intro r; cbn [data detach]; apply Hthr|].
  split; [exact Ec|]. split; [exact Hf'|].
  split; [|exact Ht].
  intro r. rewrite H1. rewrite entry_col by lia.
  change (1 =? 0)%Z with false. cbn iota. rewrite Rplus_0_l. reflexivity.
Qed.

(** ** Errors of predict, and its control-only mode *)

(** X7. predict asserts that the first dimension of the state is 3: for a
    state with another first dimension it raises AssertionError before it
    touches the actor, whatever the agent and the mode, and for a state
    without dimensions it raises IndexError; the agent and the environment
    are as before. *)
Theorem predict_asserts_channels K state dist angle only_pid w :
  shape0 state <> Ok 3%Z ->
  predict K state dist angle only_pid w
  = (match shape0 state with
     | Ok _ => Raise AssertionError
     | Raise x => Raise x
     end, w).
Proof.
  intro H. unfold predict, bind, lift.
  destruct (shape0 state) as [c|x]; [|reflexivity].
  destruct (Z.eqb_spec c 3) as [->|Hne]; [contradiction H; reflexivity|].
  reflexivity.
Qed.

Lemma predict_asserts_channels_witness :
  predict demo_kernels (mkTensor [120; 160; 3]%Z (fun _ => 1) []) demo_dist
    demo_angle false (demo_world "cnn")
  = (Raise AssertionError, demo_world "cnn").
Proof.
  apply (predict_asserts_channels demo_kernels
           (mkTensor [120; 160; 3]%Z (fun _ => 1) []) demo_dist demo_angle
           false (demo_world "cnn")).
  simpl. discriminate.
Defined.

Lemma state_tensor_rows fl state : shape0 (state_tensor fl state) = Ok 1%Z.
Proof. destruct fl; reflexivity. Qed.

Lemma pid_action_rows K x x' dist :
  shape0 x = shape0 x' -> pid_action K x dist = pid_action K x' dist.
Proof. unfold pid_action. intros ->. reflexivity. Qed.

Lemma call_only_PID K x dist angle w :
  cls (actor (self w)) = ActorCNN ->
  call K Actor [PTensor x; PTensor dist; PTensor angle; PBool true] w
  = ActorPID_forward K Actor x dist angle w.
Proof.
  intro Hc. unfold call.
  rewrite (bind_eq (read_net Actor) _ w (actor (self w)) w eq_refl).
  cbn beta. rewrite Hc. apply only_PID_forward.
Qed.

Lemma predict_only_pid_run K state dist angle w :
  cls (actor (self w)) = ActorCNN -> shape0 state = Ok 3%Z ->
  predict K state dist angle true w
  = (let? x0 := pid_action K (zeros [1%Z]) (detach dist) in
     let? a := add_angle_control K x0 (detach dist) (detach angle) in
     Ok (flatten (detach a)), w).
Proof.
  intros Hc Hs. unfold predict.
  assert (E1 : lift (S := World) (shape0 state) w = (Ok 3%Z, w))
    by (unfold lift; rewrite Hs; reflexivity).
  rewrite (bind_eq _ _ _ _ _ E1). cbn beta.
  change (negb (3 =? 3)%Z) with false. cbn iota.
  rewrite (bind_eq get _ w w w eq_refl). cbn beta.
  unfold bind. rewrite (call_only_PID K _ _ _ w Hc).
  unfold ActorPID_forward, bind, lift, rbind, ret.
  rewrite (pid_action_rows K _ (zeros [1%Z]) (detach dist))
    by (rewrite state_tensor_rows; reflexivity).
  destruct (pid_action K (zeros [1%Z]) (detach dist)) as [x0|]; [|reflexivity].
  destruct (add_angle_control K x0 (detach dist) (detach angle));
    reflexivity.
Qed.

(** X8. On an agent whose actor is an ActorCNN, predict with only_pid=True
    bypasses the network: the agent and the environment are exactly as
    before (no BatchNorm buffer is updated, no dropout mask drawn), the
    result does not depend on the entries of the state nor on the
    parameters, and an action that is returned is [0.5, steering] with the
    steering the controller answers for the throttle 0.5, as a float32
    number (torch's broadcasting keeping constants). *)
Theorem predict_only_pid K state dist angle w r w' :
  expands_constants K ->
  cls (actor (self w)) = ActorCNN -> shape0 state = Ok 3%Z ->
  predict K state dist angle true w = (r, w') ->
  w' = w
  /\ (forall state2 w2,
        cls (actor (self w2)) = ActorCNN -> shape0 state2 = Ok 3%Z ->
        predict K state2 dist angle true w2 = (r, w2))
  /\ (forall out, r = Ok out ->
      shape out = [2%Z] /\ tape out = [] /\ data out 0%Z = 1 / 2
      /\ exists throttle c c' l,
           shape throttle = [1%Z] /\ (forall i, data throttle i = 1 / 2)
           /\ angle_control_commands K (detach (squeeze (detach dist)))
                (detach (squeeze (detach angle))) throttle = Ok c
           /\ fit K [1%Z] (retape l c) = Ok c'
           /\ data out 1%Z = round32 (data c' 0%Z)).
Proof.
  intros HK Hc Hs E.
  rewrite (predict_only_pid_run K state dist angle w Hc Hs) in E.
  injection E as Er Ew. split; [symmetry; exact Ew|].
  split.
  { intros state2 w2 Hc2 Hs2.
    rewrite (predict_only_pid_run K state2 dist angle w2 Hc2 Hs2).
    rewrite Er. reflexivity. }
  intros out ->. revert Er. unfold rbind.
  destruct (pid_action K (zeros [1%Z]) (detach dist)) as [x0|] eqn:E0;
    [|discriminate].
  destruct (add_angle_control K x0 (detach dist) (detach angle)) as [a|] eqn:Ea;
    [|discriminate].
  intro Er. injection Er as <-.
  destruct (pid_head K (zeros [1%Z]) (detach dist) (detach angle) a HK)
    as (b & throttle & c & c' & l & Hb & Hso & H0 & Hts & _ & Htd & Ec & Hf
        & H1 & Ht).
  { exists x0. split; assumption. }
  cbn [shape0 shape zeros] in Hb. injection Hb as <-.
  cbn [flatten detach shape data tape]. rewrite Hso.
  split; [reflexivity|]. split; [reflexivity|].
  split; [exact (H0 0%Z)|].
  exists throttle, c, c', l.
  split; [exact Hts|]. split; [exact Htd|]. split; [exact Ec|].
  split; [exact Hf|]. exact (H1 0%Z).
Qed.

Lemma predict_only_pid_witness :
  snd demo_predict_pid = demo_world "cnn"
  /\ (forall state2 w2,
        cls (actor (self w2)) = ActorCNN -> shape0 state2 = Ok 3%Z ->
        predict demo_kernels state2 demo_dist demo_angle true w2
        = (fst demo_predict_pid, w2))
  /\ (forall out, fst demo_predict_pid = Ok out ->
      shape out = [2%Z] /\ tape out = [] /\ data out 0%Z = 1 / 2
      /\ exists throttle c c' l,
           shape throttle = [1%Z] /\ (forall i, data throttle i = 1 / 2)
           /\ angle_control_commands demo_kernels
                (detach (squeeze (detach demo_dist)))
                (detach (squeeze (detach demo_angle))) throttle = Ok c
           /\ fit demo_kernels [1%Z] (retape l c) = Ok c'
           /\ data out 1%Z = round32 (data c' 0%Z)).
Proof.
  apply (predict_only_pid demo_kernels demo_state demo_dist demo_angle
           (demo_world "cnn") (fst demo_predict_pid) (snd demo_predict_pid)).
  - exact demo_expands.
  - vm_compute. reflexivity.
  - reflexivity.
  - apply run_pair.
Defined.

(** X9. ActorPID.forward does not use the layers l1, l2, l3 nor the entries
    of x: it writes nothing, and the action it returns for a batch of b rows
    has the shape (b, 2), the throttle 0.5 on every row and, as steering,
    what the controller answers for (dist.squeeze(), angle.squeeze(), 0.5),
    as a float32 number; with inputs that do not require grad the action
    does not either. *)
Theorem ActorPID_forward_action K who x dist angle w out w' :
  expands_constants K ->
  ActorPID_forward K who x dist angle w = (Ok out, w') ->
  w' = w
  /\ (forall who2 x2 w2,
        shape0 x2 = shape0 x ->
        ActorPID_forward K who2 x2 dist angle w2 = (Ok out, w2))
  /\ exists b throttle c c' l,
       shape0 x = Ok b /\ shape out = [b; 2%Z]
       /\ (forall r, data out (r * 2 + 0)%Z = 1 / 2)
       /\ shape throttle = [b] /\ tape throttle = []
       /\ (forall r, data throttle r = 1 / 2)
       /\ angle_control_commands K (detach (squeeze dist))
            (detach (squeeze angle)) throttle = Ok c
       /\ fit K [b] (retape l c) = Ok c'
       /\ (forall r, data out (r * 2 + 1)%Z = round32 (data c' r))
       /\ (tape dist = [] -> tape angle = [] -> tape out = []).
Proof.
  intros HK E. apply ActorPID_forward_ok in E. destruct E as [-> Hx].
  split; [reflexivity|]. split.
  - intros who2 x2 w2 Hs. destruct Hx as (x0 & E0 & E).
    unfold ActorPID_forward.
    rewrite (pid_action_rows K x2 x dist Hs).
    unfold bind, lift. rewrite E0, E. reflexivity.
  - exact (pid_head K x dist angle out HK Hx).
Qed.

Lemma ActorPID_forward_action_witness :
  snd demo_pid_forward = demo_world "pid"
  /\ (forall who2 x2 w2,
        shape0 x2 = shape0 (b_state demo_batch) ->
        ActorPID_forward demo_kernels who2 x2 (b_dist demo_batch)
          (b_angle demo_batch) w2
        = (Ok (value_of demo_pid_forward), w2))
  /\ exists b throttle c c' l,
       shape0 (b_state demo_batch) = Ok b
       /\ shape (value_of demo_pid_forward) = [b; 2%Z]
       /\ (forall r, data (value_of demo_pid_forward) (r * 2 + 0)%Z = 1 / 2)
       /\ shape throttle = [b] /\ tape throttle = []
       /\ (forall r, data throttle r = 1 / 2)
       /\ angle_control_commands demo_kernels
            (detach (squeeze (b_dist demo_batch)))
            (detach (squeeze (b_angle demo_batch))) throttle = Ok c
       /\ fit demo_kernels [b] (retape l c) = Ok c'
       /\ (forall r, data (value_of demo_pid_forward) (r * 2 + 1)%Z
                     = round32 (data c' r))
       /\ (tape (b_dist demo_batch) = [] -> tape (b_angle demo_batch) = [] ->
           tape (value_of demo_pid_forward) = []).
Proof.
  apply (ActorPID_forward_action demo_kernels Actor (b_state demo_batch)
           (b_dist demo_batch) (b_angle demo_batch) (demo_world "pid")
           (value_of demo_pid_forward) (snd demo_pid_forward)).
  - exact demo_expands.
  - apply (succeeded_value demo_pid_forward). vm_compute. reflexivity.
Defined.

(** ** What a frame leaves equal *)

Lemma params_ext (ps ps' : list (string * Param)) :
  pshapes ps = pshapes ps' -> pvalues ps = pvalues ps' ->
  pgrads ps = pgrads ps' -> ps = ps'.
Proof.
  revert ps'. induction ps as [|[k [[s d t] g]] ps IH];
    intros [|[k' [[s' d' t'] g']] ps']; simpl; intros H1 H2 H3;
    try reflexivity; try discriminate.
  injection H1 as -> -> H1. injection H2 as -> -> H2. injection H3 as -> H3.
  rewrite (IH ps' H1 H2 H3). reflexivity.
Qed.

Lemma buffers_ext (bs bs' : list (string * Tensor)) :
  map (fun e => (fst e, shape (snd e))) bs
  = map (fun e => (fst e, shape (snd e))) bs' ->
  map (fun e => (data (snd e), tape (snd e))) bs
  = map (fun e => (data (snd e), tape (snd e))) bs' ->
  bs = bs'.
Proof.
  revert bs'. induction bs as [|[k [s d t]] bs IH];
    intros [|[k' [s' d' t']] bs']; simpl; intros H1 H2;
    try reflexivity; try discriminate.
  injection H1 as -> -> H1. injection H2 as -> -> H2.
  rewrite (IH bs' H1 H2). reflexivity.
Qed.

Lemma agree_params L who w w' :
  agree L w w' -> ~ In (LValues who) L -> ~ In (LGrads who) L ->
  named_parameters (get_net who (self w'))
  = named_parameters (get_net who (self w)).
Proof.
  intros [S H] Hv Hg. symmetry. apply params_ext.
  - exact (mstatic_pshapes _ _ (static_net who _ _ S)).
  - exact (H (LValues who) Hv).
  - exact (H (LGrads who) Hg).
Qed.

Lemma agree_buffers L who w w' :
  agree L w w' -> ~ In (LBuffers who) L ->
  named_buffers (get_net who (self w'))
  = named_buffers (get_net who (self w)).
Proof.
  intros [S H] Hb. symmetry. apply buffers_ext.
  - exact (mstatic_bshapes _ _ (static_net who _ _ S)).
  - exact (H (LBuffers who) Hb).
Qed.

Lemma agree_optimizer L o w w' :
  agree L w w' -> ~ In (LOpt o) L ->
  get_optimizer o (self w') = get_optimizer o (self w).
Proof.
  intros [S H] Ho. pose proof (H (LOpt o) Ho) as Hs. simpl in Hs.
  assert (Hst : ostatic (get_optimizer o (self w))
                = ostatic (get_optimizer o (self w'))).
  { destruct o.
    - exact (f_equal (fun s => fst (snd s)) S).
    - exact (f_equal (fun s => snd (snd s)) S). }
  destruct (get_optimizer o (self w)) as [g r st].
  destruct (get_optimizer o (self w')) as [g' r' st'].
  unfold ostatic in Hst. simpl in Hs, Hst.
  injection Hst as -> ->. rewrite Hs. reflexivity.
Qed.

Lemma no_grads_grads m m' : grads m = grads m' -> no_grads m = no_grads m'.
Proof.
  unfold no_grads, grads. intro H.
  rewrite <- (forallb_over_map
                (fun g : option Tensor =>
                   match g with None => true | Some _ => false end)
                (fun e : string * Param => grad (snd e))
                (named_parameters m)).
  rewrite <- (forallb_over_map
                (fun g : option Tensor =>
                   match g with None => true | Some _ => false end)
                (fun e : string * Param => grad (snd e))
                (named_parameters m')).
  rewrite H. reflexivity.
Qed.

Lemma agree_no_grads L who w w' :
  agree L w w' -> ~ In (LGrads who) L ->
  no_grads (get_net who (self w')) = no_grads (get_net who (self w)).
Proof.
  intros Ag H. apply no_grads_grads. exact (agree_grads L who w w' Ag H).
Qed.

(** The frames of the four methods, for any outcome. *)
Lemma predict_agree K state dist angle only_pid w :
  agree [LBuffers Actor; LRng] w (snd (predict K state dist angle only_pid w)).
Proof.
  destruct (spec_predict K (fun _ => True) True_static
              [LBuffers Actor; LRng] state dist angle only_pid)
    with (w := w) (r := fst (predict K state dist angle only_pid w))
         (w' := snd (predict K state dist angle only_pid w)) as [Ag _];
    simpl; auto using run_pair.
Qed.

Lemma train_agree K rb iterations batch_size discount tau w :
  Wired w ->
  agree train_footprint w
    (snd (train K rb iterations batch_size discount tau w)).
Proof.
  intro Hw.
  destruct (spec_train K rb iterations batch_size discount tau)
    with (w := w) (r := fst (train K rb iterations batch_size discount tau w))
         (w' := snd (train K rb iterations batch_size discount tau w))
    as [Ag _]; auto using run_pair.
Qed.

Lemma save_agree filename directory w :
  agree [LDisk] w (snd (save filename directory w)).
Proof.
  destruct (spec_save (fun _ => True) True_static [LDisk] filename directory)
    with (w := w) (r := fst (save filename directory w))
         (w' := snd (save filename directory w)) as [Ag _];
    simpl; auto using run_pair.
Qed.

Lemma load_agree filename directory w :
  agree load_footprint w (snd (load filename directory w)).
Proof.
  destruct (spec_load (fun _ => True) True_static filename directory)
    with (w := w) (r := fst (load filename directory w))
         (w' := snd (load filename directory w)) as [Ag _];
    simpl; auto using run_pair.
Qed.

(** ** The calls train makes on the replay buffer *)

Lemma repeat_snoc {A} (c : A) k l : repeat c k ++ c :: l = c :: repeat c k ++ l.
Proof.
  induction k as [|k IH]; [reflexivity|]. simpl. rewrite IH. reflexivity.
Qed.

Lemma train_loop_count K n rb bs discount tau w r w' :
  Wired w ->
  train_loop K n rb bs discount tau w = (r, w') ->
  exists k,
    (k <= n)%nat
    /\ sample_calls (env w')
       = repeat (bs, flat (self w)) k ++ sample_calls (env w)
    /\ (r = Ok tt -> k = n)
    /\ (forall x, r = Raise x -> (1 <= k)%nat).
Proof.
  revert w r w'. induction n as [|n IH]; intros w r w' Hw E.
  - simpl in E. injection E as <- <-. exists 0%nat.
    split; [lia|]. split; [reflexivity|]. split; [reflexivity|].
    intros x H. discriminate H.
  - simpl in E. apply bind_run in E.
    destruct E as [(a & w1 & Ei & El)|(x & Ei & ->)].
    + destruct (train_iteration_calls K rb bs discount tau w _ _ Hw Ei)
        as [Hc St].
      assert (Hw1 : Wired w1)
        by (apply (Wired_static w); [symmetry; exact St | exact Hw]).
      destruct (IH w1 r w' Hw1 El) as (k & Hk & Hc' & Hok & Hx).
      exists (S k). split; [lia|]. split.
      * rewrite Hc', Hc, <- (static_flat _ _ St). simpl. apply repeat_snoc.
      * split; [intro H; rewrite (Hok H); reflexivity|].
        intros x H. lia.
    + destruct (train_iteration_calls K rb bs discount tau w _ _ Hw Ei)
        as [Hc _].
      exists 1%nat. split; [lia|]. split; [exact Hc|].
      split; [intro H; discriminate H|]. intros y _. lia.
Qed.

(** X10. train samples the replay buffer once per iteration, with the batch
    size it was given and the flag flat of the agent: a call that returns
    has made exactly [iterations] calls of sample (none when [iterations] is
    zero or negative, and then nothing at all is changed); a call that
    raises has made at least one and at most [iterations] calls. *)
Theorem train_samples_per_iteration K rb iterations batch_size discount tau w
    r w' :
  Wired w ->
  train K rb iterations batch_size discount tau w = (r, w') ->
  (exists k,
     (k <= Z.to_nat iterations)%nat
     /\ sample_calls (env w')
        = repeat (batch_size, flat (self w)) k ++ sample_calls (env w)
     /\ (r = Ok tt -> k = Z.to_nat iterations)
     /\ (forall x, r = Raise x -> (1 <= k)%nat))
  /\ ((iterations <= 0)%Z -> r = Ok tt /\ w' = w).
Proof.
  intros Hw E. split.
  - exact (train_loop_count K _ rb batch_size discount tau w r w' Hw E).
  - intro Hi. revert E. unfold train.
    replace (Z.to_nat iterations) with 0%nat by lia.
    simpl. intro E. injection E as <- <-. split; reflexivity.
Qed.

Lemma train_samples_per_iteration_witness :
  (exists k,
     (k <= Z.to_nat 1)%nat
     /\ sample_calls
          (env (snd (train demo_kernels demo_buffer 1 2 (99 / 100) (1 / 1000)
                       (demo_world "cnn"))))
        = repeat (2%Z, flat (self (demo_world "cnn"))) k
          ++ sample_calls (env (demo_world "cnn"))
     /\ (fst (train demo_kernels demo_buffer 1 2 (99 / 100) (1 / 1000)
                (demo_world "cnn")) = Ok tt -> k = Z.to_nat 1)
     /\ (forall x,
           fst (train demo_kernels demo_buffer 1 2 (99 / 100) (1 / 1000)
                  (demo_world "cnn")) = Raise x -> (1 <= k)%nat))
  /\ ((1 <= 0)%Z ->
      fst (train demo_kernels demo_buffer 1 2 (99 / 100) (1 / 1000)
             (demo_world "cnn")) = Ok tt
      /\ snd (train demo_kernels demo_buffer 1 2 (99 / 100) (1 / 1000)
                (demo_world "cnn")) = demo_world "cnn").
Proof.
  apply (train_samples_per_iteration demo_kernels demo_buffer 1 2 (99 / 100)
           (1 / 1000) (demo_world "cnn")
           (fst (train demo_kernels demo_buffer 1 2 (99 / 100) (1 / 1000)
                   (demo_world "cnn")))
           (snd (train demo_kernels demo_buffer 1 2 (99 / 100) (1 / 1000)
                   (demo_world "cnn")))).
  - vm_compute. split; reflexivity.
  - apply run_pair.
Defined.

(** X11. When the first call of replay_buffer.sample raises, train (with at
    least one iteration) raises the same exception and has changed nothing
    but the buffer's record of that call: the agent, the generator and the
    files are as before. *)
Theorem train_sample_failure K rb iterations batch_size discount tau w x :
  (0 < iterations)%Z ->
  rb ((batch_size, flat (self w)) :: sample_calls (env w)) = Raise x ->
  train K rb iterations batch_size discount tau w
  = (Raise x, sampled batch_size w).
Proof.
  intros Hi Hx. unfold train.
  destruct (Z.to_nat iterations) as [|n] eqn:En; [lia|].
  simpl. unfold train_iteration.
  apply bind_raise. apply bind_raise. unfold gradient_steps.
  rewrite (bind_eq get _ w w w eq_refl). cbn beta.
  apply bind_raise. unfold liftE, rb_sample. cbn [env self].
  rewrite Hx. reflexivity.
Qed.

Lemma train_sample_failure_witness :
  train demo_kernels (fun _ => Raise IndexError) 3 2 (99 / 100) (1 / 1000)
    (demo_world "cnn")
  = (Raise IndexError, sampled 2 (demo_world "cnn")).
Proof.
  apply (train_sample_failure demo_kernels (fun _ => Raise IndexError) 3 2
           (99 / 100) (1 / 1000) (demo_world "cnn") IndexError).
  - lia.
  - reflexivity.
Defined.

(** ** The targets and the files *)

Lemma reachable_target_grads K net_type w :
  reachable K net_type w ->
  no_grads (get_net ActorTarget (self w)) = true
  /\ no_grads (get_net CriticTarget (self w)) = true.
Proof.
  induction 1 as [sd ad ma chk e a e' E
                 | w st d an o Hr IH
                 | w rb it bs disc tau Hr IH
                 | w f d Hr IH
                 | w f d Hr IH
                 | w e Hr IH].
  - destruct (DDPG_init_post _ _ _ _ _ _ _ _ E) as (_ & _ & _ & _ & G & _).
    split; [exact (G ActorTarget) | exact (G CriticTarget)].
  - pose proof (predict_agree K st d an o w) as Ag.
    rewrite (agree_no_grads _ ActorTarget _ _ Ag),
      (agree_no_grads _ CriticTarget _ _ Ag);
      [exact IH | simpl; intuition discriminate
       | simpl; intuition discriminate].
  - pose proof (train_agree K rb it bs disc tau w
                  (proj1 (reachable_Inv _ _ _ Hr))) as Ag.
    rewrite (agree_no_grads _ ActorTarget _ _ Ag),
      (agree_no_grads _ CriticTarget _ _ Ag);
      [exact IH | simpl; intuition discriminate
       | simpl; intuition discriminate].
  - pose proof (save_agree f d w) as Ag.
    rewrite (agree_no_grads _ ActorTarget _ _ Ag),
      (agree_no_grads _ CriticTarget _ _ Ag);
      [exact IH | simpl; intuition discriminate
       | simpl; intuition discriminate].
  - pose proof (load_agree f d w) as Ag.
    rewrite (agree_no_grads _ ActorTarget _ _ Ag),
      (agree_no_grads _ CriticTarget _ _ Ag);
      [exact IH | simpl; intuition discriminate
       | simpl; intuition discriminate].
  - exact IH.
Qed.

(** X12. No gradient ever reaches a target network: in every state an agent
    goes through after __init__, whatever calls of predict, train, save and
    load were made and however they ended, every parameter of actor_target
    and of critic_target has its grad None. *)
Theorem targets_never_have_gradients K net_type w :
  reachable K net_type w ->
  no_grads (actor_target (self w)) = true
  /\ no_grads (critic_target (self w)) = true.
Proof. exact (reachable_target_grads K net_type w). Qed.

Lemma targets_never_have_gradients_witness :
  no_grads
    (actor_target
       (self (snd (train demo_kernels demo_buffer 1 2 (99 / 100) (1 / 1000)
                     (demo_world "cnn"))))) = true
  /\ no_grads
       (critic_target
          (self (snd (train demo_kernels demo_buffer 1 2 (99 / 100) (1 / 1000)
                        (demo_world "cnn"))))) = true.
Proof.
  apply (targets_never_have_gradients demo_kernels "cnn"
           (snd (train demo_kernels demo_buffer 1 2 (99 / 100) (1 / 1000)
                   (demo_world "cnn")))).
  apply (reach_train demo_kernels "cnn" (demo_world "cnn") demo_buffer 1 2
           (99 / 100) (1 / 1000)).
  apply demo_reachable. vm_compute. reflexivity.
Defined.

Lemma torch_save_env sd path e :
  rng (snd (torch_save sd path e)) = rng e
  /\ sample_calls (snd (torch_save sd path e)) = sample_calls e.
Proof.
  unfold torch_save. destruct (writable (disk e) path); split; reflexivity.
Qed.

(** X13. Only save writes files: predict, train and load leave every file
    as it was, whether they return or raise; and save leaves the agent, the
    generator and the record of the replay buffer as they were, also when
    it fails. *)
Theorem only_save_writes_files K w :
  (forall state dist angle only_pid,
     disk (env (snd (predict K state dist angle only_pid w))) = disk (env w))
  /\ (Wired w ->
      forall rb iterations batch_size discount tau,
        disk (env (snd (train K rb iterations batch_size discount tau w)))
        = disk (env w))
  /\ (forall filename directory,
        disk (env (snd (load filename directory w))) = disk (env w))
  /\ (forall filename directory,
        self (snd (save filename directory w)) = self w
        /\ rng (env (snd (save filename directory w))) = rng (env w)
        /\ sample_calls (env (snd (save filename directory w)))
           = sample_calls (env w)).
Proof.
  split; [|split; [|split]].
  - intros state dist angle only_pid.
    destruct (predict_agree K state dist angle only_pid w) as [_ H].
    symmetry. apply (H LDisk). simpl. intuition discriminate.
  - intros Hw rb iterations batch_size discount tau.
    destruct (train_agree K rb iterations batch_size discount tau w Hw)
      as [_ H].
    symmetry. apply (H LDisk). unfold train_footprint, gradient_footprint.
    simpl. intuition discriminate.
  - intros filename directory.
    destruct (load_agree filename directory w) as [_ H].
    symmetry. apply (H LDisk). simpl. intuition discriminate.
  - intros filename directory.
    pose proof (torch_save_env (state_dict (actor (self w)))
                  (actor_path filename directory) (env w)) as H1.
    unfold save, bind, get, liftE. cbn beta iota.
    destruct (torch_save (state_dict (actor (self w)))
                (actor_path filename directory) (env w)) as [[[]|x1] e1];
      cbn [fst snd self env] in *; [|tauto].
    pose proof (torch_save_env (state_dict (critic (self w)))
                  (critic_path filename directory) e1) as H2.
    destruct (torch_save (state_dict (critic (self w)))
                (critic_path filename directory) e1) as [r2 e2].
    cbn [fst snd self env] in *.
    destruct H1 as [<- <-]. tauto.
Qed.

(** ** load, step by step *)

Lemma load_run filename directory w sda :
  files (disk (env w)) (actor_path filename directory) = Some sda ->
  strict_ok sda (actor (self w)) = true ->
  load filename directory w
  = match files (disk (env w)) (critic_path filename directory) with
    | Some sdc =>
        (if strict_ok sdc (critic (self w)) then Ok tt else Raise RuntimeError,
         mkWorld (set_net Critic (load_entries sdc (critic (self w)))
                    (self (actor_loaded sda w))) (env w))
    | None => (Raise FileNotFoundError, actor_loaded sda w)
    end.
Proof.
  intros Fa Sa.
  unfold load, bind, liftE, torch_load, load_state_dict, bind, read_net,
    write_net, ret, raise.
  cbn [env self get_net]. rewrite Fa. cbn [env self get_net]. rewrite Sa.
  cbn [env self get_net set_net critic actor].
  destruct (files (disk (env w)) (critic_path filename directory)) as [sdc|];
    [|reflexivity].
  cbn [env self get_net set_net critic actor].
  destruct (strict_ok sdc (critic (self w))); reflexivity.
Qed.

Lemma reachable_layouts K net_type w :
  reachable K net_type w ->
  (forall t, mstatic t = mstatic (actor (self w)) ->
             strict_ok (state_dict (actor (self w))) t = true
             /\ weights (load_entries (state_dict (actor (self w))) t)
                = weights (actor (self w))
             /\ bweights (load_entries (state_dict (actor (self w))) t)
                = bweights (actor (self w)))
  /\ (forall t, mstatic t = mstatic (critic (self w)) ->
                strict_ok (state_dict (critic (self w))) t = true
                /\ weights (load_entries (state_dict (critic (self w))) t)
                   = weights (critic (self w))
                /\ bweights (load_entries (state_dict (critic (self w))) t)
                   = bweights (critic (self w))).
Proof.
  intro Hr. destruct (reachable_built _ _ _ Hr) as (_ & sd & ad & ma & S).
  pose proof (static_of_net _ _ _ _ _ Actor S) as Ha.
  pose proof (static_of_net _ _ _ _ _ Critic S) as Hc.
  cbn [get_net] in Ha, Hc. split; intros t Ht.
  - rewrite Ha in Ht.
    pose proof (mstatic_laid _ _ _ _ _ _ Ha) as Lm.
    pose proof (mstatic_laid _ _ _ _ _ _ Ht) as Lt.
    apply (load_same_layout (actor (self w)) t).
    + destruct Lm as (_ & -> & _). destruct Lt as (_ & -> & _). reflexivity.
    + destruct Lm as (_ & _ & ->). destruct Lt as (_ & _ & ->). reflexivity.
    + exact (laid_out_NoDup _ _ _ _ Lm
               (actor_layout_distinct net_type sd ad)).
  - rewrite Hc in Ht.
    pose proof (mstatic_laid _ _ _ _ _ _ Hc) as Lm.
    pose proof (mstatic_laid _ _ _ _ _ _ Ht) as Lt.
    apply (load_same_layout (critic (self w)) t).
    + destruct Lm as (_ & -> & _). destruct Lt as (_ & -> & _). reflexivity.
    + destruct Lm as (_ & _ & ->). destruct Lt as (_ & _ & ->). reflexivity.
    + exact (laid_out_NoDup _ _ _ _ Lm (CriticCNN_distinct ad)).
Qed.

(** X14. What save wrote, load reads back: on an agent in any state it can
    reach, load of the name and directory that save just returned for
    returns too, and the agent is what it was, the parameters and
    the buffers of the actor and of the critic entry by entry, the
    gradients, the targets, the optimizers; load writes no file. *)
Theorem save_load_round_trip K net_type filename directory w w' :
  reachable K net_type w ->
  save filename directory w = (Ok tt, w') ->
  exists v,
    load filename directory w' = (Ok tt, v)
    /\ env v = env w'
    /\ static (self v) = static (self w)
    /\ (forall who,
          weights (get_net who (self v)) = weights (get_net who (self w))
          /\ bweights (get_net who (self v)) = bweights (get_net who (self w))
          /\ grads (get_net who (self v)) = grads (get_net who (self w)))
    /\ actor_optimizer (self v) = actor_optimizer (self w)
    /\ critic_optimizer (self v) = critic_optimizer (self w).
Proof.
  intros Hr Es.
  destruct (save_ok _ _ _ _ Es) as (Fa & Fc & _ & Hs).
  destruct (reachable_layouts K net_type w Hr) as [La Lc].
  destruct (La (actor (self w)) eq_refl) as (Sa & Wa & Ba).
  destruct (Lc (critic (self w)) eq_refl) as (Sc & Wc & Bc).
  eexists. split.
  { rewrite (load_run filename directory w' (state_dict (actor (self w))) Fa)
      by (rewrite Hs; exact Sa).
    rewrite Fc, Hs, Sc. reflexivity. }
  cbn [env self]. split; [reflexivity|].
  unfold actor_loaded. cbn [self env]. rewrite Hs.
  destruct (load_entries_frame (state_dict (actor (self w))) (actor (self w)))
    as [Ma Ga].
  destruct (load_entries_frame (state_dict (critic (self w))) (critic (self w)))
    as [Mc Gc].
  split.
  { unfold static. cbn [set_net state_dim flat actor actor_target critic
                          critic_target actor_optimizer critic_optimizer].
    rewrite Ma, Mc. reflexivity. }
  split; [|split; reflexivity].
  intros [| | |]; cbn [get_net set_net actor actor_target critic critic_target];
    repeat split; assumption || reflexivity.
Qed.

Lemma save_load_round_trip_witness :
  exists v,
    demo_load = (Ok tt, v)
    /\ env v = env (snd demo_save)
    /\ static (self v) = static (self (demo_world "cnn"))
    /\ (forall who,
          weights (get_net who (self v))
          = weights (get_net who (self (demo_world "cnn")))
          /\ bweights (get_net who (self v))
             = bweights (get_net who (self (demo_world "cnn")))
          /\ grads (get_net who (self v))
             = grads (get_net who (self (demo_world "cnn"))))
    /\ actor_optimizer (self v) = actor_optimizer (self (demo_world "cnn"))
    /\ critic_optimizer (self v) = critic_optimizer (self (demo_world "cnn")).
Proof.
  apply (save_load_round_trip demo_kernels "cnn" "ddpg" "models"
           (demo_world "cnn") (snd demo_save)).
  - apply demo_reachable. vm_compute. reflexivity.
  - apply (succeeded_unit demo_save). vm_compute. reflexivity.
Defined.

(** X15. load is not atomic: it replaces the actor before it opens the
    file of the critic.  When the file of the actor loads and there is no
    file of the critic, load raises FileNotFoundError and the live actor
    holds the entries of its file already; the critic, the targets, the
    optimizers and the environment are as before. *)
Theorem load_not_atomic filename directory w sda :
  files (disk (env w)) (actor_path filename directory) = Some sda ->
  strict_ok sda (actor (self w)) = true ->
  files (disk (env w)) (critic_path filename directory) = None ->
  exists w',
    load filename directory w = (Raise FileNotFoundError, w')
    /\ actor (self w') = load_entries sda (actor (self w))
    /\ critic (self w') = critic (self w)
    /\ actor_target (self w') = actor_target (self w)
    /\ critic_target (self w') = critic_target (self w)
    /\ actor_optimizer (self w') = actor_optimizer (self w)
    /\ critic_optimizer (self w') = critic_optimizer (self w)
    /\ env w' = env w.
Proof.
  intros Fa Sa Fc. exists (actor_loaded sda w).
  rewrite (load_run filename directory w sda Fa Sa), Fc.
  repeat split; reflexivity.
Qed.

Lemma load_not_atomic_witness :
  exists w',
    load "ddpg" "models" demo_half_saved = (Raise FileNotFoundError, w')
    /\ actor (self w')
       = load_entries (state_dict (actor (self (demo_world "cnn"))))
           (actor (self demo_half_saved))
    /\ critic (self w') = critic (self demo_half_saved)
    /\ actor_target (self w') = actor_target (self demo_half_saved)
    /\ critic_target (self w') = critic_target (self demo_half_saved)
    /\ actor_optimizer (self w') = actor_optimizer (self demo_half_saved)
    /\ critic_optimizer (self w') = critic_optimizer (self demo_half_saved)
    /\ env w' = env demo_half_saved.
Proof.
  apply (load_not_atomic "ddpg" "models" demo_half_saved
           (state_dict (actor (self (demo_world "cnn"))))).
  - reflexivity.
  - vm_compute. reflexivity.
  - reflexivity.
Defined.

Lemma init_checks_checkpoint_witness :
  exists a e', demo_init_chkp = (Ok a, e').
Proof.
  assert (V : valid_dims [3; 120; 160]%Z 2 "cnn")
    by (split; [lia | discriminate]).
  assert (P : "models/ddpg_critic.pth" <> "") by discriminate.
  pose proof (init_checks_checkpoint [3; 120; 160]%Z 2 1 "cnn"
                "models/ddpg_critic.pth" demo_saved_env
                (state_dict (critic (self (demo_world "cnn"))))
                (or_introl eq_refl) V P eq_refl) as H.
  assert (F : fits_layout (state_dict (critic (self (demo_world "cnn"))))
                (CriticCNN_layout 2) bn_layout = true)
    by (vm_compute; reflexivity).
  rewrite F in H. exact H.
Defined.
